(** * Object attribute engine of the OCI wrapper: struct layout, null
      indicators, attribute accessors and run-time type resolution.

    Shallow embedding of [object.c]: [ObjectGetRealTypeInfo],
    [ObjectGetIndOffset], [ObjectGetStructSize], [ObjectGetUserStructSize],
    [ObjectGetAttrInfo], [ObjectGetAttrIndex], [ObjectGetAttr], the
    [OCI_OBJECT_SET_VALUE] / [OCI_OBJECT_GET_VALUE] macro bodies and the
    accessors built on them.

    Conventions.
    - C integers are [Z]; a narrowing store is written out ([ub2], [size_t],
      [to_int]).
    - A [OCI_TypeInfo] descriptor is immutable once the catalog has built it,
      except for its three layout cache fields ([struct_size], [align],
      [offsets]).  The immutable part is a finite tree (an Oracle type cannot
      contain itself by value); the cache fields live in a store indexed by
      the address of the descriptor, so that every column and every subtype
      referring to one descriptor shares one cache, as the pointers do in C.
    - A computation that would leave defined C behaviour (a write outside an
      array, a dereference of a null pointer) yields [None]. *)

From Stdlib Require Import ZArith Lia Bool Ascii String.
From stdpp Require Import base option list gmap strings.

Local Open Scope Z_scope.

(* ===================================================================== *)
(** ** Machine integers *)
(* ===================================================================== *)

(** [ub2]: unsigned 16-bit store. *)
Definition ub2 (z : Z) : Z := z mod 65536.

(** [size_t]: unsigned 64-bit store. *)
Definition size_t (z : Z) : Z := z mod 2 ^ 64.

(** [(int)] cast of a [size_t] value: two's complement 32-bit. *)
Definition to_int (z : Z) : Z := (z + 2 ^ 31) mod 2 ^ 32 - 2 ^ 31.

(* ===================================================================== *)
(** ** Type descriptors *)
(* ===================================================================== *)

(** Column data kinds ([OCI_CDT_*]). *)
Inductive OCI_CDT : Set :=
| OCI_CDT_NUMERIC | OCI_CDT_DATETIME | OCI_CDT_TEXT | OCI_CDT_LONG
| OCI_CDT_CURSOR | OCI_CDT_LOB | OCI_CDT_FILE | OCI_CDT_TIMESTAMP
| OCI_CDT_INTERVAL | OCI_CDT_RAW | OCI_CDT_OBJECT | OCI_CDT_COLLECTION
| OCI_CDT_REF | OCI_CDT_BOOLEAN.

#[global] Instance OCI_CDT_eq_dec : EqDecision OCI_CDT.
Proof. solve_decision. Defined.

(** Kinds of descriptor ([typinf->type]). *)
Inductive OCI_TIF : Set := OCI_TIF_TABLE | OCI_TIF_VIEW | OCI_TIF_TYPE.

#[global] Instance OCI_TIF_eq_dec : EqDecision OCI_TIF.
Proof. solve_decision. Defined.

(** Address of a C object; [None] of an [option] stands for [NULL]. *)
Definition ptr := positive.

(** [OCI_Column], abstracted over the type of the nested descriptor.
    [col_typinf] is [cols[i].typinf]; the routines below read it for
    object columns only, so it may be left [None] elsewhere (a REF column
    can point back to the type it belongs to, which a tree does not
    hold). *)
Record OCI_Column (T : Type) : Type := Column {
  col_name : string;
  col_datatype : OCI_CDT;
  col_subtype : Z;
  col_typinf : option T
}.
Arguments Column {T}.
Arguments col_name {T}.
Arguments col_datatype {T}.
Arguments col_subtype {T}.
Arguments col_typinf {T}.

(** [OCI_TypeInfo]: the immutable part, with the fields [object.c] reads.
    The struct is declared in a header outside the sources at hand; as in
    the data model of the specification (section 3), [cols] is the ordered
    sequence of the columns and [offsets] has one cell per column, so
    [nb_cols] is the length of [cols]. *)
#[local] Unset Elimination Schemes.
Inductive OCI_TypeInfo : Type := TypeInfo {
  ti_addr : ptr;
  ti_type : OCI_TIF;
  tdo : Z;
  is_final : bool;
  parent_type : option OCI_TypeInfo;
  cols : list (OCI_Column OCI_TypeInfo)
}.
#[local] Set Elimination Schemes.

Definition nb_cols (t : OCI_TypeInfo) : Z := Z.of_nat (length (cols t)).

(** Nesting depth of a descriptor (parent chain and nested object columns). *)
Fixpoint depth (t : OCI_TypeInfo) : nat :=
  match t with
  | TypeInfo _ _ _ _ p cs =>
      S (Nat.max (match p with Some q => depth q | None => 0%nat end)
           (list_max (map (fun c => match col_typinf c with
                                    | Some n => depth n
                                    | None => 0%nat
                                    end) cs)))
  end.

(* ===================================================================== *)
(** ** ObjectGetIndOffset *)
(* ===================================================================== *)

(** The [for] loop of [ObjectGetIndOffset]: [n] iterations remain, [cs] is
    the array from [cols[i]] on, [j] the running [ub2] offset.  [rec] is the
    recursive call [ObjectGetIndOffset(nested, nested->nb_cols)]. *)
Definition IndOffset_loop (rec : OCI_TypeInfo -> option Z) :
    list (OCI_Column OCI_TypeInfo) -> nat -> Z -> option Z :=
  fix loop cs n j {struct cs} :=
    match n with
    | O => Some j
    | S n' =>
        match cs with
        | [] => None
        | c :: cs' =>
            match col_datatype c with
            | OCI_CDT_OBJECT =>
                match col_typinf c with
                | None => None
                | Some nt =>
                    match rec nt with
                    | None => None
                    | Some r => loop cs' n' (ub2 (j + r))
                    end
                end
            | _ => loop cs' n' (ub2 (j + 1))
            end
        end
    end.

(** Body of [ObjectGetIndOffset] for [typinf != NULL].  The counter [i]
    is a [ub2]: it can never reach an [index] above 65535. *)
Fixpoint IndOffset (t : OCI_TypeInfo) (index : Z) {struct t} : option Z :=
  match t with
  | TypeInfo _ _ _ _ _ cs =>
      if decide (65535 < index) then None
      else IndOffset_loop (fun nt => IndOffset nt (nb_cols nt)) cs (Z.to_nat index) 1
  end.

(** [ub2 ObjectGetIndOffset(OCI_TypeInfo *typinf, int index)]. *)
Definition ObjectGetIndOffset (typinf : option OCI_TypeInfo) (index : Z) : option Z :=
  match typinf with
  | None => Some 0
  | Some t => IndOffset t index
  end.

(** Descriptors on which [ObjectGetIndOffset] never leaves defined
    behaviour: at most 65535 columns, and every object column carries its
    nested descriptor, recursively. *)
Fixpoint ind_ok (t : OCI_TypeInfo) : bool :=
  match t with
  | TypeInfo _ _ _ _ _ cs =>
      bool_decide (Z.of_nat (length cs) <= 65535) &&
      forallb (fun c => match col_datatype c with
                        | OCI_CDT_OBJECT =>
                            match col_typinf c with
                            | Some nt => ind_ok nt
                            | None => false
                            end
                        | _ => true
                        end) cs
  end.

(** *** The indicator layout in the words of the specification *)

(** Number of indicator slots below a composite value, its own slot
    excluded: a plain column holds one slot, a nested object column its own
    slot and the slots of its nested type. *)
Fixpoint flattened_count (t : OCI_TypeInfo) : Z :=
  match t with
  | TypeInfo _ _ _ _ _ cs =>
      foldr Z.add 0
        (map (fun c => match col_datatype c, col_typinf c with
                       | OCI_CDT_OBJECT, Some nt => 1 + flattened_count nt
                       | _, _ => 1
                       end) cs)
  end.

(** Slots taken by one column. *)
Definition col_slots (c : OCI_Column OCI_TypeInfo) : Z :=
  match col_datatype c, col_typinf c with
  | OCI_CDT_OBJECT, Some nt => 1 + flattened_count nt
  | _, _ => 1
  end.

(** [IndicatorOffset(type, index)] as the specification words it: counting
    forward from 0 across the columns [[0, index)]. *)
Definition IndicatorOffset_spec (t : OCI_TypeInfo) (index : nat) : Z :=
  foldr Z.add 0 (map col_slots (take index (cols t))).

(* ===================================================================== *)
(** ** Struct layout: platform, cache store, state monad *)
(* ===================================================================== *)

(** What the build supplies and the sources at hand leave open: the sizes
    of the native types named by [ObjectGetAttrInfo], the numeric subtype
    flags [OCI_NUM_*] of the public header, and the [ROUNDUP] macro of the
    library's private header.  Nothing is assumed of them. *)
Class Platform := {
  sizeof_short : Z;
  sizeof_int : Z;
  sizeof_double : Z;
  sizeof_OCINumber : Z;
  sizeof_ub1 : Z;
  sizeof_OCIDate : Z;
  sizeof_sb2 : Z;
  sizeof_boolean : Z;
  sizeof_ptr : Z;
  OCI_NUM_SHORT : Z;
  OCI_NUM_INT : Z;
  OCI_NUM_FLOAT : Z;
  OCI_NUM_DOUBLE : Z;
  ROUNDUP : Z -> Z -> Z
}.

(** [subtype & flag] as a C condition. *)
Definition has_flag (subtype flag : Z) : bool :=
  negb (Z.land subtype flag =? 0).

(** The mutable cache fields of a descriptor: [typinf->struct_size],
    [typinf->align] and the cells of [typinf->offsets]. *)
Record layout : Type := Layout {
  struct_size : Z;
  align : Z;
  offsets : gmap Z Z
}.

(** A descriptor fresh from the catalog: zeroed memory. *)
Definition fresh : layout := Layout 0 0 ∅.

(** The cache fields of [t] in the store [h]. *)
Definition cache_of (h : gmap ptr layout) (t : OCI_TypeInfo) : layout :=
  default fresh (h !! ti_addr t).

(** [offsets[i]] of a cache entry; the array is zero until written. *)
Definition offset_at (l : layout) (i : Z) : Z := default 0 (offsets l !! i).

(** Computations over the cache store that may leave defined behaviour. *)
Definition M (A : Type) : Type :=
  gmap ptr layout -> option (A * gmap ptr layout).

#[global] Instance M_ret : MRet M := fun A x h => Some (x, h).
#[global] Instance M_bind : MBind M := fun A B f m h =>
  match m h with
  | Some (x, h') => f x h'
  | None => None
  end.

Definition fault {A} : M A := fun _ => None.

Definition get_layout (t : OCI_TypeInfo) : M layout :=
  fun h => Some (cache_of h t, h).

Definition put_layout (t : OCI_TypeInfo) (l : layout) : M unit :=
  fun h => Some (tt, <[ti_addr t := l]> h).

(** [typinf->align = v]. *)
Definition set_align (t : OCI_TypeInfo) (v : Z) : M unit :=
  l ← get_layout t;
  put_layout t (Layout (struct_size l) v (offsets l)).

(** [typinf->struct_size = v]. *)
Definition set_struct_size (t : OCI_TypeInfo) (v : Z) : M unit :=
  l ← get_layout t;
  put_layout t (Layout v (align l) (offsets l)).

(** [typinf->offsets[i] = v]; the array has [nb_cols] cells. *)
Definition set_offset (t : OCI_TypeInfo) (i v : Z) : M unit :=
  if decide (0 <= i < nb_cols t) then
    l ← get_layout t;
    put_layout t (Layout (struct_size l) (align l) (<[i := v]> (offsets l)))
  else fault.

(* ===================================================================== *)
(** ** ObjectGetAttrInfo and ObjectGetStructSize *)
(* ===================================================================== *)

Section Layout.
Context `{Platform}.

(** [rec] stands for the call [ObjectGetStructSize(nested, p_size, p_align)]
    on a non-null descriptor. *)
Variable rec : OCI_TypeInfo -> M (Z * Z).

(** [boolean ObjectGetAttrInfo(typinf, index, p_size, p_align)].  [sz] and
    [al] are the values of [*p_size] and [*p_align] on entry; the result
    holds the return value and the two cells on exit. *)
Definition ObjectGetAttrInfo (t : OCI_TypeInfo) (index : Z) (sz al : Z)
  : M (bool * Z * Z) :=
  if decide (nb_cols t <= index) then mret (false, 0, al)
  else if decide (index < 0) then fault
  else
    match cols t !! Z.to_nat index with
    | None => fault
    | Some c =>
        '(sz', al') ←
          match col_datatype c with
          | OCI_CDT_NUMERIC =>
              let subtype := col_subtype c in
              if has_flag subtype OCI_NUM_SHORT then
                mret (sizeof_short, sizeof_short)
              else if has_flag subtype OCI_NUM_INT then
                mret (sizeof_int, sizeof_int)
              else if has_flag subtype OCI_NUM_FLOAT then
                mret (sizeof_double, sizeof_double)
              else if has_flag subtype OCI_NUM_DOUBLE then
                mret (sizeof_double, sizeof_double)
              else mret (sizeof_OCINumber, sizeof_ub1)
          | OCI_CDT_DATETIME => mret (sizeof_OCIDate, sizeof_sb2)
          | OCI_CDT_BOOLEAN => mret (sizeof_boolean, sizeof_boolean)
          | OCI_CDT_OBJECT =>
              match col_typinf c with
              | None => mret (sz, al)
              | Some nt => rec nt
              end
          | _ => mret (sizeof_ptr, sizeof_ptr)
          end;
        l ← get_layout t;
        _ ← (if decide (align l < al') then set_align t al' else mret tt);
        mret (true, sz', al')
    end.

(** The loop copying the offsets of the parent [p] into those of [t]:
    [n] iterations remain, [i] is the loop counter. *)
Fixpoint copy_offsets (t p : OCI_TypeInfo) (n : nat) (i : Z) : M unit :=
  match n with
  | O => mret tt
  | S n' =>
      lp ← get_layout p;
      _ ← set_offset t i (offset_at lp i);
      copy_offsets t p n' (i + 1)
  end.

(** The main loop of [ObjectGetStructSize]: [n] iterations remain; the
    result holds [size] and [size2] on exit. *)
Fixpoint layout_loop (t : OCI_TypeInfo) (n : nat)
    (i size size1 size2 align_ : Z) : M (Z * Z) :=
  match n with
  | O => mret (size, size2)
  | S n' =>
      '(size1, align_) ←
        (if decide (0 < i) then
           _ ← set_offset t i (to_int size);
           mret (size2, align_)
         else
           '(_, s1, a) ← ObjectGetAttrInfo t i size1 align_;
           _ ← set_offset t i 0;
           mret (s1, a));
      '(_, size2, align_) ← ObjectGetAttrInfo t (i + 1) size2 align_;
      let size := size_t (size + size1) in
      let size := size_t (ROUNDUP size align_) in
      layout_loop t n' (i + 1) size size1 size2 align_
  end.

(** The block under [if (typinf->parent_type)]: the layout of the parent
    comes first and its offsets are copied; the result holds [i], [size],
    [size2] and [align] as the block leaves them (all 0 for a root type). *)
Definition GetStructSize_parent (t : OCI_TypeInfo) : M (Z * Z * Z * Z) :=
  match parent_type t with
  | Some p =>
      '(size, align_) ← rec p;
      _ ← copy_offsets t p (Z.to_nat (nb_cols p)) 0;
      let i := nb_cols p in
      if decide (i < nb_cols t) then
        _ ← set_align t align_;
        '(_, size2, next_align) ← ObjectGetAttrInfo t i 0 0;
        mret (i, size_t (ROUNDUP size next_align), size2, align_)
      else mret (i, size, 0, align_)
  | None => mret (0, 0, 0, 0)
  end.

(** The main loop and the store of [typinf->struct_size]. *)
Definition GetStructSize_finish (t : OCI_TypeInfo) (i size size2 align_ : Z)
  : M unit :=
  '(size, size2) ←
    layout_loop t (Z.to_nat (nb_cols t - i)) i size 0 size2 align_;
  l' ← get_layout t;
  set_struct_size t (size_t (ROUNDUP (size_t (size + size2)) (align l'))).

(** The block under [if (typinf->struct_size == 0)]. *)
Definition GetStructSize_compute (t : OCI_TypeInfo) : M unit :=
  '(i, size, size2, align_) ← GetStructSize_parent t;
  GetStructSize_finish t i size size2 align_.

(** Body of [ObjectGetStructSize] for non-null arguments. *)
Definition GetStructSize_body (t : OCI_TypeInfo) : M (Z * Z) :=
  l ← get_layout t;
  _ ← (if decide (struct_size l = 0) then GetStructSize_compute t
       else mret tt);
  l ← get_layout t;
  mret (struct_size l, align l).

End Layout.

(** The recursion of [ObjectGetStructSize], unrolled [fuel] levels deep. *)
Fixpoint GetStructSize_fuel `{Platform} (fuel : nat) (t : OCI_TypeInfo)
  : M (Z * Z) :=
  match fuel with
  | O => fault
  | S f => GetStructSize_body (GetStructSize_fuel f) t
  end.

(** [void ObjectGetStructSize(typinf, p_size, p_align)] with non-null
    [p_size] and [p_align] holding [sz] and [al] on entry.  A descriptor
    nests at most [depth t] levels, which bounds the recursion. *)
Definition ObjectGetStructSize `{Platform} (typinf : option OCI_TypeInfo)
    (sz al : Z) : M (Z * Z) :=
  match typinf with
  | None => mret (sz, al)
  | Some t => GetStructSize_fuel (depth t) t
  end.

(* ===================================================================== *)
(** ** ObjectGetUserStructSize *)
(* ===================================================================== *)

Section UserStruct.
Context `{Platform}.

(** [ColumnGetAttrInfo(col, count, index, p_size, p_align)] lives in
    column.c, which is not among the sources at hand.  It is given what
    lies at the slot [col] points to ([None] when the slot is outside the
    array), [count], [index] and the two cells on entry, and yields the two
    cells on exit. *)
Variable ColumnGetAttrInfo :
  option (OCI_Column OCI_TypeInfo) -> Z -> Z -> Z -> Z -> Z * Z.

(** The cells of the local variables of [ObjectGetUserStructSize]. *)
Record user_locals : Type := UserLocals {
  u_size : Z; u_size1 : Z; u_size2 : Z;
  u_align1 : Z; u_align2 : Z; u_align : Z
}.

(** One iteration of the loop at counter [i].  Beside the locals it
    yields the indexes of the slots of [typinf->cols] whose address it
    hands to [ColumnGetAttrInfo], in order. *)
Definition UserStructSize_step (t : OCI_TypeInfo) (i : Z) (v : user_locals)
  : user_locals * list Z :=
  let '(size1, align1) :=
    ColumnGetAttrInfo (cols t !! Z.to_nat i) (nb_cols t) i
      (u_size1 v) (u_align1 v) in
  let '(size2, align2) :=
    ColumnGetAttrInfo (cols t !! Z.to_nat (i + 1)) (nb_cols t) (i + 1)
      (u_size2 v) (u_align2 v) in
  let align_ := u_align v in
  let align_ := if decide (align_ < align1) then align1 else align_ in
  let align_ := if decide (align_ < align2) then align2 else align_ in
  let size := size_t (u_size v + size1) in
  let size := size_t (ROUNDUP size align2) in
  (UserLocals size size1 size2 align1 align2 align_, [i; i + 1]).

(** The loop: [n] iterations remain. *)
Fixpoint UserStructSize_loop (t : OCI_TypeInfo) (n : nat) (i : Z)
    (v : user_locals) : user_locals * list Z :=
  match n with
  | O => (v, [])
  | S n' =>
      let '(v1, s1) := UserStructSize_step t i v in
      let '(v2, s2) := UserStructSize_loop t n' (i + 1) v1 in
      (v2, s1 ++ s2)
  end.

(** [void ObjectGetUserStructSize(typinf, p_size, p_align)] with non-null
    [p_size] and [p_align] holding [sz] and [al] on entry: the two cells on
    exit, and the slots of [typinf->cols] addressed on the way. *)
Definition ObjectGetUserStructSize (typinf : option OCI_TypeInfo) (sz al : Z)
  : Z * Z * list Z :=
  match typinf with
  | None => (sz, al, [])
  | Some t =>
      let '(v, slots) :=
        UserStructSize_loop t (Z.to_nat (nb_cols t)) 0 (UserLocals 0 0 0 0 0 0) in
      (u_size v, u_align v, slots)
  end.

End UserStruct.

(* ===================================================================== *)
(** ** Object instances and the state of a session *)
(* ===================================================================== *)

(** Null indicator values ([OCIInd], a signed 16-bit integer), with the
    values of the client library's public header.  The general properties
    below name them; the numbers matter on the sample session alone. *)
Definition OCI_IND_NOTNULL : Z := 0.
Definition OCI_IND_NULL : Z := -1.
Definition OCI_IND_BADNULL : Z := -2.

(** Diagnostics recorded out of band ([Exception*] of the library). *)
Inductive OCI_Exception : Type :=
| ExceptionNullPointer (ipc : string)
| ExceptionAttributeNotFound (attr : string)
| ExceptionOCI (call : string).

(** What the sources at hand leave to other files of the library and to
    the client library.  [Mem] is the native memory holding instances and
    their strings, [Wrapper] a handle wrapper ([OCI_Number *],
    [OCI_Date *], ...).  A native that reports success or failure yields
    [true] or [false]. *)
Class Runtime := {
  Mem : Type;
  Wrapper : Type;
  (** [OCI_STATUS] as [OCI_CALL_ENTER] leaves it *)
  call_enter_status : bool;
  (** [*(boolean * ) p] and [*(boolean * ) p = v] *)
  load_boolean : Mem -> Z -> Z;
  store_boolean : Mem -> Z -> Z -> Mem;
  (** [TranslateNumericValue(con, value, flag, num, subtype)], towards the
      attribute at [num] *)
  TranslateNumericValue_in : Z -> Z -> Z -> Z -> Mem -> bool * Mem;
  (** [TranslateNumericValue(con, ptr, subtype, value, flag)], from the
      attribute at [ptr]: the verdict and the new content of [*value] *)
  TranslateNumericValue_out : Z -> Z -> Z -> Z -> Mem -> bool * Z;
  (** [NumberFromString(con, value, flag, text, NULL)] *)
  NumberFromString : Z -> option string -> Z -> bool * Z;
  (** [StringToStringPtr(env, data, err, value)] *)
  StringToStringPtr : Z -> string -> Mem -> bool * Mem;
  (** the text of the [OCIString] at [*value] ([OCIStringPtr], or
      [StringFromStringPtr] under wide character conversion) *)
  OCIStringPtr : Z -> Mem -> option string;
  (** [StringGetFromType] and [StringRequestBuffer] for an attribute that
      is not text, given the column, the address of the attribute and,
      for a raw attribute, whether its bytes were fetched: the verdict and
      the text, when there is one *)
  StringGetFromType : OCI_Column OCI_TypeInfo -> Z -> bool -> Mem ->
                      bool * option string
}.

Section Accessors.
Context `{Platform} `{Runtime}.

(** [OCI_Object]: the fields the accessors use.  [handle] is the address
    of the native instance (0 for [NULL]); [tab_ind] names the indicator
    array, shared with the parent of an embedded instance; [objs] holds
    the wrapper cached for each attribute. *)
Record OCI_Object : Type := Object {
  typinf : OCI_TypeInfo;
  handle : Z;
  tab_ind : ptr;
  idx_ind : Z;
  objs : list (option Wrapper)
}.

(** The state of a session: the layout caches of the descriptors, the
    indicator arrays, the native memory, the diagnostics recorded so far
    and the log of the native assignments with their verdicts. *)
Record World : Type := MkWorld {
  caches : gmap ptr layout;
  inds : gmap ptr (list Z);
  mem : Mem;
  raised : list OCI_Exception;
  calls : list (string * bool)
}.

(** Computations over the session that may leave defined behaviour. *)
Definition W (A : Type) : Type := World -> option (A * World).

#[global] Instance W_ret : MRet W := fun A x w => Some (x, w).
#[global] Instance W_bind : MBind W := fun A B f m w =>
  match m w with
  | Some (x, w') => f x w'
  | None => None
  end.

Definition wfault {A} : W A := fun _ => None.

(** A computation over the layout caches, run in the session. *)
Definition lift {A} (m : M A) : W A := fun w =>
  match m (caches w) with
  | Some (x, h') => Some (x, MkWorld h' (inds w) (mem w) (raised w) (calls w))
  | None => None
  end.

Definition of_option {A} (o : option A) : W A := fun w =>
  match o with
  | Some x => Some (x, w)
  | None => None
  end.

Definition raise (e : OCI_Exception) : W unit := fun w =>
  Some (tt, MkWorld (caches w) (inds w) (mem w) (raised w ++ [e]) (calls w)).

(** [tab[i]] *)
Definition read_ind (tab : ptr) (i : Z) : W Z := fun w =>
  if decide (0 <= i) then
    match inds w !! tab with
    | Some a => match a !! Z.to_nat i with
                | Some v => Some (v, w)
                | None => None
                end
    | None => None
    end
  else None.

(** [tab[i] = v] *)
Definition write_ind (tab : ptr) (i v : Z) : W unit := fun w =>
  if decide (0 <= i) then
    match inds w !! tab with
    | Some a =>
        if decide (Z.to_nat i < length a)%nat then
          Some (tt, MkWorld (caches w) (<[tab := <[Z.to_nat i := v]> a]> (inds w))
                      (mem w) (raised w) (calls w))
        else None
    | None => None
    end
  else None.

(** A routine working on the native memory. *)
Definition with_mem {A} (f : Mem -> A * Mem) : W A := fun w =>
  let '(r, m') := f (mem w) in
  Some (r, MkWorld (caches w) (inds w) m' (raised w) (calls w)).

(** A native assignment reporting a verdict; the call and its verdict are
    logged in [calls]. *)
Definition native (name : string) (f : Mem -> bool * Mem) : W bool := fun w =>
  let '(ok, m') := f (mem w) in
  Some (ok, MkWorld (caches w) (inds w) m' (raised w) (calls w ++ [(name, ok)])).

(** Modelled from the spec: [OCI_EXEC] is a macro of the private header,
    which is not among the sources at hand.  By the error handling design
    (section 7) a native primitive that returns an error status gives the
    call its "did not succeed" signal and leaves a diagnostic out of band.
    Here [OCI_STATUS] is true on entry, as the macro bodies set it just
    before: the native runs, its verdict becomes [OCI_STATUS], a failure is
    recorded. *)
Definition OCI_EXEC (name : string) (f : Mem -> bool * Mem) : W bool :=
  ok ← native name f;
  _ ← (if (ok : bool) then mret tt else raise (ExceptionOCI name));
  mret ok.

(** A read of the native memory. *)
Definition read_mem {A} (f : Mem -> A) : W A := fun w => Some (f (mem w), w).

(** Modelled from the spec: [OCI_CALL_CHECK_PTR(type, ptr)] is a macro of
    the private header.  By section 7 an accessor called with an absent
    argument records a diagnostic and returns a neutral result; [dflt] is
    the value [OCI_CALL_ENTER] gave [OCI_RETVAL]. *)
Definition check_ptr_failed {A} (ipc : string) (dflt : A) : W A :=
  _ ← raise (ExceptionNullPointer ipc); mret dflt.

(** *** ObjectGetAttrIndex *)

Definition to_lower (c : ascii) : ascii :=
  let n := nat_of_ascii c in
  if (65 <=? n)%nat && (n <=? 90)%nat then ascii_of_nat (n + 32) else c.

Fixpoint lower (s : string) : string :=
  match s with
  | EmptyString => EmptyString
  | String c s' => String (to_lower c) (lower s')
  end.

(** [ostrcasecmp(a, b) == 0] *)
Definition ostrcasecmp_eq (a b : string) : bool :=
  bool_decide (lower a = lower b).

(** The search loop of [ObjectGetAttrIndex], from column [i] on;
    [type = None] stands for [-1]. *)
Fixpoint find_attr (cs : list (OCI_Column OCI_TypeInfo))
    (type : option OCI_CDT) (attr : string) (i : Z) : Z :=
  match cs with
  | [] => -1
  | col :: cs' =>
      if match type with
         | None => true
         | Some ty => bool_decide (col_datatype col = ty)
         end && ostrcasecmp_eq (col_name col) attr
      then i
      else find_attr cs' type attr (i + 1)
  end.

(** [int ObjectGetAttrIndex(obj, attr, type, check)] *)
Definition ObjectGetAttrIndex (obj : option OCI_Object) (attr : option string)
    (type : option OCI_CDT) (check : bool) : W Z :=
  match obj, attr with
  | Some o, Some a =>
      let res := find_attr (cols (typinf o)) type a 0 in
      _ ← (if check && bool_decide (res = -1)
           then raise (ExceptionAttributeNotFound a) else mret tt);
      mret res
  | _, _ => mret (-1)
  end.

(** *** ObjectGetAttr *)

(** [obj->idx_ind + ObjectGetIndOffset(obj->typinf, index)] *)
Definition ind_index_of (o : OCI_Object) (index : Z) : W Z :=
  r ← of_option (ObjectGetIndOffset (Some (typinf o)) index);
  mret (idx_ind o + r).

(** [void * ObjectGetAttr(obj, index, pind)] for non-null [obj] and
    [pind]: the address of the attribute, and in [*pind] the cell
    [&obj->tab_ind[ind_index]], named by its index. *)
Definition ObjectGetAttr (o : OCI_Object) (index : Z) : W (Z * Z) :=
  l ← lift (get_layout (typinf o));
  _ ← (if decide (struct_size l = 0)
       then _ ← lift (ObjectGetStructSize (Some (typinf o)) 0 0); mret tt
       else mret tt);
  l ← lift (get_layout (typinf o));
  offset ← (if decide (0 <= index < nb_cols (typinf o))
            then mret (size_t (offset_at l index)) else wfault);
  ind_index ← ind_index_of o index;
  mret (handle o + offset, ind_index).

(** *** ObjectSetNull, ObjectIsNull *)

(** [boolean ObjectSetNull(obj, attr)] *)
Definition ObjectSetNull (obj : option OCI_Object) (attr : option string)
  : W bool :=
  match obj, attr with
  | None, _ => check_ptr_failed "OCI_IPC_OBJECT" false
  | Some _, None => check_ptr_failed "OCI_IPC_STRING" false
  | Some o, Some _ =>
      index ← ObjectGetAttrIndex obj attr None true;
      if decide (0 <= index) then
        ind_index ← ind_index_of o index;
        _ ← write_ind (tab_ind o) ind_index OCI_IND_NULL;
        mret true
      else mret call_enter_status
  end.

(** [boolean ObjectIsNull(obj, attr)] *)
Definition ObjectIsNull (obj : option OCI_Object) (attr : option string)
  : W bool :=
  match obj, attr with
  | None, _ => check_ptr_failed "OCI_IPC_OBJECT" false
  | Some _, None => check_ptr_failed "OCI_IPC_STRING" false
  | Some o, Some _ =>
      index ← ObjectGetAttrIndex obj attr None true;
      if decide (0 <= index) then
        ind_index ← ind_index_of o index;
        v ← read_ind (tab_ind o) ind_index;
        mret (negb (bool_decide (OCI_IND_NOTNULL = v)))
      else mret false
  end.

(** *** Setters *)

(** [OCI_OBJECT_SET_VALUE(datatype, type, func)].  [value] is the nullable
    argument of the setter; [func] is the native assignment, given the
    object, the index, the address [data] of the attribute and the
    value. *)
Definition OCI_OBJECT_SET_VALUE {V : Type} (datatype : OCI_CDT)
    (name : string) (func : OCI_Object -> Z -> Z -> V -> Mem -> bool * Mem)
    (obj : option OCI_Object) (attr : option string) (value : option V)
  : W bool :=
  match obj with
  | None => check_ptr_failed "OCI_IPC_OBJECT" false
  | Some o =>
      match value with
      | None => ObjectSetNull obj attr
      | Some v =>
          index ← ObjectGetAttrIndex obj attr (Some datatype) true;
          if decide (0 <= index) then
            '(data, ind) ← ObjectGetAttr o index;
            status ← OCI_EXEC name (func o index data v);
            _ ← (if (status : bool) then write_ind (tab_ind o) ind OCI_IND_NOTNULL
                 else mret tt);
            mret status
          else mret false
      end
  end.

(** [boolean ObjectSetNumberInternal(obj, attr, value, flag)]; [value]
    points to a caller's variable holding [v]. *)
Definition ObjectSetNumberInternal (obj : option OCI_Object)
    (attr : option string) (v : Z) (flag : Z) : W bool :=
  match obj, attr with
  | None, _ => check_ptr_failed "OCI_IPC_OBJECT" false
  | Some _, None => check_ptr_failed "OCI_IPC_STRING" false
  | Some o, Some _ =>
      index ← ObjectGetAttrIndex obj attr (Some OCI_CDT_NUMERIC) true;
      if decide (0 <= index) then
        '(num, ind) ← ObjectGetAttr o index;
        col ← of_option (cols (typinf o) !! Z.to_nat index);
        status ← native "TranslateNumericValue"
                   (TranslateNumericValue_in v flag num (col_subtype col));
        _ ← (if (status : bool) then write_ind (tab_ind o) ind OCI_IND_NOTNULL
             else mret tt);
        mret status
      else mret false
  end.

(** [boolean ObjectSetShort(obj, attr, value)] *)
Definition ObjectSetShort (obj : option OCI_Object) (attr : option string)
    (value : Z) : W bool :=
  ObjectSetNumberInternal obj attr value OCI_NUM_SHORT.

(** [boolean ObjectSetString(obj, attr, value)] *)
Definition ObjectSetString (obj : option OCI_Object) (attr : option string)
    (value : option string) : W bool :=
  match obj, attr with
  | None, _ => check_ptr_failed "OCI_IPC_OBJECT" false
  | Some _, None => check_ptr_failed "OCI_IPC_STRING" false
  | Some o, Some _ =>
      match value with
      | None => ObjectSetNull obj attr
      | Some v =>
          index ← ObjectGetAttrIndex obj attr (Some OCI_CDT_TEXT) true;
          if decide (0 <= index) then
            '(data, ind) ← ObjectGetAttr o index;
            status ← native "StringToStringPtr" (StringToStringPtr data v);
            _ ← (if (status : bool) then write_ind (tab_ind o) ind OCI_IND_NOTNULL
                 else mret tt);
            mret status
          else mret false
      end
  end.

(** [boolean ObjectSetBoolean(obj, attr, value)] *)
Definition ObjectSetBoolean (obj : option OCI_Object) (attr : option string)
    (value : Z) : W bool :=
  match obj, attr with
  | None, _ => check_ptr_failed "OCI_IPC_OBJECT" false
  | Some _, None => check_ptr_failed "OCI_IPC_STRING" false
  | Some o, Some _ =>
      index ← ObjectGetAttrIndex obj attr (Some OCI_CDT_BOOLEAN) true;
      if decide (0 <= index) then
        '(data, ind) ← ObjectGetAttr o index;
        if decide (data = 0) then mret false
        else
          _ ← with_mem (fun m => (tt, store_boolean m data value));
          _ ← write_ind (tab_ind o) ind OCI_IND_NOTNULL;
          mret true
      else mret false
  end.

(** The setters built on the macro differ by the column kind and the
    native assignment. *)
Definition ObjectSetNumber
    (OCINumberAssign : OCI_Object -> Z -> Z -> Wrapper -> Mem -> bool * Mem) :=
  OCI_OBJECT_SET_VALUE OCI_CDT_NUMERIC "OCINumberAssign" OCINumberAssign.

Definition ObjectSetDate
    (OCIDateAssign : OCI_Object -> Z -> Z -> Wrapper -> Mem -> bool * Mem) :=
  OCI_OBJECT_SET_VALUE OCI_CDT_DATETIME "OCIDateAssign" OCIDateAssign.

Definition ObjectSetLob
    (OCILobLocatorAssign : OCI_Object -> Z -> Z -> Wrapper -> Mem -> bool * Mem) :=
  OCI_OBJECT_SET_VALUE OCI_CDT_LOB "OCILobLocatorAssign" OCILobLocatorAssign.

(** *** Getters *)

(** [obj->objs[index] = x] *)
Definition set_objs (o : OCI_Object) (index : Z) (x : option Wrapper)
  : OCI_Object :=
  Object (typinf o) (handle o) (tab_ind o) (idx_ind o)
         (<[Z.to_nat index := x]> (objs o)).

(** [OCI_OBJECT_GET_VALUE(datatype, object_type, type, func)].  [func]
    builds or reuses the wrapper from the object, the index and the
    address [value] of the attribute; it yields [None] for [NULL].  The
    result holds [OCI_RETVAL], [OCI_STATUS] and the object on exit. *)
Definition OCI_OBJECT_GET_VALUE (datatype : OCI_CDT)
    (func : OCI_Object -> Z -> Z -> Mem -> option Wrapper * Mem)
    (obj : option OCI_Object) (attr : option string)
  : W (option Wrapper * bool * option OCI_Object) :=
  match obj with
  | None => check_ptr_failed "OCI_IPC_OBJECT" (None, false, obj)
  | Some o =>
      index ← ObjectGetAttrIndex obj attr (Some datatype) true;
      if decide (0 <= index) then
        '(value, ind) ← ObjectGetAttr o index;
        if decide (value = 0) then mret (None, true, obj)
        else
          v ← read_ind (tab_ind o) ind;
          if decide (OCI_IND_NULL <> v) then
            r ← with_mem (func o index value);
            mret (r, bool_decide (r <> None), Some (set_objs o index r))
          else mret (None, true, obj)
      else mret (None, false, obj)
  end.

(** [OCI_Date * ObjectGetDate(obj, attr)] *)
Definition ObjectGetDate
    (DateInit : OCI_Object -> Z -> Z -> Mem -> option Wrapper * Mem) :=
  OCI_OBJECT_GET_VALUE OCI_CDT_DATETIME DateInit.

(** [boolean ObjectGetBoolean(obj, attr)]: [OCI_RETVAL] and
    [OCI_STATUS] on exit. *)
Definition ObjectGetBoolean (obj : option OCI_Object) (attr : option string)
  : W (Z * bool) :=
  match obj, attr with
  | None, _ => check_ptr_failed "OCI_IPC_OBJECT" (0, false)
  | Some _, None => check_ptr_failed "OCI_IPC_STRING" (0, false)
  | Some o, Some _ =>
      index ← ObjectGetAttrIndex obj attr (Some OCI_CDT_BOOLEAN) true;
      if decide (0 <= index) then
        '(value, ind) ← ObjectGetAttr o index;
        if decide (value = 0) then mret (0, true)
        else
          v ← read_ind (tab_ind o) ind;
          if decide (OCI_IND_NULL <> v) then
            b ← read_mem (fun m => load_boolean m value);
            mret (b, true)
          else mret (0, true)
      else mret (0, false)
  end.

(** [const otext * ObjectGetString(obj, attr)]: [OCI_RETVAL] and
    [OCI_STATUS] on exit.  The scratch buffers [tmpbufs] are left out. *)
Definition ObjectGetString (obj : option OCI_Object) (attr : option string)
  : W (option string * bool) :=
  match obj, attr with
  | None, _ => check_ptr_failed "OCI_IPC_OBJECT" (None, false)
  | Some _, None => check_ptr_failed "OCI_IPC_STRING" (None, false)
  | Some o, Some a =>
      index ← ObjectGetAttrIndex obj attr (Some OCI_CDT_TEXT) false;
      if decide (0 <= index) then
        '(value, ind) ← ObjectGetAttr o index;
        if decide (value = 0) then mret (None, true)
        else
          v ← read_ind (tab_ind o) ind;
          if decide (OCI_IND_NULL <> v) then
            text ← read_mem (OCIStringPtr value);
            mret (text, true)
          else mret (None, true)
      else
        index ← ObjectGetAttrIndex obj attr None false;
        if decide (0 <= index) then
          '(value, ind) ← ObjectGetAttr o index;
          col ← of_option (cols (typinf o) !! Z.to_nat index);
          raw ← match col_datatype col with
                | OCI_CDT_RAW =>
                    if decide (value = 0) then mret false
                    else
                      v ← read_ind (tab_ind o) ind;
                      mret (bool_decide (OCI_IND_NULL <> v))
                | _ => mret false
                end;
          '(ok, text) ← read_mem (StringGetFromType col value raw);
          mret (if (ok : bool) then text else None, ok)
        else
          _ ← raise (ExceptionAttributeNotFound a);
          mret (None, false)
  end.

(** [boolean ObjectGetNumberInternal(obj, attr, value, flag)]; [value]
    points to a caller's variable holding [v0].  The result holds the
    return value and the variable on exit. *)
Definition ObjectGetNumberInternal (obj : option OCI_Object)
    (attr : option string) (v0 : Z) (flag : Z) : W (bool * Z) :=
  match obj, attr with
  | None, _ => check_ptr_failed "OCI_IPC_OBJECT" (false, v0)
  | Some _, None => check_ptr_failed "OCI_IPC_STRING" (false, v0)
  | Some o, Some a =>
      index ← ObjectGetAttrIndex obj attr (Some OCI_CDT_NUMERIC) false;
      if decide (0 <= index) then
        '(p, ind) ← ObjectGetAttr o index;
        if decide (p = 0) then mret (false, v0)
        else
          v ← read_ind (tab_ind o) ind;
          if decide (OCI_IND_NULL <> v) then
            col ← of_option (cols (typinf o) !! Z.to_nat index);
            read_mem (TranslateNumericValue_out p (col_subtype col) v0 flag)
          else mret (false, v0)
      else
        index ← ObjectGetAttrIndex obj attr (Some OCI_CDT_TEXT) false;
        r ← (if decide (0 <= index) then
               '(text, _) ← ObjectGetString obj attr;
               mret (NumberFromString flag text v0)
             else mret (false, v0));
        _ ← (if decide (index = -1)
             then raise (ExceptionAttributeNotFound a) else mret tt);
        mret r
  end.

(** [short ObjectGetShort(obj, attr)] *)
Definition ObjectGetShort (obj : option OCI_Object) (attr : option string)
  : W Z :=
  '(_, value) ← ObjectGetNumberInternal obj attr 0 OCI_NUM_SHORT;
  mret value.

(** Everything but the layout caches is as before. *)
Definition caches_only (w w' : World) : Prop :=
  inds w' = inds w /\ mem w' = mem w /\ raised w' = raised w /\ calls w' = calls w.

(** The null indicator of attribute [index] of [o] in the session [w]:
    the cell [obj->tab_ind[obj->idx_ind + ObjectGetIndOffset(...)]]. *)
Definition attr_ind (w : World) (o : OCI_Object) (index : Z) : option Z :=
  match ind_index_of o index w with
  | Some (k, _) =>
      match read_ind (tab_ind o) k w with
      | Some (v, _) => Some v
      | None => None
      end
  | None => None
  end.

End Accessors.

(* ===================================================================== *)
(** ** ObjectGetRealTypeInfo *)
(* ===================================================================== *)

(** The natives and the catalog [ObjectGetRealTypeInfo] calls into; each
    yields its verdict and what it stores through its out parameter.
    Addresses and handles are integers, 0 being [NULL]. *)
Class TypeRuntime := {
  MemObjectNew : bool * Z;
  OCIObjectGetTypeRef : Z -> Z -> bool;
  OCITypeByRef : Z -> bool * Z;
  ListExists : Z -> bool;
  MemHandleAlloc : bool * Z;
  OCIDescribeAny : Z -> Z -> bool;
  OCIAttrGet_param : Z -> bool * Z;
  StringGetAttribute_schema : Z -> bool * string;
  StringGetAttribute_name : Z -> bool * string;
  StringGetFullTypeName : string -> string -> string;
  TypeInfoGet : string -> OCI_TIF -> option OCI_TypeInfo
}.

Section RealTypeInfo.
Context `{TypeRuntime}.

(** [OCI_STATUS] and the log of the calls made so far. *)
Definition call_state : Type := bool * list string.

(** Modelled from the spec: [OCI_EXEC(f)] (private header), as in the
    accessors, with the guard that the uses in a row rely on: the native
    runs only while [OCI_STATUS] is true; its verdict becomes [OCI_STATUS]
    and its result is kept, else [dflt]. *)
Definition exec {A} (name : string) (f : bool * A) (dflt : A)
    (s : call_state) : A * call_state :=
  if fst s then (snd f, (fst f, snd s ++ [name])) else (dflt, s).

(** A routine called whatever [OCI_STATUS] is. *)
Definition call (name : string) (s : call_state) : call_state :=
  (fst s, snd s ++ [name]).

(** The block describing the real type when it is not in the list: the
    new [result], [None] for [NULL]. *)
Definition describe_real_type (result : OCI_TypeInfo) (tdo : Z)
    (s : call_state) : option OCI_TypeInfo * call_state :=
  let s := call "MemHandleAlloc" s in
  let descr := snd MemHandleAlloc in
  let s := (fst MemHandleAlloc, snd s) in
  let '(_, s) := exec "OCIDescribeAny" (OCIDescribeAny tdo descr, tt) tt s in
  let '(param, s) := exec "OCIAttrGet" (OCIAttrGet_param descr) 0 s in
  let '(schema_name, s) :=
    if fst s
    then let s := call "StringGetAttribute" s in
         (snd (StringGetAttribute_schema param),
          (fst (StringGetAttribute_schema param), snd s))
    else (EmptyString, s) in
  let '(object_name, s) :=
    if fst s
    then let s := call "StringGetAttribute" s in
         (snd (StringGetAttribute_name param),
          (fst (StringGetAttribute_name param), snd s))
    else (EmptyString, s) in
  let '(result, s) :=
    if fst s
    then (TypeInfoGet (StringGetFullTypeName schema_name object_name) OCI_TIF_TYPE,
          call "TypeInfoGet" s)
    else (Some result, s) in
  (result, call "MemHandleFree" s).

(** [OCI_TypeInfo * ObjectGetRealTypeInfo(typinf, object)]: the result and
    the calls made, in order; [None] when the routine dereferences the
    [NULL] that [TypeInfoGet] returned. *)
Definition ObjectGetRealTypeInfo (typinf : option OCI_TypeInfo) (object : Z)
  : option (option OCI_TypeInfo * list string) :=
  match typinf with
  | None => Some (None, [])
  | Some t =>
      if bool_decide (object <> 0) && bool_decide (ti_type t = OCI_TIF_TYPE)
         && negb (is_final t)
      then
        let s : call_state := (true, []) in
        let '(ref, s) := exec "MemObjectNew" MemObjectNew 0 s in
        let '(_, s) :=
          exec "OCIObjectGetTypeRef" (OCIObjectGetTypeRef object ref, tt) tt s in
        let '(tdo_, s) := exec "OCITypeByRef" (OCITypeByRef ref) 0 s in
        let '(result, s) :=
          if bool_decide (tdo_ <> 0) && bool_decide (tdo_ <> tdo t)
          then
            let s := call "ListExists" s in
            if ListExists tdo_ then (Some t, s)
            else describe_real_type t tdo_ s
          else (Some t, s) in
        match result with
        | None => None
        | Some r => Some (Some r, snd (call "MemObjectFree" s))
        end
      else Some (Some t, [])
  end.

End RealTypeInfo.

(* ===================================================================== *)
(** ** Well-formed descriptors *)
(* ===================================================================== *)

(** A descriptor and everything it reaches through [parent_type] and the
    nested descriptors of its columns. *)
Fixpoint subterms (t : OCI_TypeInfo) : list OCI_TypeInfo :=
  t :: match t with
       | TypeInfo _ _ _ _ p cs =>
           match p with Some q => subterms q | None => [] end ++
           flat_map (fun c => match col_typinf c with
                              | Some n => subterms n
                              | None => []
                              end) cs
       end.

(** [c] is referred to by [t] directly. *)
Definition child (t c : OCI_TypeInfo) : Prop :=
  parent_type t = Some c \/
  exists col, col ∈ cols t /\ col_typinf col = Some c.

(** [u] is reached from [t] and is not [t] itself. *)
Definition proper (t u : OCI_TypeInfo) : Prop :=
  exists c, child t c /\ u ∈ subterms c.

(** Addresses identify descriptors: two occurrences with one address are
    one descriptor (the unfolding of a pointer graph into a tree repeats a
    shared descriptor, it never aliases two). *)
Definition consistent (t : OCI_TypeInfo) : Prop :=
  forall u v, u ∈ subterms t -> v ∈ subterms t ->
    ti_addr u = ti_addr v -> u = v.

(** A subtype lists the columns of its parent first, hence has at least as
    many columns; recursively. *)
Fixpoint layout_ok (t : OCI_TypeInfo) : bool :=
  match t with
  | TypeInfo _ _ _ _ p cs =>
      match p with
      | Some q => bool_decide (nb_cols q <= Z.of_nat (length cs)) && layout_ok q
      | None => true
      end &&
      forallb (fun c => match col_typinf c with
                        | Some n => layout_ok n
                        | None => true
                        end) cs
  end.

#[global] Instance OCI_Column_eq_dec {T} `{EqDecision T} : EqDecision (OCI_Column T).
Proof. solve_decision. Defined.

(** Equality of descriptors is decidable. *)
Fixpoint OCI_TypeInfo_eq_dec (x y : OCI_TypeInfo) {struct x} : Decision (x = y).
Proof.
  refine
    (match x, y with
     | TypeInfo a1 ty1 td1 f1 p1 cs1, TypeInfo a2 ty2 td2 f2 p2 cs2 =>
         cast_if_and6 (decide (a1 = a2)) (decide (ty1 = ty2))
           (decide (td1 = td2)) (decide (f1 = f2))
           (@option_eq_dec _ OCI_TypeInfo_eq_dec p1 p2)
           (@list_eq_dec _ (@OCI_Column_eq_dec _ OCI_TypeInfo_eq_dec) cs1 cs2)
     end); abstract congruence.
Defined.
#[global] Existing Instance OCI_TypeInfo_eq_dec.

(** [consistent], computed. *)
Definition consistentb (t : OCI_TypeInfo) : bool :=
  forallb (fun u =>
    forallb (fun v =>
      if decide (ti_addr u = ti_addr v) then bool_decide (u = v) else true)
      (subterms t)) (subterms t).

(** The pair a call leaves in [*p_size] and [*p_align]. *)
Definition res (l : layout) : Z * Z := (struct_size l, align l).

(** The cache entry of [u] once [ObjectGetStructSize] has run on it from
    the store [h0]. *)
Definition final `{Platform} (h0 : gmap ptr layout) (u : OCI_TypeInfo) : layout :=
  match GetStructSize_fuel (depth u) u h0 with
  | Some (_, h') => cache_of h' u
  | None => cache_of h0 u
  end.

(* ===================================================================== *)
(** ** Invariants of the cache store *)
(* ===================================================================== *)

(** A subtype that declares columns of its own after the inherited ones:
    the case in which [ObjectGetStructSize] seeds [typinf->align] with the
    alignment of the parent. *)
Definition declares_own (t : OCI_TypeInfo) : Prop :=
  exists p, parent_type t = Some p /\ nb_cols p < nb_cols t.

Section Invariants.
Context `{Platform}.

(** The store the computation started from. *)
Variable h0 : gmap ptr layout.

(** Every descriptor in [S] still has the entry it started with, or the
    entry [ObjectGetStructSize] gives it. *)
Definition settled (S : OCI_TypeInfo -> Prop) (h : gmap ptr layout) : Prop :=
  forall u, S u -> cache_of h u = cache_of h0 u \/ cache_of h u = final h0 u.

(** From [h] to [h'] an entry is unchanged, or it has become the final
    entry of a descriptor of [S] living at that address. *)
Definition moved (S : OCI_TypeInfo -> Prop) (h h' : gmap ptr layout) : Prop :=
  forall u, cache_of h' u = cache_of h u \/
            exists v, S v /\ ti_addr v = ti_addr u /\ cache_of h' u = final h0 v.

Definition within (c : OCI_TypeInfo) : OCI_TypeInfo -> Prop :=
  fun u => u ∈ subterms c.

(** What a call [rec c] does on a settled store: it returns the final pair
    of [c], leaves [c] with its final entry, and moves entries within [c]
    only. *)
Definition summary (rec : OCI_TypeInfo -> M (Z * Z)) (c : OCI_TypeInfo) : Prop :=
  forall h, settled (within c) h ->
    exists h', rec c h = Some (res (final h0 c), h') /\
               cache_of h' c = final h0 c /\
               moved (within c) h h'.

(** The descriptor whose layout is being computed. *)
Variable t : OCI_TypeInfo.

(** While [t] is being computed every descriptor below it is settled. *)
Definition inv (h : gmap ptr layout) : Prop := settled (proper t) h.

(** Away from the address of [t], entries only move to final ones. *)
Definition outside (h h' : gmap ptr layout) : Prop :=
  forall u, ti_addr u <> ti_addr t ->
    cache_of h' u = cache_of h u \/
    exists v, proper t v /\ ti_addr v = ti_addr u /\ cache_of h' u = final h0 v.

Definition good_rec (rec : OCI_TypeInfo -> M (Z * Z)) : Prop :=
  forall c, child t c -> summary rec c.

(** One run between two points of the body: the alignment of [t] only
    grows, its [struct_size] is untouched. *)
Record prog (h h' : gmap ptr layout) : Prop := Prog {
  prog_outside : outside h h';
  prog_align : align (cache_of h t) <= align (cache_of h' t);
  prog_size : struct_size (cache_of h' t) = struct_size (cache_of h t)
}.

(** Two runs of the body at the same point, [i] being the next offset cell
    to be written: the entry of [t] in the second run is, field by field,
    that of the first run or a fixed later one ([B], [O]). *)
Record rel (Bo : option Z) (O : gmap Z Z) (i : Z)
    (ha hb : gmap ptr layout) : Prop := Rel {
  rel_inv_a : inv ha;
  rel_inv_b : inv hb;
  rel_size : struct_size (cache_of hb t) = struct_size (cache_of ha t);
  rel_align :
    match Bo with
    | Some B => align (cache_of hb t) = Z.max (align (cache_of ha t)) B
    | None => True
    end;
  rel_offs : forall j,
    offsets (cache_of hb t) !! j = offsets (cache_of ha t) !! j \/
    (~ 0 <= j < i /\ offsets (cache_of hb t) !! j = O !! j)
}.

End Invariants.

(** *** A concrete platform *)

(** Modelled from the spec: [ROUNDUP(amount, align)] rounds an amount up
    to an alignment (section 4.1); the macro itself is in the private
    header.  This is the customary mask formulation,
    [(((unsigned long)(amount) + ((align) - 1)) & ~((align) - 1))], on
    64-bit unsigned operands.  It rounds up to a multiple of a power of two
    and, as every multiple of 0 is 0, yields 0 for the alignment 0. *)
Definition ROUNDUP_mask (amount align_ : Z) : Z :=
  Z.land (size_t (size_t amount + size_t (align_ - 1)))
         (size_t (Z.lnot (size_t (align_ - 1)))).

(** LP64 with the client library's [OCINumber] (22 bytes) and [OCIDate]
    (7 bytes of fields in a 2-aligned struct), and one bit for each numeric
    subtype flag. *)
Definition lp64 : Platform := {|
  sizeof_short := 2;
  sizeof_int := 4;
  sizeof_double := 8;
  sizeof_OCINumber := 22;
  sizeof_ub1 := 1;
  sizeof_OCIDate := 8;
  sizeof_sb2 := 2;
  sizeof_boolean := 4;
  sizeof_ptr := 8;
  OCI_NUM_SHORT := 4;
  OCI_NUM_INT := 8;
  OCI_NUM_FLOAT := 32;
  OCI_NUM_DOUBLE := 64;
  ROUNDUP := ROUNDUP_mask
|}.

(** *** Sample descriptors *)

Definition col_plain (nm : string) (dt : OCI_CDT) (st : Z)
  : OCI_Column OCI_TypeInfo := Column nm dt st None.

Definition col_object (nm : string) (nt : OCI_TypeInfo)
  : OCI_Column OCI_TypeInfo := Column nm OCI_CDT_OBJECT 0 (Some nt).

(** [PERSON(ID int)], a non-final root type. *)
Definition ty_person : OCI_TypeInfo :=
  TypeInfo 1%positive OCI_TIF_TYPE 101 false None
    [col_plain "ID" OCI_CDT_NUMERIC (@OCI_NUM_INT lp64)].

(** [STUDENT UNDER PERSON], a subtype declaring methods only: its column
    list is the inherited one. *)
Definition ty_student : OCI_TypeInfo :=
  TypeInfo 2%positive OCI_TIF_TYPE 102 true (Some ty_person)
    [col_plain "ID" OCI_CDT_NUMERIC (@OCI_NUM_INT lp64)].

(** [EMPLOYEE UNDER PERSON (SALARY double)]. *)
Definition ty_employee : OCI_TypeInfo :=
  TypeInfo 3%positive OCI_TIF_TYPE 103 true (Some ty_person)
    [col_plain "ID" OCI_CDT_NUMERIC (@OCI_NUM_INT lp64);
     col_plain "SALARY" OCI_CDT_NUMERIC (@OCI_NUM_DOUBLE lp64)].

(** [INNER(X number, Y varchar)] and [OUTER(A INNER, B number)]. *)
Definition ty_inner : OCI_TypeInfo :=
  TypeInfo 4%positive OCI_TIF_TYPE 104 true None
    [col_plain "X" OCI_CDT_NUMERIC 0; col_plain "Y" OCI_CDT_TEXT 0].

Definition ty_outer : OCI_TypeInfo :=
  TypeInfo 5%positive OCI_TIF_TYPE 105 true None
    [col_object "A" ty_inner; col_plain "B" OCI_CDT_NUMERIC 0].

(** [ITEM(CODE smallint, FLAG boolean, NAME varchar, MADE date)]. *)
Definition ty_item : OCI_TypeInfo :=
  TypeInfo 6%positive OCI_TIF_TYPE 106 true None
    [col_plain "CODE" OCI_CDT_NUMERIC (@OCI_NUM_SHORT lp64);
     col_plain "FLAG" OCI_CDT_BOOLEAN 0;
     col_plain "NAME" OCI_CDT_TEXT 0;
     col_plain "MADE" OCI_CDT_DATETIME 0].

(** *** A sample session *)

(** Native memory as a map from addresses to the values stored there;
    every native succeeds but the conversions from text. *)
Definition rt_map : Runtime := {|
  Mem := gmap Z Z;
  Wrapper := Z;
  call_enter_status := true;
  load_boolean := fun m p => default 0 (m !! p);
  store_boolean := fun m p v => <[p := v]> m;
  TranslateNumericValue_in := fun v _ num _ m => (true, <[num := v]> m);
  TranslateNumericValue_out := fun p _ _ _ m => (true, default 0 (m !! p));
  NumberFromString := fun _ _ v0 => (false, v0);
  StringToStringPtr := fun _ _ m => (true, m);
  OCIStringPtr := fun _ _ => None;
  StringGetFromType := fun _ _ _ _ => (false, None)
|}.

(** An [ITEM] instance at address 4096 with its indicator array at 9:
    slot 0 is the flag of the instance, then [CODE] is null, [FLAG]
    carries the indicator -2, [NAME] and [MADE] are null. *)
Definition obj_item : OCI_Object (H0 := rt_map) :=
  Object (H0 := rt_map) ty_item 4096 9%positive 0 [None; None; None; None].

Definition w_item : World (H0 := rt_map) :=
  MkWorld (H0 := rt_map) ∅
    {[ 9%positive := [OCI_IND_NOTNULL; OCI_IND_NULL; OCI_IND_BADNULL;
                      OCI_IND_NULL; OCI_IND_NULL] ]}
    ({[ 4096 := 7; 4100 := 1 ]} : gmap Z Z) [] [].

(** A native assignment that always fails, and a wrapper builder. *)
Definition assign_fails : OCI_Object (H0 := rt_map) -> Z -> Z -> Z ->
                          gmap Z Z -> bool * gmap Z Z :=
  fun _ _ _ _ m => (false, m).

Definition init_wrapper : OCI_Object (H0 := rt_map) -> Z -> Z ->
                          gmap Z Z -> option Z * gmap Z Z :=
  fun _ _ value m => (Some value, m).

(** A catalog in which the instance at hand is a [STUDENT]. *)
Definition tr_sample : TypeRuntime := {|
  MemObjectNew := (true, 77);
  OCIObjectGetTypeRef := fun _ _ => true;
  OCITypeByRef := fun _ => (true, 102);
  ListExists := fun _ => false;
  MemHandleAlloc := (true, 5);
  OCIDescribeAny := fun _ _ => true;
  OCIAttrGet_param := fun _ => (true, 6);
  StringGetAttribute_schema := fun _ => (true, "HR"%string);
  StringGetAttribute_name := fun _ => (true, "STUDENT"%string);
  StringGetFullTypeName := fun a b => (a ++ "." ++ b)%string;
  TypeInfoGet := fun name _ =>
    if bool_decide (name = "HR.STUDENT"%string) then Some ty_student else None
|}.

(* ===================================================================== *)
(** ** The hash table ([hash.c]) *)
(* ===================================================================== *)

(** [unsigned int]: unsigned 32-bit store. *)
Definition uint (z : Z) : Z := z mod 2 ^ 32.

(** Kinds of table ([OCI_HASH_*]); [HashCreate] lets no other value in. *)
Inductive OCI_HASH : Set := OCI_HASH_STRING | OCI_HASH_INTEGER | OCI_HASH_POINTER.

#[global] Instance OCI_HASH_eq_dec : EqDecision OCI_HASH.
Proof. solve_decision. Defined.

(** [OCI_Variant], the union of [p_text], [num] and [p_void], with the
    member its writer set; [None] is a [NULL] text. *)
Inductive OCI_Variant : Type :=
| VText (p_text : option string)
| VNum (num : Z)
| VPtr (p_void : Z).

(** [OCI_HashEntry]: the key ([NULL] when its copy could not be made) and
    the chain of its values, oldest first.  The chain of the entries of a
    bucket, linked by [next], is a list as well. *)
Record OCI_HashEntry : Type := HashEntry {
  he_key : option string;
  he_values : list OCI_Variant
}.

(** [OCI_HashTable]: [items] is the array of the buckets. *)
Record OCI_HashTable : Type := HashTable {
  ht_type : OCI_HASH;
  ht_size : Z;
  ht_count : Z;
  ht_items : list (list OCI_HashEntry)
}.

(** The answers of the allocator to the calls of [MemAlloc] and [ostrdup],
    in call order; once the list is used up every call succeeds. *)
Definition next_alloc (a : list bool) : bool * list bool :=
  match a with
  | [] => (true, [])
  | b :: a' => (b, a')
  end.

Section Hash.
Context `{Runtime}.

(** [otoupper], the upper-casing of the C library, as an [int]. *)
Variable otoupper : ascii -> Z.

(** The loop of [HashCompute] over a text without a NUL inside. *)
Fixpoint hash_loop (s : string) (h : Z) : Z :=
  match s with
  | EmptyString => h
  | String c s' => hash_loop s' (uint (31 * h + otoupper c))
  end.

(** [unsigned int HashCompute(table, str)]; the remainder by a [size] of 0
    is not defined. *)
Definition HashCompute (table : option OCI_HashTable) (str : option string)
  : option Z :=
  match table, str with
  | Some t, Some s =>
      if decide (ht_size t = 0) then None
      else Some (hash_loop s 0 mod ht_size t)
  | _, _ => Some 0
  end.

(** The search loop of [HashLookup] from the entry at position [j] of the
    bucket on: the position of the first entry whose key compares equal,
    [ostrcasecmp] being handed every key on the way. *)
Fixpoint find_entry (es : list OCI_HashEntry) (key : string) (j : nat)
  : option (option nat) :=
  match es with
  | [] => Some None
  | e :: es' =>
      match he_key e with
      | None => None
      | Some k =>
          if ostrcasecmp_eq k key then Some (Some j)
          else find_entry es' key (S j)
      end
  end.

(** [table->items[i]] with a new chain. *)
Definition set_bucket (t : OCI_HashTable) (i : Z) (es : list OCI_HashEntry)
  : OCI_HashTable :=
  HashTable (ht_type t) (ht_size t) (ht_count t)
            (<[Z.to_nat i := es]> (ht_items t)).

(** [OCI_HashEntry * HashLookup(table, key, create)]: the entry found or
    made, named by its bucket and its position in the chain, the table and
    what is left of the allocator's answers.  [MemAlloc] hands back an
    address that is not [NULL] even when the allocation failed, so the
    new entry is written whatever happened: a failed allocation leaves
    defined behaviour.  So does a call that [OCI_CALL_ENTER] would start
    with a false status, which frees the entry it found while the chain
    still holds it. *)
Definition HashLookup (table : option OCI_HashTable) (key : option string)
    (create : bool) (a : list bool)
  : option (option (Z * nat) * option OCI_HashTable * list bool) :=
  match table, key with
  | Some t, Some k =>
      i ← HashCompute table key;
      if decide (i < ht_size t) then
        es ← ht_items t !! Z.to_nat i;
        found ← find_entry es k 0;
        match found with
        | Some j =>
            if call_enter_status then Some (Some (i, j), table, a) else None
        | None =>
            if create then
              let '(ok, a) := next_alloc a in
              if ok then
                let '(copied, a) := next_alloc a in
                let e := HashEntry (if copied then Some k else None) [] in
                Some (Some (i, length es), Some (set_bucket t i (es ++ [e])), a)
              else None
            else Some (None, table, a)
        end
      else Some (None, table, a)
  | _, _ => Some (None, table, a)
  end.

(** The value [HashAdd] stores: for a table of texts a copy of the text
    when there is one, else the member of the union that goes with the
    kind of the table.  A value whose member is another one is outside
    this model. *)
Definition stored_value (type : OCI_HASH) (value : OCI_Variant) (a : list bool)
  : option (OCI_Variant * list bool) :=
  match type, value with
  | OCI_HASH_STRING, VText (Some s) =>
      let '(copied, a) := next_alloc a in
      Some (VText (if copied then Some s else None), a)
  | OCI_HASH_STRING, VText None => Some (VText None, a)
  | OCI_HASH_INTEGER, VNum n => Some (VNum n, a)
  | OCI_HASH_POINTER, VPtr p => Some (VPtr p, a)
  | _, _ => None
  end.

(** A value hooked at the end of the chain of the entry at [(i, j)]. *)
Definition add_value (t : OCI_HashTable) (i : Z) (j : nat) (v : OCI_Variant)
  : option OCI_HashTable :=
  es ← ht_items t !! Z.to_nat i;
  e ← es !! j;
  Some (set_bucket t i (<[j := HashEntry (he_key e) (he_values e ++ [v])]> es)).

(** [boolean HashAdd(table, key, value, type)]. *)
Definition HashAdd (table : option OCI_HashTable) (key : option string)
    (value : OCI_Variant) (type : OCI_HASH) (a : list bool)
  : option (bool * option OCI_HashTable * list bool) :=
  match table, key with
  | Some t, Some k =>
      if decide (ht_type t <> type) then Some (false, table, a)
      else
        '(e, table, a) ← HashLookup table key true a;
        match e, table with
        | Some (i, j), Some t =>
            let '(ok, a) := next_alloc a in
            if ok then
              '(v, a) ← stored_value (ht_type t) value a;
              t ← add_value t i j v;
              Some (true, Some t, a)
            else None
        | _, _ => Some (false, table, a)
        end
  | _, _ => Some (false, table, a)
  end.

(** [OCI_HashValue * HashGetValue(table, key)]: the chain of the values of
    the key, empty for [NULL]. *)
Definition HashGetValue (table : option OCI_HashTable) (key : option string)
  : option (list OCI_Variant) :=
  match table with
  | None => Some []
  | Some t =>
      '(e, _, _) ← HashLookup table key false [];
      match e with
      | Some (i, j) =>
          es ← ht_items t !! Z.to_nat i;
          e ← es !! j;
          Some (he_values e)
      | None => Some []
      end
  end.

(** [OCI_HashEntry * HashGetEntry(table, index)]: the chain of the bucket,
    empty for [NULL]. *)
Definition HashGetEntry (table : option OCI_HashTable) (index : Z)
  : option (list OCI_HashEntry) :=
  match table with
  | None => Some []
  | Some t =>
      if decide (index < ht_size t) then
        if decide (0 <= index) then ht_items t !! Z.to_nat index else None
      else Some []
  end.

(** [const otext * HashGetString(table, key)] *)
Definition HashGetString (table : option OCI_HashTable) (key : option string)
  : option (option string) :=
  match table with
  | None => Some None
  | Some t =>
      if decide (ht_type t = OCI_HASH_STRING) then
        v ← HashGetValue table key;
        match v with
        | [] => Some None
        | VText s :: _ => Some s
        | _ :: _ => None
        end
      else Some None
  end.

(** [int HashGetInt(table, key)] *)
Definition HashGetInt (table : option OCI_HashTable) (key : option string)
  : option Z :=
  match table with
  | None => Some 0
  | Some t =>
      if decide (ht_type t = OCI_HASH_INTEGER) then
        v ← HashGetValue table key;
        match v with
        | [] => Some 0
        | VNum n :: _ => Some n
        | _ :: _ => None
        end
      else Some 0
  end.

(** [void * HashGetPointer(table, key)] *)
Definition HashGetPointer (table : option OCI_HashTable) (key : option string)
  : option Z :=
  match table with
  | None => Some 0
  | Some t =>
      if decide (ht_type t = OCI_HASH_POINTER) then
        v ← HashGetValue table key;
        match v with
        | [] => Some 0
        | VPtr p :: _ => Some p
        | _ :: _ => None
        end
      else Some 0
  end.

(** [boolean HashAddString(table, key, value)] *)
Definition HashAddString (table : option OCI_HashTable) (key : option string)
    (value : option string) (a : list bool)
  : option (bool * option OCI_HashTable * list bool) :=
  match table with
  | None => Some (false, table, a)
  | Some t =>
      if decide (ht_type t = OCI_HASH_STRING)
      then HashAdd table key (VText value) OCI_HASH_STRING a
      else Some (false, table, a)
  end.

(** [boolean HashAddInt(table, key, value)] *)
Definition HashAddInt (table : option OCI_HashTable) (key : option string)
    (value : Z) (a : list bool)
  : option (bool * option OCI_HashTable * list bool) :=
  match table with
  | None => Some (false, table, a)
  | Some t =>
      if decide (ht_type t = OCI_HASH_INTEGER)
      then HashAdd table key (VNum value) OCI_HASH_INTEGER a
      else Some (false, table, a)
  end.

(** [boolean HashAddPointer(table, key, value)] *)
Definition HashAddPointer (table : option OCI_HashTable) (key : option string)
    (value : Z) (a : list bool)
  : option (bool * option OCI_HashTable * list bool) :=
  match table with
  | None => Some (false, table, a)
  | Some t =>
      if decide (ht_type t = OCI_HASH_POINTER)
      then HashAdd table key (VPtr value) OCI_HASH_POINTER a
      else Some (false, table, a)
  end.

(** [OCI_HashTable * HashCreate(size, type)]: zeroed buckets.  A failed
    allocation is written through, as in [HashLookup]. *)
Definition HashCreate (size : Z) (type : OCI_HASH) (a : list bool)
  : option (OCI_HashTable * list bool) :=
  let '(ok, a) := next_alloc a in
  if ok then
    let '(ok, a) := next_alloc a in
    if ok then
      Some (HashTable type size 0 (replicate (Z.to_nat size) []), a)
    else None
  else None.

(** [HashGetSize] and [HashGetType] *)
Definition HashGetSize (table : option OCI_HashTable) : Z :=
  match table with Some t => ht_size t | None => 0 end.

(** A value of the kind of the table. *)
Definition variant_ok (type : OCI_HASH) (v : OCI_Variant) : Prop :=
  match type, v with
  | OCI_HASH_STRING, VText _ => True
  | OCI_HASH_INTEGER, VNum _ => True
  | OCI_HASH_POINTER, VPtr _ => True
  | _, _ => False
  end.

(** A table as [HashCreate] and [HashAdd] build it: as many buckets as
    [size] says, every key copied, every value of the kind of the table,
    every entry in the bucket of its key. *)
Definition hash_wf (t : OCI_HashTable) : Prop :=
  0 < ht_size t /\
  Z.of_nat (length (ht_items t)) = ht_size t /\
  forall i es e, ht_items t !! i = Some es -> e ∈ es ->
    exists k, he_key e = Some k /\
              HashCompute (Some t) (Some k) = Some (Z.of_nat i) /\
              forall v, v ∈ he_values e -> variant_ok (ht_type t) v.

(** Keys that [ostrcasecmp] takes for equal. *)
Definition same_key (k k' : string) : Prop := lower k = lower k'.

(** The upper-casing agrees with the comparison: letters that differ by
    case alone have one upper case. *)
Definition otoupper_folds : Prop :=
  forall c d, to_lower c = to_lower d -> otoupper c = otoupper d.

(** No entry of the table has a key that compares equal to [k]. *)
Definition key_absent (t : OCI_HashTable) (k : string) : Prop :=
  forall i es e x, ht_items t !! i = Some es -> e ∈ es ->
    he_key e = Some x -> ~ same_key x k.

End Hash.

(** [toupper] of the C locale on the 256 characters, a sample for
    [otoupper]. *)
Definition toupper_C (c : ascii) : Z :=
  let n := nat_of_ascii c in
  if (97 <=? n)%nat && (n <=? 122)%nat then Z.of_nat (n - 32) else Z.of_nat n.

(* ===================================================================== *)
(** ** Files ([file.c]): offsets *)
(* ===================================================================== *)

(** [big_uint]: unsigned 64-bit store; [ub4]: unsigned 32-bit store. *)
Definition big_uint (z : Z) : Z := z mod 2 ^ 64.
Definition ub4 (z : Z) : Z := z mod 2 ^ 32.

(** Seek modes ([OCI_SEEK_*]); [FileSeek] lets no other value in. *)
Inductive OCI_SEEK : Set := OCI_SEEK_SET | OCI_SEEK_END | OCI_SEEK_CUR.

(** [OCI_File]: the fields the offset routines use.  [offset] counts from
    1, as the client library does. *)
Record OCI_File : Type := File {
  f_handle : Z;
  f_offset : Z
}.

(** The natives of the client library behind [FileGetSize] and [FileRead]:
    each yields its verdict and what it leaves in its out cell, which held
    0, resp. [len], before.  [use_lob_ub8] tells whether the 64-bit calls
    are compiled in and enabled. *)
Class FileRuntime := {
  use_lob_ub8 : bool;
  OCILobGetLength2 : Z -> bool * Z;
  OCILobGetLength : Z -> bool * Z;
  OCILobRead2 : Z -> Z -> Z -> bool * Z;
  OCILobRead : Z -> Z -> Z -> bool * Z
}.

Section Files.
Context `{Runtime} `{FileRuntime}.

(** [big_uint FileGetSize(file)].  [OCI_EXEC] runs the native while
    [OCI_STATUS] holds. *)
Definition FileGetSize (file : option OCI_File) : Z :=
  match file with
  | None => 0
  | Some f =>
      if call_enter_status then
        if use_lob_ub8 then big_uint (snd (OCILobGetLength2 (f_handle f)))
        else big_uint (ub4 (snd (OCILobGetLength (f_handle f))))
      else 0
  end.

(** [boolean FileSeek(file, offset, mode)]: the return value and the file
    on exit. *)
Definition FileSeek (file : option OCI_File) (offset : Z) (mode : OCI_SEEK)
  : bool * option OCI_File :=
  match file with
  | None => (false, None)
  | Some f =>
      let size := FileGetSize file in
      match mode with
      | OCI_SEEK_CUR =>
          if decide (big_uint (offset + f_offset f - 1) <= size)
          then (true, Some (File (f_handle f) (big_uint (f_offset f + offset))))
          else (false, file)
      | OCI_SEEK_SET =>
          if decide (offset <= size)
          then (true, Some (File (f_handle f) (big_uint (offset + 1))))
          else (false, file)
      | OCI_SEEK_END =>
          if decide (offset <= size)
          then (true, Some (File (f_handle f) (big_uint (size - offset + 1))))
          else (false, file)
      end
  end.

(** [big_uint FileGetOffset(file)] *)
Definition FileGetOffset (file : option OCI_File) : Z :=
  match file with
  | None => 0
  | Some f => big_uint (f_offset f - 1)
  end.

(** Modelled from the spec: [OCI_CALL_CHECK_MIN(con, stmt, len, 1)] is a
    macro of the private header; as with an absent argument (section 7),
    a [len] below 1 makes the call return its neutral value.

    [unsigned int FileRead(file, buffer, len)]: the return value and the
    file on exit; the bytes go where the native puts them. *)
Definition FileRead (file : option OCI_File) (len : Z)
  : Z * option OCI_File :=
  match file with
  | None => (0, None)
  | Some f =>
      if decide (len < 1) then (0, file)
      else
        let '(ok, size_out) :=
          if use_lob_ub8
          then let '(ok, size_byte) := OCILobRead2 (f_handle f) (f_offset f) len in
               (ok, ub4 size_byte)
          else let '(ok, size_out) := OCILobRead (f_handle f) (ub4 (f_offset f)) len in
               (ok, ub4 size_out) in
        if (ok : bool)
        then (size_out, Some (File (f_handle f) (big_uint (f_offset f + size_out))))
        else (0, file)
  end.

(** The position [FileSeek] is asked for, counted from 0. *)
Definition seek_target (f : OCI_File) (offset : Z) (mode : OCI_SEEK) : Z :=
  match mode with
  | OCI_SEEK_SET => offset
  | OCI_SEEK_END => FileGetSize (Some f) - offset
  | OCI_SEEK_CUR => big_uint (FileGetOffset (Some f) + offset)
  end.

End Files.

(** A sample file of 100 bytes whose reads deliver what is asked for. *)
Definition fr_sample : FileRuntime := {|
  use_lob_ub8 := true;
  OCILobGetLength2 := fun _ => (true, 100);
  OCILobGetLength := fun _ => (true, 100);
  OCILobRead2 := fun _ _ len => (true, len);
  OCILobRead := fun _ _ len => (true, len)
|}.

(* ===================================================================== *)
(** ** Allocation bookkeeping ([memory.c]) *)
(* ===================================================================== *)

(** [OCI_MemoryBlock], the header in front of every block: [type] and
    [size] (an [unsigned int]). *)
Record OCI_MemoryBlock : Type := MemoryBlock {
  mb_type : Z;
  mb_size : Z
}.

(** What the headers out of reach fix: the size of the header, the tag
    [OCI_IPC_ORACLE] and the store into the type of the two byte counters
    of [OCILib]. *)
Class MemPlatform := {
  sizeof_OCI_MemoryBlock : Z;
  OCI_IPC_ORACLE : Z;
  as_counter : Z -> Z
}.

(** The heap of the C library as far as [memory.c] sees it: the headers of
    the live blocks by address, the two byte counters, and the calls of
    [ExceptionMemory] with their type and size. *)
Record MemState : Type := MkMemState {
  blocks : gmap Z OCI_MemoryBlock;
  mem_bytes_oci : Z;
  mem_bytes_lib : Z;
  mem_raised : list (Z * Z)
}.

(** [big_int]: signed 64-bit store. *)
Definition big_int (z : Z) : Z := (z + 2 ^ 63) mod 2 ^ 64 - 2 ^ 63.

Section Memory.
Context `{MemPlatform}.

(** [void MemUpdateBytes(type, size)]; the mutex is left out. *)
Definition MemUpdateBytes (type size : Z) (s : MemState) : MemState :=
  if decide (OCI_IPC_ORACLE = type)
  then MkMemState (blocks s) (as_counter (mem_bytes_oci s + size))
                  (mem_bytes_lib s) (mem_raised s)
  else MkMemState (blocks s) (mem_bytes_oci s)
                  (as_counter (mem_bytes_lib s + size)) (mem_raised s).

(** [ExceptionMemory(type, size, NULL, NULL)] *)
Definition ExceptionMemory (type size : Z) (s : MemState) : MemState :=
  MkMemState (blocks s) (mem_bytes_oci s) (mem_bytes_lib s)
             (mem_raised s ++ [(type, size)]).

(** [void * MemAlloc(ptr_type, block_size, block_count, zero_fill)].
    [m] is what [malloc] returns, 0 for [NULL]; the address handed back is
    computed as the machine does, also from [NULL].  [zero_fill] bears on
    the content of the block, which is not kept here. *)
Definition MemAlloc (m : Z) (ptr_type block_size block_count : Z)
    (zero_fill : bool) (s : MemState) : Z * MemState :=
  let size := size_t (sizeof_OCI_MemoryBlock + size_t (block_size * block_count)) in
  let s :=
    if decide (m <> 0) then
      let blk := MemoryBlock ptr_type (uint size) in
      MemUpdateBytes (mb_type blk) (mb_size blk)
        (MkMemState (<[m := blk]> (blocks s)) (mem_bytes_oci s)
                    (mem_bytes_lib s) (mem_raised s))
    else ExceptionMemory ptr_type size s in
  (m + sizeof_OCI_MemoryBlock, s).

(** [void MemFree(ptr_mem)]; the header of a block that is not live cannot
    be read. *)
Definition MemFree (ptr_mem : Z) (s : MemState) : option MemState :=
  if decide (ptr_mem <> 0) then
    let mem_block := ptr_mem - sizeof_OCI_MemoryBlock in
    if decide (mem_block <> 0) then
      blk ← blocks s !! mem_block;
      let s := MemUpdateBytes (mb_type blk) (big_int (0 - mb_size blk)) s in
      Some (MkMemState (delete mem_block (blocks s)) (mem_bytes_oci s)
                       (mem_bytes_lib s) (mem_raised s))
    else Some s
  else Some s.

(** [void * MemRealloc(ptr_mem, ptr_type, block_size, block_count,
    zero_fill)].  [r] is what [realloc] returns when it is called, 0 for
    [NULL]; [junk] is the header a block fresh from [realloc(NULL, _)]
    happens to hold. *)
Definition MemRealloc (r : Z) (junk : OCI_MemoryBlock)
    (ptr_mem ptr_type block_size block_count : Z) (zero_fill : bool)
    (s : MemState) : option (Z * MemState) :=
  let mem_block := if decide (ptr_mem <> 0)
                   then ptr_mem - sizeof_OCI_MemoryBlock else 0 in
  let size := size_t (sizeof_OCI_MemoryBlock + size_t (block_size * block_count)) in
  old ← (if decide (mem_block <> 0)
         then blk ← blocks s !! mem_block; Some (Some blk)
         else Some None);
  let grow := match old with
              | Some blk => bool_decide (mb_size blk < size)
              | None => true
              end in
  if grow then
    if decide (r <> 0) then
      let held := default junk old in
      let size_diff := big_int (big_int size - mb_size held) in
      let s := MkMemState (<[r := MemoryBlock ptr_type (uint size)]>
                             (delete mem_block (blocks s)))
                          (mem_bytes_oci s) (mem_bytes_lib s) (mem_raised s) in
      Some (r + sizeof_OCI_MemoryBlock, MemUpdateBytes ptr_type size_diff s)
    else if decide (ptr_mem <> 0) then
      s ← MemFree ptr_mem s;
      Some (0, ExceptionMemory ptr_type size s)
    else Some (0, s)
  else Some (if decide (mem_block <> 0)
             then mem_block + sizeof_OCI_MemoryBlock else 0, s).

(** The bytes of the live blocks, as their headers tell. *)
Definition live_bytes (s : MemState) : Z :=
  map_fold (fun _ blk acc => mb_size blk + acc) 0 (blocks s).

(** The two counters together account for the live blocks, in the
    arithmetic of the counters. *)
Definition accounted (s : MemState) : Prop :=
  as_counter (mem_bytes_oci s + mem_bytes_lib s) = as_counter (live_bytes s).

(** Every header holds an [unsigned int] size, and the counters account
    for the live blocks. *)
Definition mem_ok (s : MemState) : Prop :=
  accounted s /\
  forall m blk, blocks s !! m = Some blk -> 0 <= mb_size blk < 2 ^ 32.

(** The store into the counters is a reduction modulo their width. *)
Definition counter_modular : Prop :=
  forall x y, as_counter (as_counter x + y) = as_counter (x + y).

End Memory.

(** A sample: a header of 8 bytes, 64-bit counters. *)
Definition mp_sample : MemPlatform := {|
  sizeof_OCI_MemoryBlock := 8;
  OCI_IPC_ORACLE := 1;
  as_counter := fun z => z mod 2 ^ 64
|}.

(* ===================================================================== *)
(** ** Attribute lookup and indicator cells: what the accessors rely on *)
(* ===================================================================== *)

(** The test of the search loop of [ObjectGetAttrIndex] on one column. *)
Definition attr_matches (type : option OCI_CDT) (attr : string)
    (col : OCI_Column OCI_TypeInfo) : bool :=
  match type with
  | None => true
  | Some ty => bool_decide (col_datatype col = ty)
  end && ostrcasecmp_eq (col_name col) attr.

(** The indicator slots of a descriptor fit the [ub2] counter of
    [ObjectGetIndOffset]. *)
Definition ind_fits (t : OCI_TypeInfo) : Prop :=
  ind_ok t = true /\ 1 + flattened_count t <= 65535.

(* ===================================================================== *)
(** ** ObjectGetRaw and ObjectGetRawSize *)
(* ===================================================================== *)

Section Raw.
Context `{Platform} `{Runtime}.

(** [OCIRawSize(env, *value)] and the bytes that can be read from
    [OCIRawPtr(env, *value)], for the [OCIRaw *] stored in the attribute at
    address [value]. *)
Variable OCIRawSize : Mem -> Z -> Z.
Variable OCIRawPtr : Mem -> Z -> list Z.

(** [int ObjectGetRaw(obj, attr, buffer, len)] with a buffer of at least
    [len] bytes: [OCI_RETVAL], [OCI_STATUS] and what [memcpy] wrote at the
    start of the buffer ([None] when it is not called).  Reading past the
    bytes of the raw leaves defined behaviour. *)
Definition ObjectGetRaw (obj : option OCI_Object) (attr : option string)
    (len : Z) : W (Z * bool * option (list Z)) :=
  match obj, attr with
  | None, _ => check_ptr_failed "OCI_IPC_OBJECT" (0, false, None)
  | Some _, None => check_ptr_failed "OCI_IPC_STRING" (0, false, None)
  | Some o, Some _ =>
      index ← ObjectGetAttrIndex obj attr (Some OCI_CDT_RAW) true;
      if decide (0 <= index) then
        '(value, ind) ← ObjectGetAttr o index;
        if decide (value = 0) then mret (0, true, None)
        else
          v ← read_ind (tab_ind o) ind;
          if decide (OCI_IND_NULL <> v) then
            raw_len ← read_mem (fun m => ub4 (OCIRawSize m value));
            let len := if decide (raw_len < len) then raw_len else len in
            bytes ← read_mem (fun m => OCIRawPtr m value);
            if decide (0 <= len <= Z.of_nat (length bytes)) then
              mret (to_int len, true, Some (take (Z.to_nat len) bytes))
            else wfault
          else mret (0, true, None)
      else mret (0, false, None)
  end.

(** [unsigned int ObjectGetRawSize(obj, attr)]: [OCI_RETVAL] and
    [OCI_STATUS] on exit. *)
Definition ObjectGetRawSize (obj : option OCI_Object) (attr : option string)
  : W (Z * bool) :=
  match obj, attr with
  | None, _ => check_ptr_failed "OCI_IPC_OBJECT" (0, false)
  | Some _, None => check_ptr_failed "OCI_IPC_STRING" (0, false)
  | Some o, Some _ =>
      index ← ObjectGetAttrIndex obj attr (Some OCI_CDT_RAW) true;
      if decide (0 <= index) then
        '(value, ind) ← ObjectGetAttr o index;
        if decide (value = 0) then mret (0, true)
        else
          v ← read_ind (tab_ind o) ind;
          if decide (OCI_IND_NULL <> v) then
            raw_len ← read_mem (fun m => ub4 (OCIRawSize m value));
            mret (uint raw_len, true)
          else mret (0, true)
      else mret (0, false)
  end.

(** The size the client library reports for a raw is the number of its
    bytes. *)
Definition raw_sized : Prop :=
  forall m p, OCIRawSize m p = Z.of_nat (length (OCIRawPtr m p)) /\
              OCIRawSize m p < 2 ^ 32.

End Raw.

(* ===================================================================== *)
(** ** The layout of a type without nesting *)
(* ===================================================================== *)

(** The size and the alignment [ObjectGetAttrInfo] reports for a column
    that is not an object. *)
Definition plain_attr_info `{Platform} (c : OCI_Column OCI_TypeInfo) : Z * Z :=
  match col_datatype c with
  | OCI_CDT_NUMERIC =>
      let subtype := col_subtype c in
      if has_flag subtype OCI_NUM_SHORT then (sizeof_short, sizeof_short)
      else if has_flag subtype OCI_NUM_INT then (sizeof_int, sizeof_int)
      else if has_flag subtype OCI_NUM_FLOAT then (sizeof_double, sizeof_double)
      else if has_flag subtype OCI_NUM_DOUBLE then (sizeof_double, sizeof_double)
      else (sizeof_OCINumber, sizeof_ub1)
  | OCI_CDT_DATETIME => (sizeof_OCIDate, sizeof_sb2)
  | OCI_CDT_BOOLEAN => (sizeof_boolean, sizeof_boolean)
  | _ => (sizeof_ptr, sizeof_ptr)
  end.

(** A root type none of whose columns is an object. *)
Definition flat (t : OCI_TypeInfo) : Prop :=
  parent_type t = None /\
  forall c, c ∈ cols t -> col_datatype c <> OCI_CDT_OBJECT.

(** What the layout of [t] needs of the platform: the sizes and alignments
    of its columns are positive and at most [B], the sum stays below
    2^31, where [offsets] would wrap, and [ROUNDUP] rounds an amount up to
    the next multiple of such an alignment. *)
Definition rounds_up `{Platform} (t : OCI_TypeInfo) (B : Z) : Prop :=
  (nb_cols t + 1) * (2 * B) < 2 ^ 31 /\
  forall c, c ∈ cols t ->
    0 < fst (plain_attr_info c) <= B /\
    0 < snd (plain_attr_info c) <= B /\
    forall x, 0 <= x < 2 ^ 31 ->
      x <= ROUNDUP x (snd (plain_attr_info c)) < x + snd (plain_attr_info c) /\
      (snd (plain_attr_info c) | ROUNDUP x (snd (plain_attr_info c))).

(* ===================================================================== *)
(** ** More samples *)
(* ===================================================================== *)

(** A table of texts with four buckets, as [HashCreate] makes it. *)
Definition ht_sample : OCI_HashTable :=
  HashTable OCI_HASH_STRING 4 0 [[]; []; []; []].

(** A file at position 10. *)
Definition file_sample : OCI_File := File 1 11.

(** No block, nothing counted; and one block of 72 bytes at 4096. *)
Definition mem_empty : MemState := MkMemState ∅ 0 0 [].

Definition mem_one : MemState :=
  MkMemState (<[4096 := MemoryBlock 2 72]> ∅) 0 72 [].

(** [PHOTO(DATA raw)], an instance of it at 8192 that is not null, and the
    three bytes of its raw. *)
Definition ty_photo : OCI_TypeInfo :=
  TypeInfo 7%positive OCI_TIF_TYPE 107 true None
    [col_plain "DATA" OCI_CDT_RAW 0].

Definition obj_photo : OCI_Object (H0 := rt_map) :=
  Object (H0 := rt_map) ty_photo 8192 10%positive 0 [None].

Definition w_photo : World (H0 := rt_map) :=
  MkWorld (H0 := rt_map) ∅
    {[ 10%positive := [OCI_IND_NOTNULL; OCI_IND_NOTNULL] ]}
    (∅ : gmap Z Z) [] [].

Definition raw_size_sample : gmap Z Z -> Z -> Z := fun _ _ => 3.
Definition raw_ptr_sample : gmap Z Z -> Z -> list Z := fun _ _ => [222; 173; 190].

(* ===================================================================== *)
(** ** Tactics *)
(* ===================================================================== *)

(** Membership in a log that is known, and its refutation. *)
Ltac in_log :=
  solve [ apply (bool_decide_unpack _); vm_compute; exact I ].
Ltac not_in_log Hin :=
  solve [ exfalso; revert Hin; apply (bool_decide_eq_false_1 _);
          vm_compute; reflexivity ].


(* ===================================================================== *)
(** * Properties *)
(* ===================================================================== *)

(** ** Induction over descriptors *)

(** Structural induction reaching the parent and every nested descriptor. *)
Lemma OCI_TypeInfo_nested_ind (P : OCI_TypeInfo -> Prop) :
  (forall a ty td f p cs,
      (forall q, p = Some q -> P q) ->
      Forall (fun c => forall n, col_typinf c = Some n -> P n) cs ->
      P (TypeInfo a ty td f p cs)) ->
  forall t, P t.
Proof.
  intros step. fix IH 1. intros [a ty td f p cs]. apply step.
  - destruct p as [q|]; intros q' Hq; [|discriminate].
    injection Hq as <-. apply IH.
  - induction cs as [|c cs IHcs]; constructor; [|exact IHcs].
    destruct c as [nm dt st [n|]]; intros n' Hn; simpl in Hn; [|discriminate].
    injection Hn as <-. apply IH.
Qed.

(** ** Arithmetic of the 16-bit counter *)

Lemma ub2_idemp z : ub2 (ub2 z) = ub2 z.
Proof. unfold ub2. apply Zmod_mod. Qed.

Lemma ub2_add_r a b : ub2 (a + ub2 b) = ub2 (a + b).
Proof. unfold ub2. apply Zplus_mod_idemp_r. Qed.

Lemma ub2_add_l a b : ub2 (ub2 a + b) = ub2 (a + b).
Proof. unfold ub2. apply Zplus_mod_idemp_l. Qed.

Lemma ub2_small z : 0 <= z < 65536 -> ub2 z = z.
Proof. unfold ub2. intros H. apply Z.mod_small. exact H. Qed.

(** ** ObjectGetIndOffset *)

Lemma IndOffset_unfold t index :
  IndOffset t index =
  if decide (65535 < index) then None
  else IndOffset_loop (fun nt => IndOffset nt (nb_cols nt)) (cols t)
         (Z.to_nat index) 1.
Proof. destruct t; reflexivity. Qed.

Lemma flattened_count_unfold t :
  flattened_count t = foldr Z.add 0 (map col_slots (cols t)).
Proof. destruct t; reflexivity. Qed.

Lemma flattened_count_spec t :
  flattened_count t = IndicatorOffset_spec t (length (cols t)).
Proof.
  unfold IndicatorOffset_spec. rewrite firstn_all. apply flattened_count_unfold.
Qed.

Lemma ind_ok_unfold t :
  ind_ok t =
  bool_decide (nb_cols t <= 65535) &&
  forallb (fun c => match col_datatype c with
                    | OCI_CDT_OBJECT =>
                        match col_typinf c with
                        | Some nt => ind_ok nt
                        | None => false
                        end
                    | _ => true
                    end) (cols t).
Proof. destruct t; reflexivity. Qed.

(** The loop adds the slots of the columns it walks, modulo 2^16. *)
Lemma IndOffset_loop_sum (rec : OCI_TypeInfo -> option Z) cs :
  Forall (fun c => col_datatype c = OCI_CDT_OBJECT ->
                   exists nt, col_typinf c = Some nt /\
                              rec nt = Some (ub2 (1 + flattened_count nt))) cs ->
  forall n j, (n <= length cs)%nat -> ub2 j = j ->
    IndOffset_loop rec cs n j =
    Some (ub2 (j + foldr Z.add 0 (map col_slots (take n cs)))).
Proof.
  induction 1 as [|c cs Hc _ IH]; intros n j Hn Hj.
  - destruct n; [|simpl in Hn; lia]. simpl. rewrite Z.add_0_r, Hj. reflexivity.
  - destruct n as [|n]; simpl.
    + rewrite Z.add_0_r, Hj. reflexivity.
    + simpl in Hn. unfold col_slots at 1.
      destruct (col_datatype c) eqn:Hdt;
        try (rewrite IH by (try apply ub2_idemp; lia);
             rewrite ub2_add_l; f_equal; f_equal; lia).
      destruct (Hc eq_refl) as (nt & -> & ->).
      rewrite IH by (try apply ub2_idemp; lia).
      rewrite ub2_add_l, (Z.add_comm j), <- Z.add_assoc, ub2_add_l.
      f_equal. f_equal. lia.
Qed.

(** On a well-formed descriptor the code returns one more than the count of
    the specification, in 16 bits. *)
Lemma IndOffset_spec_rel t :
  ind_ok t = true ->
  forall index, 0 <= index <= nb_cols t ->
    IndOffset t index = Some (ub2 (1 + IndicatorOffset_spec t (Z.to_nat index))).
Proof.
  induction t as [a ty td f p cs _ IHcs] using OCI_TypeInfo_nested_ind.
  intros Hok index Hidx. rewrite ind_ok_unfold in Hok.
  apply andb_true_iff in Hok as [Hn Hall]. apply bool_decide_eq_true in Hn.
  rewrite IndOffset_unfold. unfold nb_cols in *. simpl in *.
  rewrite decide_False by lia.
  unfold IndicatorOffset_spec. simpl.
  apply IndOffset_loop_sum; [|lia|reflexivity].
  rewrite forallb_forall in Hall.
  apply Forall_forall. intros c Hc Hdt.
  rewrite Forall_forall in IHcs.
  specialize (Hall c). rewrite Hdt in Hall.
  destruct (col_typinf c) as [nt|] eqn:Hnt.
  - exists nt. split; [reflexivity|].
    assert (Hoknt : ind_ok nt = true) by (apply Hall, list_elem_of_In, Hc).
    rewrite (IHcs c Hc nt Hnt Hoknt (Z.of_nat (length (cols nt)))) by lia.
    rewrite Nat2Z.id, <- flattened_count_spec. reflexivity.
  - exfalso. assert (false = true) by (apply Hall, list_elem_of_In, Hc). discriminate.
Qed.

(** ** Descriptors: subterms, depth, consistency *)

Lemma subterms_unfold t :
  subterms t =
  t :: (match parent_type t with Some q => subterms q | None => [] end ++
        flat_map (fun c => match col_typinf c with
                           | Some n => subterms n
                           | None => []
                           end) (cols t)).
Proof. destruct t; reflexivity. Qed.

Lemma depth_unfold t :
  depth t =
  S (Nat.max (match parent_type t with Some q => depth q | None => 0%nat end)
       (list_max (map (fun c => match col_typinf c with
                                | Some n => depth n
                                | None => 0%nat
                                end) (cols t)))).
Proof. destruct t; reflexivity. Qed.

Lemma layout_ok_unfold t :
  layout_ok t =
  match parent_type t with
  | Some q => bool_decide (nb_cols q <= nb_cols t) && layout_ok q
  | None => true
  end &&
  forallb (fun c => match col_typinf c with
                    | Some n => layout_ok n
                    | None => true
                    end) (cols t).
Proof. destruct t; reflexivity. Qed.

Lemma subterms_self t : t ∈ subterms t.
Proof. rewrite subterms_unfold. apply list_elem_of_here. Qed.

Lemma subterms_inv t u : u ∈ subterms t <-> u = t \/ proper t u.
Proof.
  rewrite subterms_unfold, elem_of_cons, elem_of_app.
  unfold proper, child. split.
  - intros [->|[Hp|Hc]]; [left; reflexivity| |].
    + right. destruct (parent_type t) as [q|]; [|inversion Hp].
      exists q. split; [left; reflexivity|exact Hp].
    + right. apply list_elem_of_In, in_flat_map in Hc as (c & Hc & Hu).
      destruct (col_typinf c) as [n|] eqn:Hn; [|inversion Hu].
      exists n. split; [|apply list_elem_of_In, Hu].
      right. exists c. split; [apply list_elem_of_In, Hc|exact Hn].
  - intros [->|(c & [Hp|(col & Hcol & Hn)] & Hu)]; [left; reflexivity| |].
    + right. left. rewrite Hp. exact Hu.
    + right. right. apply list_elem_of_In, in_flat_map. exists col.
      split; [apply list_elem_of_In, Hcol|]. rewrite Hn.
      apply list_elem_of_In, Hu.
Qed.

Lemma list_max_In (l : list nat) x : In x l -> (x <= list_max l)%nat.
Proof.
  induction l as [|y l IH]; simpl; [intros []|].
  intros [->|Hx]; [lia|]. specialize (IH Hx). lia.
Qed.

Lemma child_depth t c : child t c -> (depth c < depth t)%nat.
Proof.
  rewrite (depth_unfold t). intros [Hp|(col & Hcol & Hn)].
  - rewrite Hp. lia.
  - assert (depth c <= list_max (map (fun c => match col_typinf c with
                                | Some n => depth n
                                | None => 0%nat
                                end) (cols t)))%nat; [|lia].
    apply list_max_In, in_map_iff. exists col. rewrite Hn.
    split; [reflexivity|apply list_elem_of_In, Hcol].
Qed.

Lemma subterms_depth t : forall u, u ∈ subterms t -> (depth u <= depth t)%nat.
Proof.
  remember (depth t) as n eqn:Hn. assert (Hle : (depth t <= n)%nat) by lia.
  clear Hn. revert t Hle.
  induction n as [|n IH]; intros t Hle u Hu.
  - rewrite depth_unfold in Hle. lia.
  - apply subterms_inv in Hu as [->|(c & Hc & Hu)]; [exact Hle|].
    pose proof (child_depth _ _ Hc).
    specialize (IH c ltac:(lia) u Hu). lia.
Qed.

Lemma proper_depth t u : proper t u -> (depth u < depth t)%nat.
Proof.
  intros (c & Hc & Hu). pose proof (child_depth _ _ Hc).
  pose proof (subterms_depth _ _ Hu). lia.
Qed.

Lemma proper_subterms t u : proper t u -> u ∈ subterms t.
Proof. intros Hu. apply subterms_inv. right. exact Hu. Qed.

Lemma child_subterms t c u : child t c -> u ∈ subterms c -> u ∈ subterms t.
Proof. intros Hc Hu. apply proper_subterms. exists c. split; assumption. Qed.

Lemma consistent_child t c : consistent t -> child t c -> consistent c.
Proof.
  intros Ht Hc u v Hu Hv. apply Ht; eapply child_subterms; eassumption.
Qed.

(** No descriptor reached from [t] shares the address of [t]. *)
Lemma proper_addr t u : consistent t -> proper t u -> ti_addr u <> ti_addr t.
Proof.
  intros Ht Hu Heq. pose proof (proper_depth _ _ Hu) as Hd.
  rewrite (Ht u t (proper_subterms _ _ Hu) (subterms_self t) Heq) in Hd. lia.
Qed.

Lemma layout_ok_child t c : layout_ok t = true -> child t c -> layout_ok c = true.
Proof.
  rewrite layout_ok_unfold. intros Hok [Hp|(col & Hcol & Hn)].
  - rewrite Hp in Hok. apply andb_true_iff in Hok as [Hok _].
    apply andb_true_iff in Hok as [_ Hok]. exact Hok.
  - apply andb_true_iff in Hok as [_ Hok]. rewrite forallb_forall in Hok.
    specialize (Hok col ltac:(apply list_elem_of_In, Hcol)).
    rewrite Hn in Hok. exact Hok.
Qed.

Lemma layout_ok_parent t p :
  layout_ok t = true -> parent_type t = Some p -> nb_cols p <= nb_cols t.
Proof.
  rewrite layout_ok_unfold. intros Hok Hp. rewrite Hp in Hok.
  apply andb_true_iff in Hok as [Hok _].
  apply andb_true_iff in Hok as [Hok _].
  apply bool_decide_eq_true in Hok. exact Hok.
Qed.

Lemma consistentb_sound t : consistentb t = true -> consistent t.
Proof.
  unfold consistentb. rewrite forallb_forall. intros Hall u v Hu Hv Heq.
  specialize (Hall u ltac:(apply list_elem_of_In, Hu)).
  rewrite forallb_forall in Hall.
  specialize (Hall v ltac:(apply list_elem_of_In, Hv)).
  rewrite decide_True in Hall by exact Heq.
  apply bool_decide_eq_true in Hall. exact Hall.
Qed.

(** ** The store monad *)

Lemma bind_run {A B} (m : M A) (f : A -> M B) h x h1 :
  m h = Some (x, h1) -> (m ≫= f) h = f x h1.
Proof. intros Hm. unfold mbind, M_bind. rewrite Hm. reflexivity. Qed.

Lemma bind_fault {A B} (m : M A) (f : A -> M B) h :
  m h = None -> (m ≫= f) h = None.
Proof. intros Hm. unfold mbind, M_bind. rewrite Hm. reflexivity. Qed.

Lemma cache_of_insert_eq h t l : cache_of (<[ti_addr t := l]> h) t = l.
Proof. unfold cache_of. rewrite lookup_insert_eq. reflexivity. Qed.

Lemma cache_of_insert_ne h t u l :
  ti_addr u <> ti_addr t -> cache_of (<[ti_addr t := l]> h) u = cache_of h u.
Proof. intros Hne. unfold cache_of. rewrite lookup_insert_ne by congruence. reflexivity. Qed.

Lemma cache_of_addr h u v : ti_addr u = ti_addr v -> cache_of h u = cache_of h v.
Proof. intros Heq. unfold cache_of. rewrite Heq. reflexivity. Qed.

Lemma set_align_run t v h :
  set_align t v h =
  Some (tt, <[ti_addr t := Layout (struct_size (cache_of h t)) v
                                   (offsets (cache_of h t))]> h).
Proof. reflexivity. Qed.

Lemma set_struct_size_run t v h :
  set_struct_size t v h =
  Some (tt, <[ti_addr t := Layout v (align (cache_of h t))
                                   (offsets (cache_of h t))]> h).
Proof. reflexivity. Qed.

Lemma set_offset_run t i v h :
  0 <= i < nb_cols t ->
  set_offset t i v h =
  Some (tt, <[ti_addr t := Layout (struct_size (cache_of h t))
                                   (align (cache_of h t))
                                   (<[i := v]> (offsets (cache_of h t)))]> h).
Proof. intros Hi. unfold set_offset. rewrite decide_True by exact Hi. reflexivity. Qed.

(** ** Stability of the layout computation *)

Lemma layout_eta e : Layout (struct_size e) (align e) (offsets e) = e.
Proof. destruct e; reflexivity. Qed.

Section Stability.
Context `{Platform}.
Variable h0 : gmap ptr layout.
Variable t : OCI_TypeInfo.
Hypothesis Hcons : consistent t.

#[local] Abbreviation inv := (inv h0 t).
#[local] Abbreviation outside := (outside h0 t).
#[local] Abbreviation good_rec := (good_rec h0 t).
#[local] Abbreviation prog := (prog h0 t).
#[local] Abbreviation rel := (rel h0 t).

Lemma outside_refl h : outside h h.
Proof. intros u _. left. reflexivity. Qed.

Lemma outside_trans h1 h2 h3 : outside h1 h2 -> outside h2 h3 -> outside h1 h3.
Proof.
  intros H12 H23 u Hu.
  destruct (H23 u Hu) as [Heq|Hfin]; [|right; exact Hfin].
  rewrite Heq. apply H12, Hu.
Qed.

Lemma prog_refl h : prog h h.
Proof. split; [apply outside_refl|lia|reflexivity]. Qed.

Lemma prog_trans h1 h2 h3 : prog h1 h2 -> prog h2 h3 -> prog h1 h3.
Proof.
  intros [O1 A1 S1] [O2 A2 S2]. split.
  - eapply outside_trans; eassumption.
  - lia.
  - congruence.
Qed.

(** A store operation on the entry of [t] alone. *)
Lemma inv_insert h l : inv h -> inv (<[ti_addr t := l]> h).
Proof.
  intros Hinv u Hu.
  rewrite cache_of_insert_ne by (apply proper_addr; assumption).
  apply Hinv, Hu.
Qed.

Lemma outside_insert h l : outside h (<[ti_addr t := l]> h).
Proof. intros u Hu. left. apply cache_of_insert_ne, Hu. Qed.

Lemma inv_outside h h' : inv h -> outside h h' -> inv h'.
Proof.
  intros Hinv Hout u Hu.
  destruct (Hout u (proper_addr _ _ Hcons Hu)) as [->|(v & Hv & Hvu & ->)].
  - apply Hinv, Hu.
  - right. f_equal. apply Hcons; auto using proper_subterms.
Qed.

(** A nested call, seen from the computation of [t]. *)
Lemma rec_step rec c h :
  good_rec rec -> child t c -> inv h ->
  exists h', rec c h = Some (res (final h0 c), h') /\
             inv h' /\ outside h h' /\
             cache_of h' t = cache_of h t /\
             cache_of h' c = final h0 c.
Proof.
  intros Hrec Hc Hinv.
  destruct (Hrec c Hc h) as (h' & Hrun & Hfin & Hmov).
  { intros u Hu. apply Hinv. exists c. split; assumption. }
  assert (Hout : outside h h').
  { intros u _. destruct (Hmov u) as [Heq|(v & Hv & Hvu & Heq)]; [left; exact Heq|].
    right. exists v. split; [exists c; split; assumption|]. split; assumption. }
  exists h'. split; [exact Hrun|]. split; [eapply inv_outside; eassumption|].
  split; [exact Hout|]. split; [|exact Hfin].
  destruct (Hmov t) as [Heq|(v & Hv & Hvt & _)]; [exact Heq|].
  exfalso. eapply (proper_addr t v); [exact Hcons| |exact Hvt].
  exists c. split; assumption.
Qed.

(** [ObjectGetAttrInfo] in full: its results do not depend on the store,
    and it touches the entry of [t] through [align] alone. *)
Lemma attr_spec idx sz al :
  0 <= idx ->
  exists (b : bool) (sz' al' : Z), forall rec h,
    good_rec rec -> inv h ->
    exists h', ObjectGetAttrInfo rec t idx sz al h = Some ((b, sz', al'), h') /\
      inv h' /\ outside h h' /\
      cache_of h' t =
        Layout (struct_size (cache_of h t))
               (if b then Z.max (align (cache_of h t)) al' else align (cache_of h t))
               (offsets (cache_of h t)).
Proof.
  intros Hidx. unfold ObjectGetAttrInfo.
  destruct (decide (nb_cols t <= idx)) as [Hge|Hlt].
  { exists false, 0, al. intros rec h _ Hinv. exists h.
    split; [reflexivity|]. split; [exact Hinv|]. split; [apply outside_refl|].
    symmetry. apply layout_eta. }
  destruct (decide (idx < 0)) as [Hneg|_]; [lia|].
  destruct (cols t !! Z.to_nat idx) as [c|] eqn:Hc.
  2:{ apply lookup_ge_None in Hc. unfold nb_cols in Hlt. lia. }
  (* the align update that closes every case *)
  assert (Hupd : forall sz' al' h1 h,
    inv h1 -> outside h h1 -> cache_of h1 t = cache_of h t ->
    exists h',
      ((l ← get_layout t;
        _ ← (if decide (align l < al') then set_align t al' else mret tt);
        mret (true, sz', al')) : M (bool * Z * Z)) h1 = Some ((true, sz', al'), h') /\
      inv h' /\ outside h h' /\
      cache_of h' t =
        Layout (struct_size (cache_of h t)) (Z.max (align (cache_of h t)) al')
               (offsets (cache_of h t))).
  { intros sz' al' h1 h Hinv Hout Heq.
    unfold mbind, M_bind, get_layout. rewrite Heq.
    destruct (decide (align (cache_of h t) < al')) as [Hlt'|Hge'].
    - rewrite set_align_run. eexists. split; [reflexivity|].
      split; [apply inv_insert, Hinv|].
      split; [eapply outside_trans; [exact Hout|apply outside_insert]|].
      rewrite cache_of_insert_eq, Heq, Z.max_r by lia. reflexivity.
    - exists h1. split; [reflexivity|]. split; [exact Hinv|].
      split; [exact Hout|]. rewrite Heq, Z.max_l by lia.
      symmetry. apply layout_eta. }
  assert (Hplain : forall sz' al',
    exists (b : bool) (sz'' al'' : Z), forall (rec : OCI_TypeInfo -> M (Z * Z)) h,
      good_rec rec -> inv h ->
      exists h',
        (('(sz1, al1) ← (mret (sz', al') : M (Z * Z));
          l ← get_layout t;
          _ ← (if decide (align l < al1) then set_align t al1 else mret tt);
          mret (true, sz1, al1)) : M (bool * Z * Z)) h = Some ((b, sz'', al''), h') /\
        inv h' /\ outside h h' /\
        cache_of h' t =
          Layout (struct_size (cache_of h t))
                 (if b then Z.max (align (cache_of h t)) al'' else align (cache_of h t))
                 (offsets (cache_of h t))).
  { intros sz' al'. exists true, sz', al'. intros rec h _ Hinv.
    destruct (Hupd sz' al' h h Hinv (outside_refl h) eq_refl) as (h' & Hrun & Hrest).
    exists h'. split; [exact Hrun|exact Hrest]. }
  destruct (col_datatype c) eqn:Hdt; try apply Hplain.
  - (* numeric *)
    destruct (has_flag (col_subtype c) OCI_NUM_SHORT); [apply Hplain|].
    destruct (has_flag (col_subtype c) OCI_NUM_INT); [apply Hplain|].
    destruct (has_flag (col_subtype c) OCI_NUM_FLOAT); [apply Hplain|].
    destruct (has_flag (col_subtype c) OCI_NUM_DOUBLE); apply Hplain.
  - (* object *)
    destruct (col_typinf c) as [nt|] eqn:Hnt; [|apply Hplain].
    exists true, (struct_size (final h0 nt)), (align (final h0 nt)).
    intros rec h Hrec Hinv.
    assert (Hchild : child t nt).
    { right. exists c. split; [|exact Hnt]. eapply list_elem_of_lookup_2, Hc. }
    destruct (rec_step rec nt h Hrec Hchild Hinv)
      as (h1 & Hrun & Hinv1 & Hout1 & Heq1 & _).
    destruct (Hupd (struct_size (final h0 nt)) (align (final h0 nt)) h1 h
                Hinv1 Hout1 Heq1) as (h' & Hrun' & Hrest).
    exists h'. split; [|exact Hrest].
    rewrite (bind_run _ _ _ _ _ Hrun). exact Hrun'.
Qed.

(** *** Two runs side by side *)

Lemma prog_insert_offsets h o :
  prog h (<[ti_addr t := Layout (struct_size (cache_of h t))
                               (align (cache_of h t)) o]> h).
Proof.
  split; [apply outside_insert| |]; rewrite cache_of_insert_eq; simpl; lia.
Qed.

Lemma set_offset_rel Bo O i v ha hb :
  rel Bo O i ha hb -> 0 <= i < nb_cols t ->
  exists ha' hb',
    set_offset t i v ha = Some (tt, ha') /\
    set_offset t i v hb = Some (tt, hb') /\
    rel Bo O (i + 1) ha' hb' /\ prog ha ha' /\ prog hb hb'.
Proof.
  intros [Ia Ib Hs Ha Ho] Hi.
  rewrite !set_offset_run by exact Hi.
  eexists _, _. split; [reflexivity|]. split; [reflexivity|].
  split; [|split; apply prog_insert_offsets].
  split; try (apply inv_insert; assumption);
    rewrite !cache_of_insert_eq; simpl; try assumption.
  intros j. destruct (decide (j = i)) as [->|Hne].
  - left. rewrite !lookup_insert_eq. reflexivity.
  - rewrite !lookup_insert_ne by congruence.
    destruct (Ho j) as [Heq|[Hout Heq]]; [left; exact Heq|].
    right. split; [lia|exact Heq].
Qed.

Lemma attr_rel Bo O i idx sz al rec_a rec_b ha hb :
  0 <= idx -> good_rec rec_a -> good_rec rec_b -> rel Bo O i ha hb ->
  exists r ha' hb',
    ObjectGetAttrInfo rec_a t idx sz al ha = Some (r, ha') /\
    ObjectGetAttrInfo rec_b t idx sz al hb = Some (r, hb') /\
    rel Bo O i ha' hb' /\ prog ha ha' /\ prog hb hb'.
Proof.
  intros Hidx Hra Hrb [Ia Ib Hs Ha Ho].
  destruct (attr_spec idx sz al Hidx) as (b & sz' & al' & Hspec).
  destruct (Hspec rec_a ha Hra Ia) as (ha' & Hruna & Ia' & Oa & Ea).
  destruct (Hspec rec_b hb Hrb Ib) as (hb' & Hrunb & Ib' & Ob & Eb).
  exists (b, sz', al'), ha', hb'.
  split; [exact Hruna|]. split; [exact Hrunb|].
  split; [|split; split; try assumption; rewrite ?Ea, ?Eb; simpl;
                  try reflexivity; destruct b; lia].
  split; try assumption; rewrite Ea, Eb; simpl; try assumption.
  destruct Bo as [B|]; [|exact I]. destruct b; lia.
Qed.

Section Loops.
Variables rec_a rec_b : OCI_TypeInfo -> M (Z * Z).
Hypothesis Hra : good_rec rec_a.
Hypothesis Hrb : good_rec rec_b.
Variable Bo : option Z.
Variable O : gmap Z Z.

Lemma layout_loop_rel n : forall i size size1 size2 al ha hb,
  0 <= i -> i + Z.of_nat n <= nb_cols t -> rel Bo O i ha hb ->
  exists r ha' hb',
    layout_loop rec_a t n i size size1 size2 al ha = Some (r, ha') /\
    layout_loop rec_b t n i size size1 size2 al hb = Some (r, hb') /\
    rel Bo O (i + Z.of_nat n) ha' hb' /\ prog ha ha' /\ prog hb hb'.
Proof.
  induction n as [|n IH]; intros i size size1 size2 al ha hb Hi Hn Hrel.
  { exists (size, size2), ha, hb. split; [reflexivity|]. split; [reflexivity|].
    rewrite Z.add_0_r. split; [exact Hrel|split; apply prog_refl]. }
  cbn [layout_loop].
  (* first statement of the body: both branches give the same pair *)
  assert (Hfirst : exists p ha1 hb1,
    (if decide (0 < i)
     then _ ← set_offset t i (to_int size); mret (size2, al)
     else '(_, s1, a) ← ObjectGetAttrInfo rec_a t i size1 al;
          _ ← set_offset t i 0; mret (s1, a)) ha = Some (p, ha1) /\
    (if decide (0 < i)
     then _ ← set_offset t i (to_int size); mret (size2, al)
     else '(_, s1, a) ← ObjectGetAttrInfo rec_b t i size1 al;
          _ ← set_offset t i 0; mret (s1, a)) hb = Some (p, hb1) /\
    rel Bo O (i + 1) ha1 hb1 /\ prog ha ha1 /\ prog hb hb1).
  { destruct (decide (0 < i)) as [Hpos|Hzero].
    - destruct (set_offset_rel Bo O i (to_int size) ha hb Hrel ltac:(lia))
        as (ha1 & hb1 & Ra & Rb & Hrel1 & Pa & Pb).
      exists (size2, al), ha1, hb1.
      rewrite (bind_run _ _ _ _ _ Ra), (bind_run _ _ _ _ _ Rb).
      split; [reflexivity|]. split; [reflexivity|].
      split; [exact Hrel1|]. split; assumption.
    - destruct (attr_rel Bo O i i size1 al rec_a rec_b ha hb Hi Hra Hrb Hrel)
        as ([[b s1] a] & ha1 & hb1 & Ra & Rb & Hrel1 & Pa & Pb).
      destruct (set_offset_rel Bo O i 0 ha1 hb1 Hrel1 ltac:(lia))
        as (ha2 & hb2 & Ra2 & Rb2 & Hrel2 & Pa2 & Pb2).
      exists (s1, a), ha2, hb2.
      rewrite (bind_run _ _ _ _ _ Ra), (bind_run _ _ _ _ _ Rb). cbn beta iota.
      rewrite (bind_run _ _ _ _ _ Ra2), (bind_run _ _ _ _ _ Rb2).
      split; [reflexivity|]. split; [reflexivity|]. split; [exact Hrel2|].
      split; eapply prog_trans; eassumption. }
  destruct Hfirst as ([s1 a1] & ha1 & hb1 & Ra1 & Rb1 & Hrel1 & Pa1 & Pb1).
  rewrite (bind_run _ _ _ _ _ Ra1), (bind_run _ _ _ _ _ Rb1). cbn beta iota.
  destruct (attr_rel Bo O (i + 1) (i + 1) size2 a1 rec_a rec_b ha1 hb1
              ltac:(lia) Hra Hrb Hrel1)
    as ([[b s2] a2] & ha2 & hb2 & Ra2 & Rb2 & Hrel2 & Pa2 & Pb2).
  rewrite (bind_run _ _ _ _ _ Ra2), (bind_run _ _ _ _ _ Rb2). cbn beta iota.
  destruct (IH (i + 1) (size_t (ROUNDUP (size_t (size + s1)) a2)) s1 s2 a2
              ha2 hb2 ltac:(lia) ltac:(lia) Hrel2)
    as (r & ha3 & hb3 & Ra3 & Rb3 & Hrel3 & Pa3 & Pb3).
  exists r, ha3, hb3. split; [exact Ra3|]. split; [exact Rb3|].
  split; [replace (i + Z.of_nat (S n)) with (i + 1 + Z.of_nat n) by lia;
          exact Hrel3|].
  split; eapply prog_trans; try eassumption; eapply prog_trans; eassumption.
Qed.

Lemma copy_offsets_rel p n : forall i ha hb,
  ti_addr p <> ti_addr t -> cache_of ha p = cache_of hb p ->
  0 <= i -> i + Z.of_nat n <= nb_cols t -> rel Bo O i ha hb ->
  exists ha' hb',
    copy_offsets t p n i ha = Some (tt, ha') /\
    copy_offsets t p n i hb = Some (tt, hb') /\
    rel Bo O (i + Z.of_nat n) ha' hb' /\ prog ha ha' /\ prog hb hb' /\
    cache_of ha' p = cache_of ha p /\ cache_of hb' p = cache_of hb p.
Proof.
  induction n as [|n IH]; intros i ha hb Hp Heq Hi Hn Hrel.
  { exists ha, hb. split; [reflexivity|]. split; [reflexivity|].
    rewrite Z.add_0_r. split; [exact Hrel|].
    split; [apply prog_refl|]. split; [apply prog_refl|]. split; reflexivity. }
  cbn [copy_offsets]. unfold mbind at 1 3, M_bind, get_layout. rewrite <- Heq.
  pose proof (set_offset_run t i (offset_at (cache_of ha p) i) ha ltac:(lia)) as Ra.
  pose proof (set_offset_run t i (offset_at (cache_of ha p) i) hb ltac:(lia)) as Rb.
  destruct (set_offset_rel Bo O i (offset_at (cache_of ha p) i) ha hb Hrel
              ltac:(lia)) as (ha1 & hb1 & Ra1 & Rb1 & Hrel1 & Pa1 & Pb1).
  rewrite (bind_run _ _ _ _ _ Ra1), (bind_run _ _ _ _ _ Rb1).
  assert (Ea : cache_of ha1 p = cache_of ha p).
  { rewrite Ra in Ra1. injection Ra1 as <-. apply cache_of_insert_ne, Hp. }
  assert (Eb : cache_of hb1 p = cache_of hb p).
  { rewrite Rb in Rb1. injection Rb1 as <-. apply cache_of_insert_ne, Hp. }
  destruct (IH (i + 1) ha1 hb1 Hp ltac:(congruence) ltac:(lia) ltac:(lia) Hrel1)
    as (ha2 & hb2 & Ra2 & Rb2 & Hrel2 & Pa2 & Pb2 & Ea2 & Eb2).
  exists ha2, hb2. split; [exact Ra2|]. split; [exact Rb2|].
  split; [replace (i + Z.of_nat (S n)) with (i + 1 + Z.of_nat n) by lia;
          exact Hrel2|].
  split; [eapply prog_trans; eassumption|].
  split; [eapply prog_trans; eassumption|]. split; congruence.
Qed.

End Loops.

Section Body.
Variables rec_a rec_b : OCI_TypeInfo -> M (Z * Z).
Hypothesis Hra : good_rec rec_a.
Hypothesis Hrb : good_rec rec_b.
Variable O : gmap Z Z.

(** From the main loop to the store of [typinf->struct_size]. *)
Lemma finish_rel B i size size2 al ha hb :
  0 <= i <= nb_cols t -> rel (Some B) O i ha hb ->
  exists ha' hb',
    GetStructSize_finish rec_a t i size size2 al ha = Some (tt, ha') /\
    GetStructSize_finish rec_b t i size size2 al hb = Some (tt, hb') /\
    outside ha ha' /\ outside hb hb' /\
    align (cache_of ha t) <= align (cache_of ha' t) /\
    (B <= align (cache_of ha' t) -> O = offsets (cache_of ha' t) ->
     cache_of hb' t = cache_of ha' t).
Proof.
  intros Hi Hrel. unfold GetStructSize_finish.
  destruct (layout_loop_rel rec_a rec_b Hra Hrb (Some B) O
              (Z.to_nat (nb_cols t - i)) i size 0 size2 al
              ha hb ltac:(lia) ltac:(lia) Hrel)
    as ([sz sz2] & ha1 & hb1 & Ra & Rb & [Ia Ib Hs Ha Ho] & [Oa Aa Sa] & [Ob Ab Sb]).
  rewrite (bind_run _ _ _ _ _ Ra), (bind_run _ _ _ _ _ Rb). cbn beta iota.
  unfold mbind, M_bind, get_layout. rewrite !set_struct_size_run.
  eexists _, _. split; [reflexivity|]. split; [reflexivity|].
  split; [eapply outside_trans; [exact Oa|apply outside_insert]|].
  split; [eapply outside_trans; [exact Ob|apply outside_insert]|].
  rewrite !cache_of_insert_eq. simpl. split; [exact Aa|].
  intros HB HO. rewrite Ha, Z.max_l by exact HB. f_equal.
  apply map_eq. intros j. destruct (Ho j) as [Heq|[_ Heq]]; [exact Heq|].
  rewrite Heq, HO. reflexivity.
Qed.

(** The block of the parent.  It ends with the two runs related under a
    bound [B'] that the alignment of the first run has reached. *)
Lemma parent_rel B ha hb :
  layout_ok t = true -> inv ha -> inv hb ->
  struct_size (cache_of hb t) = struct_size (cache_of ha t) ->
  (declares_own t \/ align (cache_of hb t) = Z.max (align (cache_of ha t)) B) ->
  (forall j, offsets (cache_of hb t) !! j = offsets (cache_of ha t) !! j \/
             offsets (cache_of hb t) !! j = O !! j) ->
  exists i size size2 al B' ha' hb',
    GetStructSize_parent rec_a t ha = Some ((i, size, size2, al), ha') /\
    GetStructSize_parent rec_b t hb = Some ((i, size, size2, al), hb') /\
    0 <= i <= nb_cols t /\
    rel (Some B') O i ha' hb' /\ outside ha ha' /\ outside hb hb' /\
    (declares_own t /\ B' <= align (cache_of ha' t) \/
     ~ declares_own t /\ B' = B /\ align (cache_of ha t) <= align (cache_of ha' t)).
Proof.
  intros Hok Ia Ib Hsz Halign Hoffs.
  assert (Hoffs0 : forall j,
    offsets (cache_of hb t) !! j = offsets (cache_of ha t) !! j \/
    (~ 0 <= j < 0 /\ offsets (cache_of hb t) !! j = O !! j)).
  { intros j. destruct (Hoffs j) as [Heq|Heq]; [left; exact Heq|].
    right. split; [lia|exact Heq]. }
  unfold GetStructSize_parent.
  destruct (parent_type t) as [p|] eqn:Hp.
  - (* a subtype *)
    assert (Hchild : child t p) by (left; exact Hp).
    assert (Hpaddr : ti_addr p <> ti_addr t).
    { apply proper_addr; [exact Hcons|].
      exists p. split; [exact Hchild|apply subterms_self]. }
    pose proof (layout_ok_parent _ _ Hok Hp) as Hle.
    assert (Hnn : 0 <= nb_cols p) by (unfold nb_cols; lia).
    destruct (rec_step rec_a p ha Hra Hchild Ia) as (ha1 & Ra1 & Ia1 & Oa1 & Ea1 & Fa1).
    destruct (rec_step rec_b p hb Hrb Hchild Ib) as (hb1 & Rb1 & Ib1 & Ob1 & Eb1 & Fb1).
    rewrite (bind_run _ _ _ _ _ Ra1), (bind_run _ _ _ _ _ Rb1).
    unfold res. cbn beta iota.
    destruct (decide (nb_cols p < nb_cols t)) as [Hown|Hnone].
    + (* columns of its own: the alignment restarts from the parent's *)
      assert (Hrel1 : rel None O 0 ha1 hb1).
      { split; try assumption; rewrite ?Ea1, ?Eb1; [exact Hsz|exact I|exact Hoffs0]. }
      destruct (copy_offsets_rel None O p (Z.to_nat (nb_cols p)) 0 ha1 hb1
                  Hpaddr ltac:(congruence) ltac:(lia) ltac:(lia) Hrel1)
        as (ha2 & hb2 & Ra2 & Rb2 & [Ia2 Ib2 Hs2 _ Ho2] & [Oa2 _ Sa2] & [Ob2 _ Sb2] & _).
      rewrite (bind_run _ _ _ _ _ Ra2), (bind_run _ _ _ _ _ Rb2).
      unfold mbind at 1 3, M_bind at 1 3. rewrite !set_align_run.
      set (pa := align (final h0 p)).
      set (ha3 := <[ti_addr t := _]> ha2). set (hb3 := <[ti_addr t := _]> hb2).
      assert (Hrel3 : rel (Some pa) O (nb_cols p) ha3 hb3).
      { subst ha3 hb3.
        split; try (apply inv_insert; assumption);
          rewrite !cache_of_insert_eq; simpl; [exact Hs2|lia|].
        replace (nb_cols p) with (0 + Z.of_nat (Z.to_nat (nb_cols p))) by lia.
        exact Ho2. }
      destruct (attr_rel (Some pa) O (nb_cols p) (nb_cols p) 0 0 rec_a rec_b ha3 hb3
                  Hnn Hra Hrb Hrel3)
        as ([[b s2] na] & ha4 & hb4 & Ra4 & Rb4 & Hrel4 & [Oa4 Aa4 Sa4] & [Ob4 Ab4 Sb4]).
      rewrite (bind_run _ _ _ _ _ Ra4), (bind_run _ _ _ _ _ Rb4). cbn beta iota.
      eexists _, _, _, _, pa, ha4, hb4.
      split; [reflexivity|]. split; [reflexivity|]. split; [lia|].
      split; [exact Hrel4|].
      split; [eapply outside_trans; [exact Oa1|]; eapply outside_trans; [exact Oa2|];
              eapply outside_trans; [apply outside_insert|exact Oa4]|].
      split; [eapply outside_trans; [exact Ob1|]; eapply outside_trans; [exact Ob2|];
              eapply outside_trans; [apply outside_insert|exact Ob4]|].
      left. split; [exists p; split; [exact Hp|exact Hown]|].
      subst ha3. rewrite cache_of_insert_eq in Aa4. simpl in Aa4. exact Aa4.
    + (* nothing of its own *)
      destruct Halign as [(p' & Hp' & Hown')|Halign];
        [rewrite Hp in Hp'; injection Hp' as <-; lia|].
      assert (Hrel1 : rel (Some B) O 0 ha1 hb1).
      { split; try assumption; rewrite ?Ea1, ?Eb1; [exact Hsz|exact Halign|exact Hoffs0]. }
      destruct (copy_offsets_rel (Some B) O p (Z.to_nat (nb_cols p)) 0 ha1 hb1
                  Hpaddr ltac:(congruence) ltac:(lia) ltac:(lia) Hrel1)
        as (ha2 & hb2 & Ra2 & Rb2 & Hrel2 & [Oa2 Aa2 Sa2] & [Ob2 Ab2 Sb2] & _).
      rewrite (bind_run _ _ _ _ _ Ra2), (bind_run _ _ _ _ _ Rb2).
      eexists _, _, _, _, B, ha2, hb2.
      split; [reflexivity|]. split; [reflexivity|]. split; [lia|].
      split; [replace (nb_cols p) with (0 + Z.of_nat (Z.to_nat (nb_cols p))) by lia;
              exact Hrel2|].
      split; [eapply outside_trans; eassumption|].
      split; [eapply outside_trans; eassumption|].
      right. split; [intros (p' & Hp' & Hown'); rewrite Hp in Hp'; injection Hp' as <-; lia|].
      split; [reflexivity|]. rewrite <- Ea1. exact Aa2.
  - (* a root type *)
    destruct Halign as [(p' & Hp' & _)|Halign]; [congruence|].
    exists 0, 0, 0, 0, B, ha, hb.
    split; [reflexivity|]. split; [reflexivity|].
    split; [unfold nb_cols; lia|].
    split; [split; assumption|].
    split; [apply outside_refl|]. split; [apply outside_refl|].
    right. split; [intros (p' & Hp' & _); congruence|]. split; [reflexivity|lia].
Qed.

(** The computing block: both runs succeed; when the bound [B] and the
    offsets [O] are those the first run ends with, the second run ends with
    the very same entry. *)
Lemma compute_rel B ha hb :
  layout_ok t = true -> inv ha -> inv hb ->
  struct_size (cache_of hb t) = struct_size (cache_of ha t) ->
  (declares_own t \/ align (cache_of hb t) = Z.max (align (cache_of ha t)) B) ->
  (forall j, offsets (cache_of hb t) !! j = offsets (cache_of ha t) !! j \/
             offsets (cache_of hb t) !! j = O !! j) ->
  exists ha' hb',
    GetStructSize_compute rec_a t ha = Some (tt, ha') /\
    GetStructSize_compute rec_b t hb = Some (tt, hb') /\
    outside ha ha' /\ outside hb hb' /\
    (declares_own t \/ align (cache_of ha t) <= align (cache_of ha' t)) /\
    ((declares_own t \/ B <= align (cache_of ha' t)) ->
     O = offsets (cache_of ha' t) -> cache_of hb' t = cache_of ha' t).
Proof.
  intros Hok Ia Ib Hsz Halign Hoffs. unfold GetStructSize_compute.
  destruct (parent_rel B ha hb Hok Ia Ib Hsz Halign Hoffs)
    as (i & size & size2 & al & B' & ha1 & hb1 & Ra1 & Rb1 & Hi & Hrel1 & Oa1 & Ob1 & HB').
  rewrite (bind_run _ _ _ _ _ Ra1), (bind_run _ _ _ _ _ Rb1). cbn beta iota.
  destruct (finish_rel B' i size size2 al ha1 hb1 Hi Hrel1)
    as (ha2 & hb2 & Ra2 & Rb2 & Oa2 & Ob2 & Aa2 & Heq2).
  exists ha2, hb2. split; [exact Ra2|]. split; [exact Rb2|].
  split; [eapply outside_trans; eassumption|].
  split; [eapply outside_trans; eassumption|].
  destruct HB' as [[Hown HB']|(Hnown & -> & HA)].
  - split; [left; exact Hown|]. intros _ HO. apply Heq2; [lia|exact HO].
  - split; [right; lia|].
    intros [Hown|HB] HO; [contradiction|]. apply Heq2; assumption.
Qed.

End Body.

(** *** What a subtype takes from its parent *)

(** An entry that has become final stays so. *)
Lemma outside_final h h' u :
  proper t u -> cache_of h u = final h0 u -> outside h h' ->
  cache_of h' u = final h0 u.
Proof.
  intros Hu Hfin Hout.
  destruct (Hout u (proper_addr _ _ Hcons Hu)) as [->|(v & Hv & Hvu & ->)];
    [exact Hfin|].
  f_equal. apply Hcons; auto using proper_subterms.
Qed.

(** The copying loop writes the cells [[i, i + n)] of [offsets] and nothing
    else. *)
Lemma copy_offsets_spec p n : forall i h,
  ti_addr p <> ti_addr t -> 0 <= i -> i + Z.of_nat n <= nb_cols t ->
  exists h',
    copy_offsets t p n i h = Some (tt, h') /\
    (forall u, ti_addr u <> ti_addr t -> cache_of h' u = cache_of h u) /\
    struct_size (cache_of h' t) = struct_size (cache_of h t) /\
    align (cache_of h' t) = align (cache_of h t) /\
    forall j, offsets (cache_of h' t) !! j =
              if decide (i <= j < i + Z.of_nat n)
              then Some (offset_at (cache_of h p) j)
              else offsets (cache_of h t) !! j.
Proof.
  induction n as [|n IH]; intros i h Hp Hi Hn.
  { exists h. split; [reflexivity|]. split; [reflexivity|].
    split; [reflexivity|]. split; [reflexivity|].
    intros j. rewrite decide_False by lia. reflexivity. }
  pose proof (set_offset_run t i (offset_at (cache_of h p) i) h ltac:(lia)) as R1.
  set (h1 := <[ti_addr t := _]> h) in R1.
  destruct (IH (i + 1) h1 Hp ltac:(lia) ltac:(lia))
    as (h' & Hrun & Hoth & Hs & Ha & Ho).
  exists h'. split.
  { cbn [copy_offsets]. unfold mbind at 1, M_bind at 1, get_layout.
    rewrite (bind_run _ _ _ _ _ R1). exact Hrun. }
  split. { intros u Hu. rewrite (Hoth u Hu). apply cache_of_insert_ne, Hu. }
  subst h1. rewrite cache_of_insert_eq in Hs, Ha, Ho. simpl in Hs, Ha, Ho.
  rewrite (cache_of_insert_ne h t p _ Hp) in Ho.
  split; [exact Hs|]. split; [exact Ha|].
  intros j. rewrite Ho.
  destruct (decide (i + 1 <= j < i + 1 + Z.of_nat n)) as [Hin|Hout];
    destruct (decide (i <= j < i + Z.of_nat (S n))) as [Hin'|Hout'];
    try lia; try reflexivity.
  - assert (j = i) as -> by lia. rewrite lookup_insert_eq. reflexivity.
  - rewrite lookup_insert_ne by lia. reflexivity.
Qed.

(** The main loop from [i] on leaves the cells of [offsets] below [i]. *)
Lemma layout_loop_prefix rec n : forall i size size1 size2 al h,
  good_rec rec -> inv h -> 0 <= i -> i + Z.of_nat n <= nb_cols t ->
  exists r h',
    layout_loop rec t n i size size1 size2 al h = Some (r, h') /\
    inv h' /\ outside h h' /\
    forall j, j < i -> offsets (cache_of h' t) !! j = offsets (cache_of h t) !! j.
Proof.
  induction n as [|n IH]; intros i size size1 size2 al h Hrec Hinv Hi Hn.
  { exists (size, size2), h. split; [reflexivity|]. split; [exact Hinv|].
    split; [apply outside_refl|]. reflexivity. }
  cbn [layout_loop].
  assert (Hfirst : exists q h1,
    (if decide (0 < i)
     then _ ← set_offset t i (to_int size); mret (size2, al)
     else '(_, s1, a) ← ObjectGetAttrInfo rec t i size1 al;
          _ ← set_offset t i 0; mret (s1, a)) h = Some (q, h1) /\
    inv h1 /\ outside h h1 /\
    forall j, j < i -> offsets (cache_of h1 t) !! j = offsets (cache_of h t) !! j).
  { destruct (decide (0 < i)) as [Hpos|Hzero].
    - rewrite (bind_run _ _ _ _ _ (set_offset_run t i _ h ltac:(lia))).
      eexists _, _. split; [reflexivity|]. split; [apply inv_insert, Hinv|].
      split; [apply outside_insert|].
      intros j Hj. rewrite cache_of_insert_eq. simpl.
      apply lookup_insert_ne. lia.
    - destruct (attr_spec i size1 al Hi) as (b & s1 & a & Hspec).
      destruct (Hspec rec h Hrec Hinv) as (h1 & R1 & I1 & O1 & E1).
      rewrite (bind_run _ _ _ _ _ R1). cbn beta iota.
      rewrite (bind_run _ _ _ _ _ (set_offset_run t i _ h1 ltac:(lia))).
      eexists _, _. split; [reflexivity|]. split; [apply inv_insert, I1|].
      split; [eapply outside_trans; [exact O1|apply outside_insert]|].
      intros j Hj. rewrite cache_of_insert_eq, E1. simpl.
      apply lookup_insert_ne. lia. }
  destruct Hfirst as ([s1 a1] & h1 & R1 & I1 & O1 & P1).
  rewrite (bind_run _ _ _ _ _ R1). cbn beta iota.
  destruct (attr_spec (i + 1) size2 a1 ltac:(lia)) as (b & s2 & a2 & Hspec).
  destruct (Hspec rec h1 Hrec I1) as (h2 & R2 & I2 & O2 & E2).
  rewrite (bind_run _ _ _ _ _ R2). cbn beta iota.
  destruct (IH (i + 1) (size_t (ROUNDUP (size_t (size + s1)) a2)) s1 s2 a2 h2
              Hrec I2 ltac:(lia) ltac:(lia)) as (r & h3 & R3 & I3 & O3 & P3).
  exists r, h3. split; [exact R3|]. split; [exact I3|].
  split; [eapply outside_trans; [exact O1|]; eapply outside_trans; eassumption|].
  intros j Hj. rewrite P3 by lia. rewrite E2. simpl. apply P1, Hj.
Qed.

(** The computing block on a subtype: the parent ends with its final entry,
    the cells of the inherited columns hold the offsets of the parent, and
    a subtype with no column of its own keeps the alignment it entered
    with, which is the one its size is rounded to. *)
Lemma compute_inherits rec p h :
  layout_ok t = true -> good_rec rec -> inv h -> parent_type t = Some p ->
  exists h',
    GetStructSize_compute rec t h = Some (tt, h') /\
    cache_of h' p = final h0 p /\
    (forall j, 0 <= j < nb_cols p ->
       offsets (cache_of h' t) !! j = Some (offset_at (final h0 p) j)) /\
    (nb_cols p = nb_cols t ->
       struct_size (cache_of h' t) =
         size_t (ROUNDUP (size_t (struct_size (final h0 p) + 0))
                         (align (cache_of h t))) /\
       align (cache_of h' t) = align (cache_of h t)).
Proof.
  intros Hok Hrec Hinv Hp.
  assert (Hchild : child t p) by (left; exact Hp).
  assert (Hprop : proper t p).
  { exists p. split; [exact Hchild|apply subterms_self]. }
  pose proof (proper_addr _ _ Hcons Hprop) as Hpaddr.
  pose proof (layout_ok_parent _ _ Hok Hp) as Hle.
  assert (Hnn : 0 <= nb_cols p) by (unfold nb_cols; lia).
  unfold GetStructSize_compute, GetStructSize_parent. rewrite Hp.
  destruct (rec_step rec p h Hrec Hchild Hinv) as (h1 & R1 & I1 & O1 & E1 & F1).
  destruct (copy_offsets_spec p (Z.to_nat (nb_cols p)) 0 h1 Hpaddr
              ltac:(lia) ltac:(lia)) as (h2 & R2 & Oth2 & S2 & A2 & Off2).
  assert (I2 : inv h2).
  { intros u Hu. rewrite (Oth2 u (proper_addr _ _ Hcons Hu)). apply I1, Hu. }
  assert (F2 : cache_of h2 p = final h0 p) by (rewrite (Oth2 p Hpaddr); exact F1).
  assert (Pre2 : forall j, 0 <= j < nb_cols p ->
            offsets (cache_of h2 t) !! j = Some (offset_at (final h0 p) j)).
  { intros j Hj. rewrite Off2, decide_True by lia. rewrite F1. reflexivity. }
  unfold mbind at 1, M_bind at 1.
  unfold mbind at 1, M_bind at 1. rewrite R1. unfold res. cbn beta iota.
  unfold mbind at 1, M_bind at 1. rewrite R2.
  destruct (decide (nb_cols p < nb_cols t)) as [Hown|Hnone].
  - (* columns of its own *)
    unfold mbind at 1, M_bind at 1. rewrite set_align_run.
    set (h3 := <[ti_addr t := _]> h2).
    assert (I3 : inv h3) by (apply inv_insert, I2).
    destruct (attr_spec (nb_cols p) 0 0 Hnn) as (b & s2 & na & Hspec).
    destruct (Hspec rec h3 Hrec I3) as (h4 & R4 & I4 & O4 & E4).
    unfold mbind at 1, M_bind at 1. rewrite R4. cbn beta iota.
    unfold mret at 1, M_ret at 1. cbn beta iota.
    unfold GetStructSize_finish.
    destruct (layout_loop_prefix rec (Z.to_nat (nb_cols t - nb_cols p)) (nb_cols p)
                (size_t (ROUNDUP (struct_size (final h0 p)) na)) 0 s2
                (align (final h0 p)) h4 Hrec I4 Hnn ltac:(lia))
      as ([sz sz2] & h5 & R5 & I5 & O5 & P5).
    rewrite (bind_run _ _ _ _ _ R5). cbn beta iota.
    unfold mbind, M_bind, get_layout. rewrite set_struct_size_run.
    eexists. split; [reflexivity|].
    split.
    { rewrite cache_of_insert_ne by exact Hpaddr.
      apply (outside_final h4 h5 p Hprop); [|exact O5].
      apply (outside_final h3 h4 p Hprop); [|exact O4].
      subst h3. rewrite cache_of_insert_ne by exact Hpaddr. exact F2. }
    split; [|lia].
    intros j Hj. rewrite cache_of_insert_eq. simpl.
    rewrite P5 by lia. rewrite E4. simpl. subst h3.
    rewrite cache_of_insert_eq. simpl. apply Pre2, Hj.
  - (* nothing of its own *)
    unfold mret at 1, M_ret at 1. cbn beta iota. unfold GetStructSize_finish.
    replace (Z.to_nat (nb_cols t - nb_cols p)) with 0%nat by lia.
    cbn [layout_loop].
    unfold mbind, M_bind, mret, M_ret, get_layout. rewrite set_struct_size_run.
    eexists. split; [reflexivity|].
    split; [rewrite cache_of_insert_ne by exact Hpaddr; exact F2|].
    rewrite cache_of_insert_eq. simpl.
    split; [intros j Hj; apply Pre2, Hj|].
    intros _. rewrite A2, E1. split; reflexivity.
Qed.

End Stability.

(** *** Every call returns the final pair *)

Lemma body_cached `{Platform} rec t h :
  struct_size (cache_of h t) <> 0 ->
  GetStructSize_body rec t h = Some (res (cache_of h t), h).
Proof.
  intros Hnz. unfold GetStructSize_body, mbind, M_bind, get_layout.
  rewrite decide_False by exact Hnz. reflexivity.
Qed.

Lemma body_computes `{Platform} rec t h h' :
  struct_size (cache_of h t) = 0 ->
  GetStructSize_compute rec t h = Some (tt, h') ->
  GetStructSize_body rec t h = Some (res (cache_of h' t), h').
Proof.
  intros Hz Hrun. unfold GetStructSize_body, mbind, M_bind, get_layout.
  rewrite decide_True by exact Hz. rewrite Hrun. reflexivity.
Qed.

Section Summary.
Context `{Platform}.
Variable h0 : gmap ptr layout.

Lemma settled_start S : settled h0 S h0.
Proof. intros u _. left. reflexivity. Qed.

(** On a settled store a call on [t] returns the final pair of [t] and
    leaves [t] with its final entry, whatever the fuel above [depth t]. *)
Lemma GetStructSize_summary n : forall t,
  (depth t <= n)%nat -> consistent t -> layout_ok t = true ->
  forall fuel, (depth t <= fuel)%nat -> summary h0 (GetStructSize_fuel fuel) t.
Proof.
  induction n as [|n IH]; intros t Hd Hcons Hok fuel Hfuel.
  { rewrite depth_unfold in Hd. lia. }
  assert (Hgood : forall f, (depth t <= S f)%nat ->
                            good_rec h0 t (GetStructSize_fuel f)).
  { intros f Hf c Hc. pose proof (child_depth _ _ Hc).
    apply IH; [lia|eapply consistent_child; eassumption
               |eapply layout_ok_child; eassumption|lia]. }
  destruct fuel as [|f]; [rewrite depth_unfold in Hfuel; lia|].
  destruct (depth t) as [|d] eqn:Hdt; [rewrite depth_unfold in Hdt; lia|].
  pose proof (Hgood d ltac:(lia)) as Hra.
  pose proof (Hgood f ltac:(lia)) as Hrb.
  intros h Hset. cbn [GetStructSize_fuel].
  assert (Ia : inv h0 t h0) by apply settled_start.
  assert (Ib : inv h0 t h).
  { intros u Hu. apply Hset, proper_subterms, Hu. }
  assert (Hfinal : final h0 t =
            match GetStructSize_body (GetStructSize_fuel d) t h0 with
            | Some (_, h') => cache_of h' t
            | None => cache_of h0 t
            end).
  { unfold final. rewrite Hdt. reflexivity. }
  assert (Hmoved : forall h',
            outside h0 t h h' -> cache_of h' t = final h0 t ->
            moved h0 (within t) h h').
  { intros h' Hout Hfin u.
    destruct (decide (ti_addr u = ti_addr t)) as [Heq|Hne].
    - right. exists t. split; [apply subterms_self|]. split; [congruence|].
      rewrite (cache_of_addr h' u t Heq). exact Hfin.
    - destruct (Hout u Hne) as [Hsame|(v & Hv & Hvu & Hfv)]; [left; exact Hsame|].
      right. exists v. split; [apply proper_subterms, Hv|]. split; assumption. }
  destruct (decide (struct_size (cache_of h0 t) = 0)) as [Hz|Hnz].
  2:{ (* cached from the start *)
    rewrite (body_cached _ t h0 Hnz) in Hfinal.
    assert (Heb : cache_of h t = final h0 t).
    { destruct (Hset t (subterms_self t)) as [->| ->]; congruence. }
    exists h. rewrite body_cached by congruence.
    split; [rewrite Heb; reflexivity|]. split; [exact Heb|].
    apply Hmoved; [apply outside_refl|exact Heb]. }
  (* the run that defines the final entry *)
  destruct (compute_rel h0 t Hcons _ _ Hra Hra ∅ (align (cache_of h0 t)) h0 h0
              Hok Ia Ia eq_refl ltac:(right; lia) ltac:(intros j; left; reflexivity))
    as (hF & hF' & RF & _ & _ & _ & HalF & _).
  rewrite (body_computes _ t h0 hF Hz RF) in Hfinal.
  destruct (decide (struct_size (cache_of h t) = 0)) as [Hzb|Hnzb].
  2:{ (* already final and cached *)
    assert (Heb : cache_of h t = final h0 t).
    { destruct (Hset t (subterms_self t)) as [Heq|Heq]; [|exact Heq]. congruence. }
    exists h. rewrite body_cached by exact Hnzb.
    split; [rewrite Heb; reflexivity|]. split; [exact Heb|].
    apply Hmoved; [apply outside_refl|exact Heb]. }
  (* computed again *)
  assert (Hrun : exists hb', GetStructSize_compute (GetStructSize_fuel f) t h
                             = Some (tt, hb') /\
                             outside h0 t h hb' /\ cache_of hb' t = final h0 t).
  { destruct (Hset t (subterms_self t)) as [Heb|Heb].
    - destruct (compute_rel h0 t Hcons _ _ Hra Hrb (offsets (final h0 t))
                  (align (cache_of h0 t)) h0 h Hok Ia Ib ltac:(congruence)
                  ltac:(right; rewrite Heb; lia)
                  ltac:(intros j; left; rewrite Heb; reflexivity))
        as (ha' & hb' & Ra & Rb & _ & Ob & _ & Heq).
      rewrite RF in Ra. injection Ra as Hh. subst ha'.
      exists hb'. split; [exact Rb|]. split; [exact Ob|].
      rewrite Hfinal. apply Heq; [|rewrite Hfinal; reflexivity].
      destruct HalF as [Hown|Hle]; [left; exact Hown|right; exact Hle].
    - destruct (compute_rel h0 t Hcons _ _ Hra Hrb (offsets (final h0 t))
                  (align (final h0 t)) h0 h Hok Ia Ib ltac:(congruence)
                  ltac:(destruct HalF as [Hown|Hle];
                        [left; exact Hown|right; rewrite Heb, Hfinal; lia])
                  ltac:(intros j; right; rewrite Heb; reflexivity))
        as (ha' & hb' & Ra & Rb & _ & Ob & _ & Heq).
      rewrite RF in Ra. injection Ra as Hh. subst ha'.
      exists hb'. split; [exact Rb|]. split; [exact Ob|].
      rewrite Hfinal. apply Heq; [|rewrite Hfinal; reflexivity].
      right. rewrite Hfinal. lia. }
  destruct Hrun as (hb' & Rb & Ob & Hfin).
  exists hb'. rewrite (body_computes _ t h hb' Hzb Rb), Hfin.
  split; [reflexivity|]. split; [reflexivity|]. apply Hmoved; assumption.
Qed.

End Summary.

(** ** ObjectGetStructSize: memoization *)

Lemma settled_moved `{Platform} h0 t h h' :
  consistent t ->
  settled h0 (within t) h -> moved h0 (within t) h h' ->
  settled h0 (within t) h'.
Proof.
  intros Hcons Hset Hmov u Hu.
  destruct (Hmov u) as [->|(v & Hv & Hvu & ->)]; [apply Hset, Hu|].
  right. f_equal. apply Hcons; assumption.
Qed.

(** A call on a descriptor whose [struct_size] is set reads the cache and
    leaves the store as it is. *)
Lemma ObjectGetStructSize_cached `{Platform} t h sz al :
  struct_size (cache_of h t) <> 0 ->
  ObjectGetStructSize (Some t) sz al h
  = Some ((struct_size (cache_of h t), align (cache_of h t)), h).
Proof.
  intros Hnz. unfold ObjectGetStructSize.
  destruct (depth t) as [|d] eqn:Hd; [rewrite depth_unfold in Hd; lia|].
  cbn [GetStructSize_fuel]. apply body_cached, Hnz.
Qed.

(** Two calls in a row return the same pair and leave the same entry. *)
Lemma ObjectGetStructSize_twice `{Platform} t h sz al sz' al' :
  consistent t -> layout_ok t = true ->
  exists r h1 h2,
    ObjectGetStructSize (Some t) sz al h = Some (r, h1) /\
    ObjectGetStructSize (Some t) sz' al' h1 = Some (r, h2) /\
    r = (struct_size (cache_of h1 t), align (cache_of h1 t)) /\
    cache_of h2 t = cache_of h1 t.
Proof.
  intros Hcons Hok. unfold ObjectGetStructSize.
  pose proof (GetStructSize_summary h (depth t) t (Nat.le_refl _) Hcons Hok
                (depth t) (Nat.le_refl _)) as Hsum.
  destruct (Hsum h (settled_start h _)) as (h1 & R1 & F1 & M1).
  destruct (Hsum h1 (settled_moved h t h h1 Hcons (settled_start h _) M1))
    as (h2 & R2 & F2 & M2).
  exists (res (final h t)), h1, h2.
  split; [exact R1|]. split; [exact R2|]. split; [rewrite F1; reflexivity|].
  congruence.
Qed.

(** ** ObjectGetStructSize: what a subtype inherits *)

(** A subtype whose layout is not cached yet, on any platform and from any
    store.  The call returns; the cells of the inherited columns hold the
    offsets of the parent; and when the subtype declares no column of its
    own, its size is the size of the parent rounded to the alignment its
    entry held on entry, which the call returns as it found it. *)
Lemma ObjectGetStructSize_inherits `{Platform} t p h sz al :
  consistent t -> layout_ok t = true -> parent_type t = Some p ->
  struct_size (cache_of h t) = 0 ->
  exists size al' h',
    ObjectGetStructSize (Some t) sz al h = Some ((size, al'), h') /\
    (forall j, 0 <= j < nb_cols p ->
       offsets (cache_of h' t) !! j = Some (offset_at (cache_of h' p) j)) /\
    (nb_cols p = nb_cols t ->
       size = size_t (ROUNDUP (size_t (struct_size (cache_of h' p) + 0))
                              (align (cache_of h t))) /\
       al' = align (cache_of h t)).
Proof.
  intros Hcons Hok Hp Hz. unfold ObjectGetStructSize.
  destruct (depth t) as [|d] eqn:Hd; [rewrite depth_unfold in Hd; lia|].
  cbn [GetStructSize_fuel].
  assert (Hrec : good_rec h t (GetStructSize_fuel d)).
  { intros c Hc. pose proof (child_depth _ _ Hc).
    apply (GetStructSize_summary h (depth c));
      [lia|eapply consistent_child; eassumption
       |eapply layout_ok_child; eassumption|lia]. }
  destruct (compute_inherits h t Hcons _ p h Hok Hrec (settled_start h _) Hp)
    as (h' & Hrun & Hfp & Hpre & Hnone).
  exists (struct_size (cache_of h' t)), (align (cache_of h' t)), h'.
  split; [apply body_computes; assumption|].
  rewrite Hfp. split; [exact Hpre|].
  intros Heq. destruct (Hnone Heq) as [Hs Ha]. split; assumption.
Qed.

(** With a [ROUNDUP] that rounds to a multiple of its alignment, hence to 0
    for the alignment 0, a subtype that declares no column of its own and
    starts from a zeroed entry is sized 0, whatever the size of its
    parent. *)
Lemma ObjectGetStructSize_no_own_column `{Platform} t p h sz al :
  (forall x, ROUNDUP x 0 = 0) ->
  consistent t -> layout_ok t = true -> parent_type t = Some p ->
  nb_cols p = nb_cols t ->
  struct_size (cache_of h t) = 0 -> align (cache_of h t) = 0 ->
  exists h', ObjectGetStructSize (Some t) sz al h = Some ((0, 0), h').
Proof.
  intros Hround Hcons Hok Hp Hnb Hz Ha.
  destruct (ObjectGetStructSize_inherits t p h sz al Hcons Hok Hp Hz)
    as (size & al' & h' & Hrun & _ & Hnone).
  destruct (Hnone Hnb) as [-> ->]. exists h'.
  rewrite Hrun, Ha, Hround. reflexivity.
Qed.

(** C2.  Layout computation is memoized and idempotent.  (1) When
    [typinf->struct_size] is nonzero, [ObjectGetStructSize] returns the
    cached [(struct_size, align)] and changes no cache field of any
    descriptor.  (2) On every descriptor (a subtype has at least the
    columns of its parent, and an address stands for one descriptor), two
    calls in a row both return, with the same [(size, align)], and the
    second leaves [struct_size], [align] and every cell of [offsets] of the
    descriptor as the first left them. *)
Theorem ObjectGetStructSize_memoized_idempotent `{Platform}
    (t : OCI_TypeInfo) (h : gmap ptr layout) (sz al : Z) :
  (struct_size (cache_of h t) <> 0 ->
   ObjectGetStructSize (Some t) sz al h
   = Some ((struct_size (cache_of h t), align (cache_of h t)), h)) /\
  (consistent t -> layout_ok t = true ->
   exists size align_ h1 h2,
     ObjectGetStructSize (Some t) sz al h = Some ((size, align_), h1) /\
     ObjectGetStructSize (Some t) sz al h1 = Some ((size, align_), h2) /\
     struct_size (cache_of h2 t) = size /\
     align (cache_of h2 t) = align_ /\
     cache_of h2 t = cache_of h1 t /\
     forall i, offset_at (cache_of h2 t) i = offset_at (cache_of h1 t) i).
Proof.
  split; [apply ObjectGetStructSize_cached|].
  intros Hcons Hok.
  destruct (ObjectGetStructSize_twice t h sz al sz al Hcons Hok)
    as ([size align_] & h1 & h2 & R1 & R2 & Hr & Heq).
  injection Hr as -> ->.
  exists (struct_size (cache_of h1 t)), (align (cache_of h1 t)), h1, h2.
  rewrite Heq. repeat split; assumption || reflexivity.
Qed.

(** C2 at [EMPLOYEE UNDER PERSON]: on a store holding its layout, and
    twice in a row from the empty store. *)
Lemma ObjectGetStructSize_memoized_idempotent_witness :
  let hc := <[ti_addr ty_employee :=
                Layout 16 8 (<[1 := 8]> (<[0 := 0]> ∅))]> ∅ in
  (struct_size (cache_of hc ty_employee) <> 0 /\
   ObjectGetStructSize (H := lp64) (Some ty_employee) 0 0 hc
   = Some ((struct_size (cache_of hc ty_employee),
            align (cache_of hc ty_employee)), hc)) /\
  (consistent ty_employee /\ layout_ok ty_employee = true /\
   exists size align_ h1 h2,
     ObjectGetStructSize (H := lp64) (Some ty_employee) 0 0 ∅
     = Some ((size, align_), h1) /\
     ObjectGetStructSize (H := lp64) (Some ty_employee) 0 0 h1
     = Some ((size, align_), h2) /\
     struct_size (cache_of h2 ty_employee) = size /\
     align (cache_of h2 ty_employee) = align_ /\
     cache_of h2 ty_employee = cache_of h1 ty_employee /\
     forall i, offset_at (cache_of h2 ty_employee) i
               = offset_at (cache_of h1 ty_employee) i).
Proof.
  intros hc.
  assert (Hnz : struct_size (cache_of hc ty_employee) <> 0).
  { subst hc. rewrite cache_of_insert_eq. simpl. lia. }
  assert (Hcons : consistent ty_employee).
  { apply consistentb_sound. vm_compute. reflexivity. }
  assert (Hok : layout_ok ty_employee = true) by (vm_compute; reflexivity).
  split; [split; [exact Hnz|]|split; [exact Hcons|split; [exact Hok|]]].
  - exact (proj1 (ObjectGetStructSize_memoized_idempotent (H := lp64)
                    ty_employee hc 0 0) Hnz).
  - exact (proj2 (ObjectGetStructSize_memoized_idempotent (H := lp64)
                    ty_employee ∅ 0 0) Hcons Hok).
Defined.

(** ** ObjectGetIndOffset: the claims *)

(** One more iteration of the loop: the column at [n] is added last. *)
Lemma IndOffset_loop_snoc (rec : OCI_TypeInfo -> option Z) cs :
  forall n j0 j c,
    IndOffset_loop rec cs n j0 = Some j -> cs !! n = Some c ->
    IndOffset_loop rec cs (S n) j0 =
    match col_datatype c with
    | OCI_CDT_OBJECT =>
        match col_typinf c with
        | None => None
        | Some nt => match rec nt with
                     | None => None
                     | Some r => Some (ub2 (j + r))
                     end
        end
    | _ => Some (ub2 (j + 1))
    end.
Proof.
  induction cs as [|c0 cs IH]; intros n j0 j c Hrun Hc; [inversion Hc|].
  destruct n as [|n].
  - simpl in Hrun, Hc. injection Hrun as ->. injection Hc as ->.
    cbn [IndOffset_loop].
    destruct (col_datatype c); destruct cs; reflexivity.
  - change ((c0 :: cs) !! S n) with (cs !! n) in Hc.
    cbn [IndOffset_loop] in Hrun |- *.
    destruct (col_datatype c0); try (apply (IH _ _ _ _ Hrun Hc)).
    destruct (col_typinf c0) as [nt0|]; [|discriminate].
    destruct (rec nt0); [|discriminate]. apply (IH _ _ _ _ Hrun Hc).
Qed.

Lemma ObjectGetIndOffset_zero t : ObjectGetIndOffset (Some t) 0 = Some 1.
Proof.
  simpl. rewrite IndOffset_unfold, decide_False by lia.
  destruct (cols t); reflexivity.
Qed.

Lemma ObjectGetIndOffset_succ t i j c :
  0 <= i < 65535 ->
  cols t !! Z.to_nat i = Some c ->
  ObjectGetIndOffset (Some t) i = Some j ->
  ObjectGetIndOffset (Some t) (i + 1) =
  match col_datatype c with
  | OCI_CDT_OBJECT =>
      match col_typinf c with
      | None => None
      | Some nt => match ObjectGetIndOffset (Some nt) (nb_cols nt) with
                   | None => None
                   | Some r => Some (ub2 (j + r))
                   end
      end
  | _ => Some (ub2 (j + 1))
  end.
Proof.
  intros Hi Hc. simpl. rewrite !IndOffset_unfold.
  rewrite !decide_False by lia.
  replace (Z.to_nat (i + 1)) with (S (Z.to_nat i)) by lia.
  intros Hrun. apply (IndOffset_loop_snoc _ _ _ _ _ _ Hrun Hc).
Qed.

(** C3.  A nested-object column 0 whose type has two plain columns, then a
    plain column 1: the indicator offset of column 1 is 4.  In general the
    column at [i] moves the running offset by [col_slots]: 1 for a plain
    column, 1 plus the flattened slot count of the nested type for an
    object column (16-bit arithmetic). *)
Theorem ObjectGetIndOffset_nested_then_scalar :
  (forall t nt c0 c1 rest a b,
     cols t = c0 :: c1 :: rest ->
     col_datatype c0 = OCI_CDT_OBJECT -> col_typinf c0 = Some nt ->
     cols nt = [a; b] ->
     col_datatype a <> OCI_CDT_OBJECT -> col_datatype b <> OCI_CDT_OBJECT ->
     col_datatype c1 <> OCI_CDT_OBJECT ->
     ObjectGetIndOffset (Some t) 1 = Some 4) /\
  (forall t i c,
     ind_ok t = true -> 0 <= i -> cols t !! Z.to_nat i = Some c ->
     exists j,
       ObjectGetIndOffset (Some t) i = Some j /\
       ObjectGetIndOffset (Some t) (i + 1) = Some (ub2 (j + col_slots c)) /\
       col_slots c =
         match col_datatype c, col_typinf c with
         | OCI_CDT_OBJECT, Some nt => 1 + flattened_count nt
         | _, _ => 1
         end).
Proof.
  split.
  - intros t nt c0 c1 rest a b Ht Hdt Hnt Hcols Ha Hb _.
    simpl. rewrite IndOffset_unfold, Ht. simpl. rewrite Hdt, Hnt.
    rewrite IndOffset_unfold, Hcols. unfold nb_cols. rewrite Hcols. simpl.
    destruct (col_datatype a); try contradiction;
      destruct (col_datatype b); try contradiction; reflexivity.
  - intros t i c Hok Hi Hc.
    assert (Hlt : i < nb_cols t).
    { apply lookup_lt_Some in Hc. unfold nb_cols. lia. }
    assert (Hn : nb_cols t <= 65535).
    { rewrite ind_ok_unfold in Hok. apply andb_true_iff in Hok as [Hn _].
      apply bool_decide_eq_true in Hn. exact Hn. }
    exists (ub2 (1 + IndicatorOffset_spec t (Z.to_nat i))).
    simpl. rewrite !(IndOffset_spec_rel t Hok) by lia.
    split; [reflexivity|]. split; [|reflexivity].
    f_equal. rewrite ub2_add_l. f_equal.
    replace (Z.to_nat (i + 1)) with (S (Z.to_nat i)) by lia.
    unfold IndicatorOffset_spec.
    rewrite (take_S_r _ _ _ Hc), map_app, foldr_app. simpl.
    rewrite Z.add_0_r.
    generalize (map col_slots (take (Z.to_nat i) (cols t))).
    intros l. induction l as [|x l IH]; simpl; lia.
Qed.

(** C3 at [OUTER(A INNER, B number)]. *)
Lemma ObjectGetIndOffset_nested_then_scalar_witness :
  ObjectGetIndOffset (Some ty_outer) 1 = Some 4 /\
  exists j,
    ObjectGetIndOffset (Some ty_outer) 0 = Some j /\
    ObjectGetIndOffset (Some ty_outer) (0 + 1)
    = Some (ub2 (j + col_slots (col_object "A" ty_inner))) /\
    col_slots (col_object "A" ty_inner) = 1 + flattened_count ty_inner.
Proof.
  split.
  - apply (proj1 ObjectGetIndOffset_nested_then_scalar ty_outer ty_inner
             (col_object "A" ty_inner) (col_plain "B" OCI_CDT_NUMERIC 0) []
             (col_plain "X" OCI_CDT_NUMERIC 0) (col_plain "Y" OCI_CDT_TEXT 0));
      (reflexivity || discriminate).
  - apply (proj2 ObjectGetIndOffset_nested_then_scalar ty_outer 0
             (col_object "A" ty_inner)); [reflexivity|lia|reflexivity].
Defined.

(** C4, as the code has it.  [ObjectGetIndOffset] counts forward from 1,
    slot 0 being the flag of the composite itself: it returns 1 for the
    empty column range of every non-null descriptor (0 for [NULL]); a plain
    column adds 1; an object column adds the whole of
    [ObjectGetIndOffset(nested, nested->nb_cols)], the own slot of the
    nested object being the 1 that call starts from; the result is one more
    than the count of the specification.  All in 16 bits. *)
Theorem ObjectGetIndOffset_counts_from_one :
  (forall t, ObjectGetIndOffset (Some t) 0 = Some 1) /\
  ObjectGetIndOffset None 0 = Some 0 /\
  (forall t i j c,
     0 <= i < 65535 -> cols t !! Z.to_nat i = Some c ->
     ObjectGetIndOffset (Some t) i = Some j ->
     col_datatype c <> OCI_CDT_OBJECT ->
     ObjectGetIndOffset (Some t) (i + 1) = Some (ub2 (j + 1))) /\
  (forall t i j c nt r,
     0 <= i < 65535 -> cols t !! Z.to_nat i = Some c ->
     ObjectGetIndOffset (Some t) i = Some j ->
     col_datatype c = OCI_CDT_OBJECT -> col_typinf c = Some nt ->
     ObjectGetIndOffset (Some nt) (nb_cols nt) = Some r ->
     ObjectGetIndOffset (Some t) (i + 1) = Some (ub2 (j + r))) /\
  (forall t index,
     ind_ok t = true -> 0 <= index <= nb_cols t ->
     ObjectGetIndOffset (Some t) index
     = Some (ub2 (1 + IndicatorOffset_spec t (Z.to_nat index)))).
Proof.
  split; [exact ObjectGetIndOffset_zero|]. split; [reflexivity|].
  split; [|split].
  - intros t i j c Hi Hc Hrun Hdt.
    rewrite (ObjectGetIndOffset_succ t i j c Hi Hc Hrun).
    destruct (col_datatype c); try reflexivity. contradiction.
  - intros t i j c nt r Hi Hc Hrun Hdt Hnt Hr.
    rewrite (ObjectGetIndOffset_succ t i j c Hi Hc Hrun), Hdt, Hnt, Hr.
    reflexivity.
  - intros t index Hok Hidx. apply IndOffset_spec_rel; assumption.
Qed.

(** C4 at [OUTER]: the plain step on [INNER], the object step and the
    relation to the count of the specification on [OUTER]. *)
Lemma ObjectGetIndOffset_counts_from_one_witness :
  ObjectGetIndOffset (Some ty_inner) (0 + 1) = Some (ub2 (1 + 1)) /\
  ObjectGetIndOffset (Some ty_outer) (0 + 1) = Some (ub2 (1 + 3)) /\
  ObjectGetIndOffset (Some ty_outer) 2
  = Some (ub2 (1 + IndicatorOffset_spec ty_outer (Z.to_nat 2))).
Proof.
  destruct ObjectGetIndOffset_counts_from_one as (_ & _ & Hplain & Hobj & Hspec).
  split; [|split].
  - apply (Hplain ty_inner 0 1 (col_plain "X" OCI_CDT_NUMERIC 0));
      [lia|reflexivity|reflexivity|discriminate].
  - apply (Hobj ty_outer 0 1 (col_object "A" ty_inner) ty_inner 3);
      [lia|reflexivity..].
  - apply (Hspec ty_outer 2); [reflexivity|]. unfold nb_cols. simpl. lia.
Defined.

(** The claim C4 as stated fails: the offset over the empty column range
    of a non-null descriptor is 1, not 0. *)
Lemma ObjectGetIndOffset_empty_range_not_zero :
  ObjectGetIndOffset (Some ty_outer) 0 = Some 1 /\
  ObjectGetIndOffset (Some ty_outer) 0 <> Some 0.
Proof. split; [reflexivity|discriminate]. Qed.

(** ** ObjectGetUserStructSize: the slot one past the end *)

Lemma flat_map_map_l {A B C} (f : B -> list C) (g : A -> B) l :
  flat_map f (map g l) = flat_map (fun x => f (g x)) l.
Proof. induction l as [|x l IH]; simpl; [reflexivity|]. rewrite IH. reflexivity. Qed.

Lemma UserStructSize_loop_slots `{Platform} CGAI t n : forall i v,
  (UserStructSize_loop CGAI t n i v).2
  = flat_map (fun k => [i + Z.of_nat k; i + Z.of_nat k + 1]) (seq 0 n).
Proof.
  induction n as [|n IH]; intros i v; [reflexivity|].
  cbn [UserStructSize_loop]. unfold UserStructSize_step at 1.
  destruct (CGAI _ _ _ _ _) as [size1 align1].
  destruct (CGAI _ _ _ _ _) as [size2 align2].
  specialize (IH (i + 1) (UserLocals
     (size_t (ROUNDUP (size_t (u_size v + size1)) align2)) size1 size2 align1 align2
     (if decide ((if decide (u_align v < align1) then align1 else u_align v) < align2)
      then align2
      else if decide (u_align v < align1) then align1 else u_align v))).
  destruct (UserStructSize_loop CGAI t n (i + 1) _) as [v2 s2].
  simpl in IH |- *. rewrite IH, Z.add_0_r. f_equal. f_equal.
  rewrite <- seq_shift, flat_map_map_l.
  apply flat_map_ext. intros k.
  replace (i + 1 + Z.of_nat k) with (i + Z.of_nat (S k)) by lia. reflexivity.
Qed.



(** ** Accessors: how the pieces run *)

Section AccessorFacts.
Context `{Platform} `{Runtime}.

Lemma wbind_run {A B} (m : W A) (f : A -> W B) w x w1 :
  m w = Some (x, w1) -> (m ≫= f) w = f x w1.
Proof. intros Hm. unfold mbind, W_bind. rewrite Hm. reflexivity. Qed.

Lemma wbind_inv {A B} (m : W A) (f : A -> W B) w r :
  (m ≫= f) w = Some r -> exists x w1, m w = Some (x, w1) /\ f x w1 = Some r.
Proof.
  unfold mbind, W_bind. destruct (m w) as [[x w1]|]; [|discriminate].
  intros Hf. exists x, w1. split; [reflexivity|exact Hf].
Qed.

Lemma caches_only_refl w : caches_only w w.
Proof. repeat split. Qed.

Lemma lift_caches_only {A} (m : M A) w x w' :
  lift m w = Some (x, w') -> caches_only w w'.
Proof.
  unfold lift. destruct (m (caches w)) as [[y h']|]; intros Heq;
    [|discriminate]. injection Heq as _ <-. repeat split.
Qed.

Lemma find_attr_range cs ty a : forall i,
  find_attr cs ty a i = -1 \/
  i <= find_attr cs ty a i < i + Z.of_nat (length cs).
Proof.
  induction cs as [|c cs IH]; intros i; simpl; [left; reflexivity|].
  destruct (_ && _); [right; lia|].
  destruct (IH (i + 1)) as [->|Hr]; [left; reflexivity|right; lia].
Qed.

Lemma find_attr_lookup cs ty a : forall i,
  0 <= i -> i <= find_attr cs ty a i ->
  exists col, cs !! Z.to_nat (find_attr cs ty a i - i) = Some col /\
              forall t, ty = Some t -> col_datatype col = t.
Proof.
  induction cs as [|c cs IH]; intros i Hi Hr; simpl in *; [lia|].
  destruct (_ && _) eqn:Hm.
  - rewrite Z.sub_diag. exists c. split; [reflexivity|].
    intros t ->. apply andb_true_iff in Hm as [Hm _].
    apply bool_decide_eq_true in Hm. exact Hm.
  - destruct (find_attr_range cs ty a (i + 1)) as [Hn|Hn]; [lia|].
    destruct (IH (i + 1) ltac:(lia) ltac:(lia)) as (col & Hcol & Hty).
    exists col. split; [|exact Hty].
    replace (Z.to_nat (find_attr cs ty a (i + 1) - i))
      with (S (Z.to_nat (find_attr cs ty a (i + 1) - (i + 1)))) by lia.
    exact Hcol.
Qed.

(** A name that resolves leaves the session alone. *)
Lemma ObjectGetAttrIndex_found o a ty check w :
  0 <= find_attr (cols (typinf o)) ty a 0 ->
  ObjectGetAttrIndex (Some o) (Some a) ty check w
  = Some (find_attr (cols (typinf o)) ty a 0, w).
Proof.
  intros Hr. unfold ObjectGetAttrIndex.
  rewrite (bool_decide_eq_false_2 (find_attr _ _ _ _ = -1)) by lia.
  rewrite andb_false_r. reflexivity.
Qed.

(** In any case it touches the diagnostics alone. *)
Lemma ObjectGetAttrIndex_frame obj attr ty check w r w' :
  ObjectGetAttrIndex obj attr ty check w = Some (r, w') ->
  caches w' = caches w /\ inds w' = inds w /\ mem w' = mem w /\
  calls w' = calls w /\
  ((r = -1 \/ 0 <= r) /\ (0 <= r -> w' = w)).
Proof.
  unfold ObjectGetAttrIndex.
  destruct obj as [o|]; [destruct attr as [a|]|];
    try (intros [= <- <-]; repeat split; (left; reflexivity) || lia).
  pose proof (find_attr_range (cols (typinf o)) ty a 0) as Hrange.
  destruct (check && bool_decide (find_attr (cols (typinf o)) ty a 0 = -1)) eqn:Hc.
  - apply andb_true_iff in Hc as [_ Hc]. apply bool_decide_eq_true in Hc.
    intros [= <- <-]. simpl. repeat split; [left; exact Hc|lia].
  - intros [= <- <-]. repeat split. lia.
Qed.

Lemma ind_index_of_run o index w k w1 :
  ind_index_of o index w = Some (k, w1) ->
  w1 = w /\ forall w2, ind_index_of o index w2 = Some (k, w2).
Proof.
  unfold ind_index_of, of_option, mbind, W_bind, mret, W_ret.
  destruct (ObjectGetIndOffset (Some (typinf o)) index) as [r|]; [|discriminate].
  intros [= <- <-]. split; [reflexivity|]. intros w2. reflexivity.
Qed.

Lemma read_ind_run tab k w v w1 :
  read_ind tab k w = Some (v, w1) ->
  w1 = w /\ forall w2, inds w2 = inds w -> read_ind tab k w2 = Some (v, w2).
Proof.
  unfold read_ind. destruct (decide (0 <= k)); [|discriminate].
  destruct (inds w !! tab) as [a|] eqn:Ha; [|discriminate].
  destruct (a !! Z.to_nat k) as [x|] eqn:Hx; [|discriminate].
  intros [= <- <-]. split; [reflexivity|]. intros w2 ->. rewrite Ha, Hx.
  reflexivity.
Qed.

(** What [attr_ind] says about the two steps it is made of. *)
Lemma attr_ind_inv w o index v :
  attr_ind w o index = Some v ->
  exists k, (forall w2, ind_index_of o index w2 = Some (k, w2)) /\
            (forall w2, inds w2 = inds w -> read_ind (tab_ind o) k w2 = Some (v, w2)).
Proof.
  unfold attr_ind.
  destruct (ind_index_of o index w) as [[k w1]|] eqn:Hk; [|discriminate].
  apply ind_index_of_run in Hk as [-> Hk].
  destruct (read_ind (tab_ind o) k w) as [[x w1]|] eqn:Hx; [|discriminate].
  apply read_ind_run in Hx as [-> Hx]. intros [= <-].
  exists k. split; assumption.
Qed.

Lemma attr_ind_frame w w' o index :
  inds w' = inds w -> attr_ind w' o index = attr_ind w o index.
Proof.
  intros Hi. unfold attr_ind.
  destruct (ind_index_of o index w) as [[k w1]|] eqn:Hk.
  - apply ind_index_of_run in Hk as [-> Hk]. rewrite (Hk w').
    unfold read_ind. rewrite Hi. destruct (decide (0 <= k)); [|reflexivity].
    destruct (inds w !! tab_ind o) as [a|]; [|reflexivity].
    destruct (a !! Z.to_nat k); reflexivity.
  - destruct (ind_index_of o index w') as [[k w1]|] eqn:Hk'; [|reflexivity].
    apply ind_index_of_run in Hk' as [_ Hk']. rewrite (Hk' w) in Hk.
    discriminate.
Qed.

(** A write through the cell of an attribute. *)
Lemma write_ind_run w o index v x :
  attr_ind w o index = Some v ->
  exists k w',
    (forall w2, ind_index_of o index w2 = Some (k, w2)) /\
    write_ind (tab_ind o) k x w = Some (tt, w') /\
    attr_ind w' o index = Some x /\
    caches w' = caches w /\ mem w' = mem w /\ raised w' = raised w /\
    calls w' = calls w.
Proof.
  intros Hv. unfold attr_ind in Hv.
  destruct (ind_index_of o index w) as [[k w1]|] eqn:Hk; [|discriminate].
  apply ind_index_of_run in Hk as [-> Hk].
  unfold read_ind in Hv.
  destruct (decide (0 <= k)) as [Hk0|]; [|discriminate].
  destruct (inds w !! tab_ind o) as [a|] eqn:Ha; [|discriminate].
  destruct (a !! Z.to_nat k) as [y|] eqn:Hy; [|discriminate].
  pose proof (lookup_lt_Some _ _ _ Hy) as Hlt.
  exists k. unfold write_ind.
  rewrite (decide_True (P := 0 <= k)) by exact Hk0. rewrite Ha.
  rewrite decide_True by exact Hlt.
  eexists. split; [exact Hk|]. split; [reflexivity|].
  split; [|repeat split].
  unfold attr_ind. rewrite Hk. unfold read_ind. simpl.
  rewrite decide_True by exact Hk0. rewrite lookup_insert_eq.
  rewrite list_lookup_insert_eq by exact Hlt. reflexivity.
Qed.

(** The layout computation always returns on a well-formed descriptor. *)
Lemma ObjectGetStructSize_total t h sz al :
  consistent t -> layout_ok t = true ->
  exists r h', ObjectGetStructSize (Some t) sz al h = Some (r, h').
Proof.
  intros Hcons Hok.
  destruct (ObjectGetStructSize_twice t h sz al sz al Hcons Hok)
    as (r & h1 & _ & R1 & _).
  exists r, h1. exact R1.
Qed.

(** [ObjectGetAttr] returns the address of the attribute, at or above the
    handle, and the cell of its indicator; it may fill layout caches and
    does nothing else. *)
Lemma ObjectGetAttr_run o index w v :
  consistent (typinf o) -> layout_ok (typinf o) = true ->
  0 <= index < nb_cols (typinf o) ->
  attr_ind w o index = Some v ->
  exists data k w',
    ObjectGetAttr o index w = Some ((data, k), w') /\
    caches_only w w' /\ handle o <= data /\
    (forall w2, ind_index_of o index w2 = Some (k, w2)) /\
    read_ind (tab_ind o) k w' = Some (v, w').
Proof.
  intros Hcons Hok Hidx Hv.
  destruct (attr_ind_inv w o index v Hv) as (k & Hk & Hread).
  unfold ObjectGetAttr.
  assert (Hl : forall w, lift (get_layout (typinf o)) w
                         = Some (cache_of (caches w) (typinf o), w)).
  { intros [h i m r c]. reflexivity. }
  rewrite (wbind_run _ _ _ _ _ (Hl w)).
  assert (Hfill : exists w1,
    (if decide (struct_size (cache_of (caches w) (typinf o)) = 0)
     then _ ← lift (ObjectGetStructSize (Some (typinf o)) 0 0); mret tt
     else mret tt) w = Some (tt, w1) /\ caches_only w w1).
  { destruct (decide _) as [Hz|Hnz].
    - destruct (ObjectGetStructSize_total (typinf o) (caches w) 0 0 Hcons Hok)
        as (r & h' & Hrun).
      assert (Hlift : lift (ObjectGetStructSize (Some (typinf o)) 0 0) w
                      = Some (r, MkWorld h' (inds w) (mem w) (raised w) (calls w))).
      { unfold lift. rewrite Hrun. reflexivity. }
      eexists. rewrite (wbind_run _ _ _ _ _ Hlift).
      split; [reflexivity|]. repeat split.
    - exists w. split; [reflexivity|apply caches_only_refl]. }
  destruct Hfill as (w1 & Hfill & Hco).
  rewrite (wbind_run _ _ _ _ _ Hfill), (wbind_run _ _ _ _ _ (Hl w1)).
  rewrite decide_True by exact Hidx.
  unfold mbind at 1, W_bind at 1, mret at 1, W_ret at 1.
  rewrite (wbind_run _ _ _ _ _ (Hk w1)).
  eexists _, k, w1. split; [reflexivity|]. split; [exact Hco|].
  split; [|split; [exact Hk|apply Hread, Hco]].
  unfold size_t. pose proof (Z.mod_pos_bound
    (offset_at (cache_of (caches w1) (typinf o)) index) (2 ^ 64) ltac:(lia)). lia.
Qed.

End AccessorFacts.

(** ** Setters *)

Section SetterFacts.
Context `{Platform} `{Runtime}.

Lemma find_attr_bound o ty a :
  0 <= find_attr (cols (typinf o)) ty a 0 ->
  0 <= find_attr (cols (typinf o)) ty a 0 < nb_cols (typinf o).
Proof.
  intros Hr. destruct (find_attr_range (cols (typinf o)) ty a 0) as [Hn|Hn];
    unfold nb_cols; lia.
Qed.

(** [ObjectSetNull] on an attribute that resolves. *)
Lemma ObjectSetNull_run o attr w v :
  0 <= find_attr (cols (typinf o)) None attr 0 ->
  attr_ind w o (find_attr (cols (typinf o)) None attr 0) = Some v ->
  exists w',
    ObjectSetNull (Some o) (Some attr) w = Some (true, w') /\
    attr_ind w' o (find_attr (cols (typinf o)) None attr 0) = Some OCI_IND_NULL /\
    caches w' = caches w /\ mem w' = mem w /\ raised w' = raised w /\
    calls w' = calls w.
Proof.
  intros Hidx Hv. unfold ObjectSetNull.
  rewrite (wbind_run _ _ _ _ _ (ObjectGetAttrIndex_found o attr None true w Hidx)).
  rewrite decide_True by exact Hidx.
  destruct (write_ind_run w o _ v OCI_IND_NULL Hv)
    as (k & w' & Hk & Hw & Hafter & Hrest).
  rewrite (wbind_run _ _ _ _ _ (Hk w)), (wbind_run _ _ _ _ _ Hw).
  exists w'. split; [reflexivity|]. split; [exact Hafter|exact Hrest].
Qed.

(** C5.  A setter taking a nullable value, called with no value on an
    attribute that resolves, does what [ObjectSetNull] does: it returns
    TRUE and leaves the indicator of the attribute at [OCI_IND_NULL].  No
    native assignment is called and the native memory is not written. *)
Theorem setters_absent_value_set_null {V : Type} (datatype : OCI_CDT)
    (name : string) (func : OCI_Object -> Z -> Z -> V -> Mem -> bool * Mem)
    (assign : OCI_Object -> Z -> Z -> Wrapper -> Mem -> bool * Mem)
    (o : OCI_Object) (attr : string) (w : World) (v : Z) :
  0 <= find_attr (cols (typinf o)) None attr 0 ->
  attr_ind w o (find_attr (cols (typinf o)) None attr 0) = Some v ->
  exists w',
    ObjectSetNull (Some o) (Some attr) w = Some (true, w') /\
    OCI_OBJECT_SET_VALUE datatype name func (Some o) (Some attr) None w
    = Some (true, w') /\
    ObjectSetString (Some o) (Some attr) None w = Some (true, w') /\
    ObjectSetNumber assign (Some o) (Some attr) None w = Some (true, w') /\
    ObjectSetDate assign (Some o) (Some attr) None w = Some (true, w') /\
    ObjectSetLob assign (Some o) (Some attr) None w = Some (true, w') /\
    attr_ind w' o (find_attr (cols (typinf o)) None attr 0) = Some OCI_IND_NULL /\
    mem w' = mem w /\ calls w' = calls w /\ raised w' = raised w /\
    caches w' = caches w.
Proof.
  intros Hidx Hv.
  destruct (ObjectSetNull_run o attr w v Hidx Hv)
    as (w' & Hrun & Hafter & Hc & Hm & Hr & Hcalls).
  exists w'. repeat split; assumption.
Qed.

(** What a setter built on a native assignment does once the address and
    the indicator cell are known. *)
Lemma assign_then_mark (tab : ptr) (ind : Z) (run : W bool) w st w' :
  (forall w0 ok w1, run w0 = Some (ok, w1) ->
     inds w1 = inds w0 /\
     exists n, calls w1 = calls w0 ++ [(n, ok)]) ->
  (status ← run;
   _ ← (if (status : bool) then write_ind tab ind OCI_IND_NOTNULL else mret tt);
   mret status) w = Some (st, w') ->
  (st = false -> inds w' = inds w) /\
  exists n, calls w' = calls w ++ [(n, st)].
Proof.
  intros Hrun Hbody.
  apply wbind_inv in Hbody as (ok & w1 & R1 & Hbody).
  destruct (Hrun _ _ _ R1) as (Hi1 & n & Hc1).
  apply wbind_inv in Hbody as ([] & w2 & R2 & Hbody).
  injection Hbody as <- <-.
  destruct ok.
  - split; [discriminate|]. exists n. unfold write_ind in R2.
    destruct (decide (0 <= ind)); [|discriminate].
    destruct (inds w1 !! tab); [|discriminate].
    destruct (decide _); [|discriminate].
    injection R2 as <-. exact Hc1.
  - injection R2 as <-. split; [intros _; exact Hi1|]. exists n. exact Hc1.
Qed.

Lemma native_run name f w0 ok w1 :
  native name f w0 = Some (ok, w1) ->
  inds w1 = inds w0 /\ exists n, calls w1 = calls w0 ++ [(n, ok)].
Proof.
  unfold native. destruct (f (mem w0)) as [b m']. intros [= <- <-].
  split; [reflexivity|]. exists name. reflexivity.
Qed.

Lemma OCI_EXEC_run name f w0 ok w1 :
  OCI_EXEC name f w0 = Some (ok, w1) ->
  inds w1 = inds w0 /\ exists n, calls w1 = calls w0 ++ [(n, ok)].
Proof.
  unfold OCI_EXEC. intros Hrun.
  apply wbind_inv in Hrun as (b & w2 & R1 & Hrun).
  apply native_run in R1 as (Hi & n & Hc).
  apply wbind_inv in Hrun as ([] & w3 & R2 & Hrun).
  injection Hrun as <- <-.
  destruct b; injection R2 as <-; (split; [exact Hi|exists n; exact Hc]).
Qed.

Lemma app_singleton_neq {A} (l : list A) x : l <> l ++ [x].
Proof.
  intros Heq. apply (f_equal length) in Heq. rewrite length_app in Heq.
  simpl in Heq. lia.
Qed.

Lemma ObjectGetAttr_frame o index w r w' :
  ObjectGetAttr o index w = Some (r, w') -> caches_only w w'.
Proof.
  unfold ObjectGetAttr. intros Hrun.
  apply wbind_inv in Hrun as (l & w1 & R1 & Hrun).
  apply lift_caches_only in R1.
  apply wbind_inv in Hrun as ([] & w2 & R2 & Hrun).
  assert (C2 : caches_only w1 w2).
  { destruct (decide (struct_size l = 0)).
    - apply wbind_inv in R2 as (x & w3 & R3 & R2). injection R2 as <-.
      apply lift_caches_only in R3. exact R3.
    - injection R2 as <-. apply caches_only_refl. }
  apply wbind_inv in Hrun as (l' & w3 & R3 & Hrun).
  apply lift_caches_only in R3.
  apply wbind_inv in Hrun as (off & w4 & R4 & Hrun).
  assert (C4 : w4 = w3).
  { destruct (decide (0 <= index < nb_cols (typinf o)));
      [injection R4 as _ <-; reflexivity|discriminate]. }
  subst w4.
  apply wbind_inv in Hrun as (k & w5 & R5 & Hrun).
  apply ind_index_of_run in R5 as [-> _]. injection Hrun as _ <-.
  destruct R1 as (? & ? & ? & ?), C2 as (? & ? & ? & ?), R3 as (? & ? & ? & ?).
  repeat split; congruence.
Qed.

(** The macro setter: a run that ends with FALSE, or in which the native
    assignment failed, leaves every indicator as it was. *)
Lemma OCI_OBJECT_SET_VALUE_failed {V : Type} (datatype : OCI_CDT)
    (name : string) (func : OCI_Object -> Z -> Z -> V -> Mem -> bool * Mem)
    obj attr (value : option V) w st w' :
  OCI_OBJECT_SET_VALUE datatype name func obj attr value w = Some (st, w') ->
  st = false \/ (exists n, calls w' = calls w ++ [(n, false)]) ->
  inds w' = inds w /\ st = false.
Proof.
  unfold OCI_OBJECT_SET_VALUE. intros Hrun Hfail.
  destruct obj as [o|].
  2:{ injection Hrun as <- <-. split; reflexivity. }
  destruct value as [v|].
  - apply wbind_inv in Hrun as (index & w1 & R1 & Hrun).
    apply ObjectGetAttrIndex_frame in R1 as (_ & Hi1 & _ & Hc1 & _).
    destruct (decide (0 <= index)).
    2:{ injection Hrun as <- <-. split; [exact Hi1|reflexivity]. }
    apply wbind_inv in Hrun as ([data ind] & w2 & R2 & Hrun).
    apply ObjectGetAttr_frame in R2 as (Hi2 & _ & _ & Hc2).
    destruct (assign_then_mark (tab_ind o) ind
                (OCI_EXEC name (func o index data v)) w2 st w'
                (OCI_EXEC_run name _) Hrun) as (Hkeep & n & Hc).
    assert (Hst : st = false).
    { destruct Hfail as [Hst|(n' & Hn')]; [exact Hst|].
      rewrite Hc, Hc2, Hc1 in Hn'. apply app_inj_tail in Hn' as [_ Hn'].
      congruence. }
    split; [|exact Hst]. rewrite (Hkeep Hst). congruence.
  - (* no value: ObjectSetNull *)
    unfold ObjectSetNull in Hrun. destruct attr as [a|].
    2:{ injection Hrun as <- <-. split; reflexivity. }
    apply wbind_inv in Hrun as (index & w1 & R1 & Hrun).
    apply ObjectGetAttrIndex_frame in R1 as (_ & Hi1 & _ & Hc1 & _).
    destruct (decide (0 <= index)).
    + apply wbind_inv in Hrun as (k & w2 & R2 & Hrun).
      apply ind_index_of_run in R2 as [-> _].
      apply wbind_inv in Hrun as ([] & w3 & R3 & Hrun).
      injection Hrun as <- <-.
      assert (Hc3 : calls w3 = calls w1).
      { unfold write_ind in R3. destruct (decide (0 <= k)); [|discriminate].
        destruct (inds w1 !! tab_ind o); [|discriminate].
        destruct (decide _); [|discriminate]. injection R3 as <-. reflexivity. }
      destruct Hfail as [Hst|(n' & Hn')]; [discriminate|].
      rewrite Hc3, Hc1 in Hn'. exfalso. exact (app_singleton_neq _ _ Hn').
    + injection Hrun as <- <-.
      destruct Hfail as [Hst|(n' & Hn')]; [split; [exact Hi1|exact Hst]|].
      rewrite Hc1 in Hn'. exfalso. exact (app_singleton_neq _ _ Hn').
Qed.

Lemma ObjectSetNumberInternal_failed obj attr v flag w st w' :
  ObjectSetNumberInternal obj attr v flag w = Some (st, w') ->
  st = false \/ (exists n, calls w' = calls w ++ [(n, false)]) ->
  inds w' = inds w /\ st = false.
Proof.
  unfold ObjectSetNumberInternal. intros Hrun Hfail.
  destruct obj as [o|].
  2:{ injection Hrun as <- <-. split; reflexivity. }
  destruct attr as [a|].
  2:{ injection Hrun as <- <-. split; reflexivity. }
  apply wbind_inv in Hrun as (index & w1 & R1 & Hrun).
  apply ObjectGetAttrIndex_frame in R1 as (_ & Hi1 & _ & Hc1 & _).
  destruct (decide (0 <= index)).
  2:{ injection Hrun as <- <-. split; [exact Hi1|reflexivity]. }
  apply wbind_inv in Hrun as ([num ind] & w2 & R2 & Hrun).
  apply ObjectGetAttr_frame in R2 as (Hi2 & _ & _ & Hc2).
  apply wbind_inv in Hrun as (col & w3 & R3 & Hrun).
  assert (w3 = w2) as ->.
  { unfold of_option in R3. destruct (_ !! _); [|discriminate].
    injection R3 as _ <-. reflexivity. }
  destruct (assign_then_mark (tab_ind o) ind _ w2 st w'
              (native_run "TranslateNumericValue" _) Hrun) as (Hkeep & n & Hc).
  assert (Hst : st = false).
  { destruct Hfail as [Hst|(n' & Hn')]; [exact Hst|].
    rewrite Hc, Hc2, Hc1 in Hn'. apply app_inj_tail in Hn' as [_ Hn'].
    congruence. }
  split; [|exact Hst]. rewrite (Hkeep Hst). congruence.
Qed.

(** The macro setter on an attribute that resolves, when the native
    assignment fails: the call returns FALSE, the failure is recorded and
    no indicator is written. *)
Lemma OCI_OBJECT_SET_VALUE_native_fails {V : Type} (datatype : OCI_CDT)
    (name : string) (func : OCI_Object -> Z -> Z -> V -> Mem -> bool * Mem)
    o attr (x : V) w v0 :
  let index := find_attr (cols (typinf o)) (Some datatype) attr 0 in
  consistent (typinf o) -> layout_ok (typinf o) = true ->
  0 <= index -> attr_ind w o index = Some v0 ->
  (forall data, (func o index data x (mem w)).1 = false) ->
  exists w',
    OCI_OBJECT_SET_VALUE datatype name func (Some o) (Some attr) (Some x) w
    = Some (false, w') /\
    calls w' = calls w ++ [(name, false)] /\
    raised w' = raised w ++ [ExceptionOCI name] /\
    inds w' = inds w.
Proof.
  intros index Hcons Hok Hidx Hv Hfail.
  destruct (ObjectGetAttr_run o index w v0 Hcons Hok
              (find_attr_bound o _ attr Hidx) Hv)
    as (data & k & w1 & Hattr & (Hi & Hm & Hr & Hc) & _).
  unfold OCI_OBJECT_SET_VALUE.
  rewrite (wbind_run _ _ _ _ _
             (ObjectGetAttrIndex_found o attr (Some datatype) true w Hidx)).
  fold index. rewrite decide_True by exact Hidx.
  rewrite (wbind_run _ _ _ _ _ Hattr). cbn beta iota.
  specialize (Hfail data). rewrite <- Hm in Hfail.
  unfold OCI_EXEC, native, mbind, W_bind, mret, W_ret, raise.
  destruct (func o index data x (mem w1)) as [b m']. simpl in Hfail. subst b.
  eexists. split; [reflexivity|]. simpl. rewrite Hc, Hr, Hi.
  repeat split; reflexivity.
Qed.

(** The same for [ObjectSetNumberInternal], whose native assignment is the
    translation of the caller's number. *)
Lemma ObjectSetNumberInternal_native_fails o attr v flag w v0 :
  let index := find_attr (cols (typinf o)) (Some OCI_CDT_NUMERIC) attr 0 in
  consistent (typinf o) -> layout_ok (typinf o) = true ->
  0 <= index -> attr_ind w o index = Some v0 ->
  (forall num st, (TranslateNumericValue_in v flag num st (mem w)).1 = false) ->
  exists w',
    ObjectSetNumberInternal (Some o) (Some attr) v flag w = Some (false, w') /\
    calls w' = calls w ++ [("TranslateNumericValue"%string, false)] /\
    raised w' = raised w /\
    inds w' = inds w.
Proof.
  intros index Hcons Hok Hidx Hv Hfail.
  pose proof (find_attr_bound o _ attr Hidx) as Hb. fold index in Hb.
  destruct (ObjectGetAttr_run o index w v0 Hcons Hok Hb Hv)
    as (data & k & w1 & Hattr & (Hi & Hm & Hr & Hc) & _).
  destruct (cols (typinf o) !! Z.to_nat index) as [col|] eqn:Hcol.
  2:{ apply lookup_ge_None in Hcol. unfold nb_cols in Hb. lia. }
  unfold ObjectSetNumberInternal.
  rewrite (wbind_run _ _ _ _ _
             (ObjectGetAttrIndex_found o attr (Some OCI_CDT_NUMERIC) true w Hidx)).
  fold index. rewrite decide_True by exact Hidx.
  rewrite (wbind_run _ _ _ _ _ Hattr). cbn beta iota.
  rewrite Hcol.
  specialize (Hfail data (col_subtype col)). rewrite <- Hm in Hfail.
  unfold of_option, native, mbind, W_bind, mret, W_ret.
  destruct (TranslateNumericValue_in v flag data (col_subtype col) (mem w1))
    as [b m']. simpl in Hfail. subst b.
  eexists. split; [reflexivity|]. simpl. rewrite Hc, Hr, Hi.
  repeat split; reflexivity.
Qed.


End SetterFacts.

(** ** Getters *)

Section GetterFacts.
Context `{Platform} `{Runtime}.

(** The pieces every getter starts with, on an attribute that resolves to
    [index] and whose indicator holds [v]. *)
Lemma getter_prelude o attr ty check w v :
  let index := find_attr (cols (typinf o)) ty attr 0 in
  consistent (typinf o) -> layout_ok (typinf o) = true ->
  0 <= index -> attr_ind w o index = Some v ->
  ObjectGetAttrIndex (Some o) (Some attr) ty check w = Some (index, w) /\
  exists data k w',
    ObjectGetAttr o index w = Some ((data, k), w') /\
    caches_only w w' /\ handle o <= data /\
    read_ind (tab_ind o) k w' = Some (v, w').
Proof.
  intros index Hcons Hok Hidx Hv.
  split; [apply ObjectGetAttrIndex_found, Hidx|].
  destruct (ObjectGetAttr_run o index w v Hcons Hok
              (find_attr_bound o ty attr Hidx) Hv)
    as (data & k & w' & Hrun & Hco & Hdata & _ & Hread).
  exists data, k, w'. repeat split; try assumption; apply Hco.
Qed.

(** [OCI_OBJECT_GET_VALUE] on a null attribute. *)
Lemma OCI_OBJECT_GET_VALUE_null datatype func o attr w :
  let index := find_attr (cols (typinf o)) (Some datatype) attr 0 in
  consistent (typinf o) -> layout_ok (typinf o) = true ->
  0 <= index -> attr_ind w o index = Some OCI_IND_NULL ->
  exists w',
    OCI_OBJECT_GET_VALUE datatype func (Some o) (Some attr) w
    = Some ((None, true, Some o), w') /\ caches_only w w'.
Proof.
  intros index Hcons Hok Hidx Hv.
  destruct (getter_prelude o attr (Some datatype) true w _ Hcons Hok Hidx Hv)
    as (Hfind & data & k & w' & Hattr & Hco & Hdata & Hread).
  exists w'. split; [|exact Hco]. unfold OCI_OBJECT_GET_VALUE.
  rewrite (wbind_run _ _ _ _ _ Hfind). fold index.
  rewrite decide_True by exact Hidx.
  rewrite (wbind_run _ _ _ _ _ Hattr). cbn beta iota.
  destruct (decide (data = 0)); [reflexivity|].
  rewrite (wbind_run _ _ _ _ _ Hread).
  rewrite decide_False by (intros Hne; apply Hne; reflexivity). reflexivity.
Qed.

(** [ObjectGetBoolean] in general: the stored value unless the indicator
    is [OCI_IND_NULL]. *)
Lemma ObjectGetBoolean_run o attr w v :
  let index := find_attr (cols (typinf o)) (Some OCI_CDT_BOOLEAN) attr 0 in
  consistent (typinf o) -> layout_ok (typinf o) = true ->
  0 <= index -> attr_ind w o index = Some v -> 0 < handle o ->
  exists data k w',
    ObjectGetAttr o index w = Some ((data, k), w') /\ caches_only w w' /\
    ObjectGetBoolean (Some o) (Some attr) w
    = Some ((if decide (OCI_IND_NULL <> v) then load_boolean (mem w) data else 0,
             true), w').
Proof.
  intros index Hcons Hok Hidx Hv Hh.
  destruct (getter_prelude o attr (Some OCI_CDT_BOOLEAN) true w _ Hcons Hok Hidx Hv)
    as (Hfind & data & k & w' & Hattr & Hco & Hdata & Hread).
  exists data, k, w'. split; [exact Hattr|]. split; [exact Hco|].
  unfold ObjectGetBoolean.
  rewrite (wbind_run _ _ _ _ _ Hfind). fold index.
  rewrite decide_True by exact Hidx.
  rewrite (wbind_run _ _ _ _ _ Hattr). cbn beta iota.
  rewrite decide_False by lia.
  rewrite (wbind_run _ _ _ _ _ Hread).
  destruct (decide (OCI_IND_NULL <> v)); [|reflexivity].
  unfold mbind, W_bind, read_mem. destruct Hco as (_ & -> & _). reflexivity.
Qed.

Lemma ObjectGetBoolean_null o attr w :
  let index := find_attr (cols (typinf o)) (Some OCI_CDT_BOOLEAN) attr 0 in
  consistent (typinf o) -> layout_ok (typinf o) = true ->
  0 <= index -> attr_ind w o index = Some OCI_IND_NULL ->
  exists w',
    ObjectGetBoolean (Some o) (Some attr) w = Some ((0, true), w') /\
    caches_only w w'.
Proof.
  intros index Hcons Hok Hidx Hv.
  destruct (getter_prelude o attr (Some OCI_CDT_BOOLEAN) true w _ Hcons Hok Hidx Hv)
    as (Hfind & data & k & w' & Hattr & Hco & Hdata & Hread).
  exists w'. split; [|exact Hco]. unfold ObjectGetBoolean.
  rewrite (wbind_run _ _ _ _ _ Hfind). fold index.
  rewrite decide_True by exact Hidx.
  rewrite (wbind_run _ _ _ _ _ Hattr). cbn beta iota.
  destruct (decide (data = 0)); [reflexivity|].
  rewrite (wbind_run _ _ _ _ _ Hread).
  rewrite decide_False by (intros Hne; apply Hne; reflexivity). reflexivity.
Qed.

(** [ObjectGetNumberInternal] on a null numeric attribute: the caller's
    variable is left alone and the call returns FALSE. *)
Lemma ObjectGetNumberInternal_null o attr v0 flag w :
  let index := find_attr (cols (typinf o)) (Some OCI_CDT_NUMERIC) attr 0 in
  consistent (typinf o) -> layout_ok (typinf o) = true ->
  0 <= index -> attr_ind w o index = Some OCI_IND_NULL ->
  exists data k w',
    ObjectGetAttr o index w = Some ((data, k), w') /\
    ObjectGetNumberInternal (Some o) (Some attr) v0 flag w
    = Some ((false, v0), w') /\ caches_only w w'.
Proof.
  intros index Hcons Hok Hidx Hv.
  destruct (getter_prelude o attr (Some OCI_CDT_NUMERIC) false w _ Hcons Hok Hidx Hv)
    as (Hfind & data & k & w' & Hattr & Hco & Hdata & Hread).
  exists data, k, w'. split; [exact Hattr|]. split; [|exact Hco].
  unfold ObjectGetNumberInternal.
  rewrite (wbind_run _ _ _ _ _ Hfind). fold index.
  rewrite decide_True by exact Hidx.
  rewrite (wbind_run _ _ _ _ _ Hattr). cbn beta iota.
  destruct (decide (data = 0)); [reflexivity|].
  rewrite (wbind_run _ _ _ _ _ Hread).
  rewrite decide_False by (intros Hne; apply Hne; reflexivity). reflexivity.
Qed.


(** [ObjectIsNull] on an attribute that resolves: TRUE unless the
    indicator is [OCI_IND_NOTNULL]. *)
Lemma ObjectIsNull_run o attr w v :
  let index := find_attr (cols (typinf o)) None attr 0 in
  0 <= index -> attr_ind w o index = Some v ->
  ObjectIsNull (Some o) (Some attr) w
  = Some (negb (bool_decide (OCI_IND_NOTNULL = v)), w).
Proof.
  intros index Hidx Hv. unfold ObjectIsNull.
  rewrite (wbind_run _ _ _ _ _ (ObjectGetAttrIndex_found o attr None true w Hidx)).
  fold index. rewrite decide_True by exact Hidx.
  destruct (attr_ind_inv w o index v Hv) as (k & Hk & Hread).
  rewrite (wbind_run _ _ _ _ _ (Hk w)), (wbind_run _ _ _ _ _ (Hread w eq_refl)).
  reflexivity.
Qed.

(** [OCI_OBJECT_GET_VALUE] in general: the wrapper [func] builds unless
    the indicator is [OCI_IND_NULL]. *)
Lemma OCI_OBJECT_GET_VALUE_run datatype func o attr w v :
  let index := find_attr (cols (typinf o)) (Some datatype) attr 0 in
  consistent (typinf o) -> layout_ok (typinf o) = true ->
  0 <= index -> attr_ind w o index = Some v -> 0 < handle o ->
  exists data k w',
    ObjectGetAttr o index w = Some ((data, k), w') /\ caches_only w w' /\
    OCI_OBJECT_GET_VALUE datatype func (Some o) (Some attr) w
    = if decide (OCI_IND_NULL <> v) then
        Some (((func o index data (mem w)).1,
               bool_decide ((func o index data (mem w)).1 <> None),
               Some (set_objs o index (func o index data (mem w)).1)),
              MkWorld (caches w') (inds w') (func o index data (mem w)).2
                      (raised w') (calls w'))
      else Some ((None, true, Some o), w').
Proof.
  intros index Hcons Hok Hidx Hv Hh.
  destruct (getter_prelude o attr (Some datatype) true w _ Hcons Hok Hidx Hv)
    as (Hfind & data & k & w' & Hattr & Hco & Hdata & Hread).
  exists data, k, w'. split; [exact Hattr|]. split; [exact Hco|].
  unfold OCI_OBJECT_GET_VALUE.
  rewrite (wbind_run _ _ _ _ _ Hfind). fold index.
  rewrite decide_True by exact Hidx.
  rewrite (wbind_run _ _ _ _ _ Hattr). cbn beta iota.
  rewrite decide_False by lia.
  rewrite (wbind_run _ _ _ _ _ Hread).
  destruct (decide (OCI_IND_NULL <> v)); [|reflexivity].
  unfold mbind, W_bind, with_mem. destruct Hco as (_ & -> & _).
  destruct (func o index data (mem w)) as [r m']. reflexivity.
Qed.

(** C10.  [ObjectIsNull] tests the indicator against [OCI_IND_NOTNULL],
    the value getters test it against [OCI_IND_NULL]: on an attribute whose
    indicator holds [v], [ObjectIsNull] returns [v != OCI_IND_NOTNULL]
    while [ObjectGetBoolean] returns the stored value, and a getter built
    on [OCI_OBJECT_GET_VALUE] the wrapper of the stored value, whenever
    [v != OCI_IND_NULL].  Hence with an indicator that is neither,
    [ObjectIsNull] returns TRUE and the getter still returns what is stored
    at the address of the attribute. *)
Theorem IsNull_and_getters_disagree (o : OCI_Object) (attr : string)
    (w : World) (v : Z) :
  let index := find_attr (cols (typinf o)) None attr 0 in
  consistent (typinf o) -> layout_ok (typinf o) = true ->
  0 <= index -> 0 < handle o ->
  attr_ind w o index = Some v ->
  ObjectIsNull (Some o) (Some attr) w
  = Some (negb (bool_decide (OCI_IND_NOTNULL = v)), w) /\
  (find_attr (cols (typinf o)) (Some OCI_CDT_BOOLEAN) attr 0 = index ->
   exists data k w',
     ObjectGetAttr o index w = Some ((data, k), w') /\
     ObjectGetBoolean (Some o) (Some attr) w
     = Some ((if decide (OCI_IND_NULL <> v) then load_boolean (mem w) data else 0,
              true), w') /\
     (v <> OCI_IND_NULL -> v <> OCI_IND_NOTNULL ->
      ObjectIsNull (Some o) (Some attr) w = Some (true, w) /\
      ObjectGetBoolean (Some o) (Some attr) w
      = Some ((load_boolean (mem w) data, true), w'))) /\
  (forall datatype func,
   find_attr (cols (typinf o)) (Some datatype) attr 0 = index ->
   exists data k w',
     ObjectGetAttr o index w = Some ((data, k), w') /\
     (v <> OCI_IND_NULL -> v <> OCI_IND_NOTNULL ->
      ObjectIsNull (Some o) (Some attr) w = Some (true, w) /\
      OCI_OBJECT_GET_VALUE datatype func (Some o) (Some attr) w
      = Some (((func o index data (mem w)).1,
               bool_decide ((func o index data (mem w)).1 <> None),
               Some (set_objs o index (func o index data (mem w)).1)),
              MkWorld (caches w') (inds w') (func o index data (mem w)).2
                      (raised w') (calls w')))).
Proof.
  intros index Hcons Hok Hidx Hh Hv.
  pose proof (ObjectIsNull_run o attr w v Hidx Hv) as Hnull.
  assert (Htrue : v <> OCI_IND_NOTNULL ->
                  ObjectIsNull (Some o) (Some attr) w = Some (true, w)).
  { intros Hnn. rewrite Hnull. rewrite bool_decide_eq_false_2 by congruence.
    reflexivity. }
  split; [exact Hnull|]. split.
  - intros Hsame.
    destruct (ObjectGetBoolean_run o attr w v Hcons Hok
                ltac:(rewrite Hsame; exact Hidx)
                ltac:(rewrite Hsame; exact Hv) Hh)
      as (data & k & w' & Hattr & _ & Hget).
    rewrite Hsame in Hattr.
    exists data, k, w'. split; [exact Hattr|]. split; [exact Hget|].
    intros Hn Hnn. split; [exact (Htrue Hnn)|].
    rewrite Hget. rewrite decide_True by congruence. reflexivity.
  - intros datatype func Hsame.
    destruct (OCI_OBJECT_GET_VALUE_run datatype func o attr w v Hcons Hok
                ltac:(rewrite Hsame; exact Hidx)
                ltac:(rewrite Hsame; exact Hv) Hh)
      as (data & k & w' & Hattr & _ & Hget).
    rewrite Hsame in Hattr, Hget.
    exists data, k, w'. split; [exact Hattr|].
    intros Hn Hnn. split; [exact (Htrue Hnn)|].
    rewrite Hget. rewrite decide_True by congruence. reflexivity.
Qed.

End GetterFacts.

(** ** ObjectGetRealTypeInfo: the fast path *)

Section RealTypeInfoFacts.
Context `{TypeRuntime}.

Lemma exec_log {A} name (f : bool * A) dflt s :
  exists l, snd (snd (exec name f dflt s)) = snd s ++ l.
Proof.
  unfold exec. destruct (fst s); simpl.
  - exists [name]. reflexivity.
  - exists []. rewrite app_nil_r. reflexivity.
Qed.

(** C8.  When the declared type is final, when no instance handle is
    given, and also when the descriptor is not that of an object type,
    [ObjectGetRealTypeInfo] returns the declared descriptor and calls
    nothing; a [NULL] descriptor comes back as it is.  Conversely a run
    that calls anything was given a non-null handle and a non-final object
    type, and such a run always starts with [MemObjectNew]. *)
Theorem ObjectGetRealTypeInfo_fast_path (t : OCI_TypeInfo) (object : Z) :
  (is_final t = true \/ object = 0 \/ ti_type t <> OCI_TIF_TYPE ->
   ObjectGetRealTypeInfo (Some t) object = Some (Some t, [])) /\
  ObjectGetRealTypeInfo None object = Some (None, []) /\
  (forall r log,
     ObjectGetRealTypeInfo (Some t) object = Some (r, log) -> log <> [] ->
     object <> 0 /\ ti_type t = OCI_TIF_TYPE /\ is_final t = false) /\
  (object <> 0 -> ti_type t = OCI_TIF_TYPE -> is_final t = false ->
   forall r log,
     ObjectGetRealTypeInfo (Some t) object = Some (r, log) ->
     exists l, log = "MemObjectNew"%string :: l).
Proof.
  split; [|split; [reflexivity|split]].
  - intros Hfast. unfold ObjectGetRealTypeInfo.
    destruct Hfast as [Hf|[Ho|Ht]].
    + rewrite Hf, andb_false_r. reflexivity.
    + rewrite (bool_decide_eq_false_2 (object <> 0)) by (intros Hn; apply Hn, Ho).
      reflexivity.
    + rewrite (bool_decide_eq_false_2 (ti_type t = OCI_TIF_TYPE)) by exact Ht.
      rewrite andb_false_r. reflexivity.
  - intros r log Hrun Hlog. unfold ObjectGetRealTypeInfo in Hrun.
    destruct (bool_decide (object <> 0) && bool_decide (ti_type t = OCI_TIF_TYPE)
              && negb (is_final t)) eqn:Hc.
    + apply andb_true_iff in Hc as [Hc Hf]. apply andb_true_iff in Hc as [Ho Ht].
      apply bool_decide_eq_true in Ho, Ht. apply negb_true_iff in Hf.
      split; [exact Ho|]. split; assumption.
    + injection Hrun as <- <-. contradiction.
  - intros Ho Ht Hf r log. unfold ObjectGetRealTypeInfo.
    rewrite (bool_decide_eq_true_2 _ Ho), (bool_decide_eq_true_2 _ Ht), Hf.
    cbn [andb negb]. unfold exec at 1. cbn [fst snd app].
    set (s1 := (fst MemObjectNew, ["MemObjectNew"%string])).
    destruct (exec "OCIObjectGetTypeRef" _ tt s1) as [u s2] eqn:E2.
    destruct (exec "OCITypeByRef" _ 0 s2) as [tdo_ s3] eqn:E3.
    assert (H3 : exists l, snd s3 = "MemObjectNew"%string :: l).
    { destruct (exec_log "OCIObjectGetTypeRef"
                  (OCIObjectGetTypeRef object (snd MemObjectNew), tt) tt s1) as [l2 H2].
      destruct (exec_log "OCITypeByRef" (OCITypeByRef (snd MemObjectNew)) 0 s2)
        as [l3 H3].
      rewrite E2 in H2. rewrite E3 in H3. simpl in H2, H3.
      exists (l2 ++ l3). rewrite H3, H2. reflexivity. }
    destruct H3 as [l3 H3].
    assert (Hdesc : forall s, (exists l, snd s = "MemObjectNew"%string :: l) ->
              exists l, snd (snd (describe_real_type t tdo_ s))
                        = "MemObjectNew"%string :: l).
    { intros s [l Hs]. unfold describe_real_type.
      repeat match goal with
             | |- context [exec ?n ?f ?d ?x] =>
                 let u := fresh "u" in let y := fresh "s" in
                 let E := fresh "E" in let L := fresh "L" in
                 destruct (exec_log n f d x) as [? L];
                 destruct (exec n f d x) as [u y] eqn:E; simpl in L
             | |- context [if fst ?x then _ else _] => destruct (fst x)
             end;
        unfold call in *; simpl in *;
        repeat match goal with Hx : snd _ = _ |- _ => rewrite Hx end;
        rewrite ?Hs; simpl; eexists; reflexivity. }
    destruct (bool_decide (tdo_ <> 0) && bool_decide (tdo_ <> tdo t)).
    + destruct (ListExists tdo_).
      * intros [= <- <-]. unfold call. simpl. rewrite H3. simpl.
        eexists. reflexivity.
      * destruct (Hdesc (call "ListExists" s3)) as [l Hl].
        { unfold call. simpl. rewrite H3. simpl. eexists. reflexivity. }
        destruct (describe_real_type t tdo_ (call "ListExists" s3)) as [[r'|] s4];
          [|discriminate].
        intros [= <- <-]. unfold call. simpl in *. rewrite Hl. simpl.
        eexists. reflexivity.
    + intros [= <- <-]. unfold call. simpl. rewrite H3. simpl.
      eexists. reflexivity.
Qed.

End RealTypeInfoFacts.

(* ===================================================================== *)
(** ** The hash table *)
(* ===================================================================== *)

Section HashFacts.
Context `{Runtime}.
Variable otoupper : ascii -> Z.

Lemma ostrcasecmp_same k k' x :
  same_key k k' -> ostrcasecmp_eq x k = ostrcasecmp_eq x k'.
Proof. unfold ostrcasecmp_eq, same_key. intros ->. reflexivity. Qed.

Lemma hash_loop_same :
  otoupper_folds otoupper ->
  forall k k' h, same_key k k' -> hash_loop otoupper k h = hash_loop otoupper k' h.
Proof.
  intros Hup. unfold same_key.
  induction k as [|c k IH]; intros [|d k'] h Hs; simpl in Hs; try discriminate;
    [reflexivity|].
  injection Hs as Hc Hk. simpl. rewrite (Hup c d Hc). apply IH, Hk.
Qed.

Lemma find_entry_keys es es' k : forall j,
  map he_key es = map he_key es' -> find_entry es k j = find_entry es' k j.
Proof.
  revert es'. induction es as [|e es IH]; intros [|e' es'] j Hm;
    simpl in Hm; try discriminate; [reflexivity|].
  injection Hm as He Hm. simpl. rewrite He.
  destruct (he_key e') as [x|]; [|reflexivity].
  destruct (ostrcasecmp_eq x k); [reflexivity|]. apply IH, Hm.
Qed.

Lemma find_entry_range es k : forall j r,
  find_entry es k j = Some (Some r) ->
  (j <= r < j + length es)%nat /\
  exists e x, es !! (r - j)%nat = Some e /\ he_key e = Some x /\
              ostrcasecmp_eq x k = true.
Proof.
  induction es as [|e es IH]; intros j r Hf; simpl in Hf; [discriminate|].
  destruct (he_key e) as [x|] eqn:Hk; [|discriminate].
  destruct (ostrcasecmp_eq x k) eqn:Hc.
  - injection Hf as <-. split; [simpl; lia|].
    exists e, x. rewrite Nat.sub_diag. repeat split; assumption.
  - destruct (IH _ _ Hf) as (Hr & e' & x' & He' & Hk' & Hc').
    split; [simpl; lia|]. exists e', x'.
    replace (r - j)%nat with (S (r - S j)) by lia. repeat split; assumption.
Qed.

Lemma find_entry_none es k : forall j,
  find_entry es k j = Some None ->
  forall e, e ∈ es -> exists x, he_key e = Some x /\ ostrcasecmp_eq x k = false.
Proof.
  induction es as [|e es IH]; intros j Hf e' He'; [inversion He'|].
  simpl in Hf. destruct (he_key e) as [x|] eqn:Hk; [|discriminate].
  destruct (ostrcasecmp_eq x k) eqn:Hc; [discriminate|].
  apply elem_of_cons in He' as [->|He']; [exists x; split; assumption|].
  eapply IH; eassumption.
Qed.

Lemma find_entry_total es k : forall j,
  (forall e, e ∈ es -> exists x, he_key e = Some x) ->
  exists r, find_entry es k j = Some r.
Proof.
  induction es as [|e es IH]; intros j Hk; simpl; [eexists; reflexivity|].
  destruct (Hk e ltac:(left)) as [x ->].
  destruct (ostrcasecmp_eq x k); [eexists; reflexivity|].
  apply IH. intros e' He'. apply Hk. right. exact He'.
Qed.

Lemma find_entry_snoc es e x k : forall j,
  he_key e = Some x ->
  find_entry (es ++ [e]) k j =
  match find_entry es k j with
  | Some None =>
      if ostrcasecmp_eq x k then Some (Some (j + length es)%nat) else Some None
  | r => r
  end.
Proof.
  induction es as [|e0 es IH]; intros j Hx; simpl.
  - rewrite Hx, Nat.add_0_r. destruct (ostrcasecmp_eq x k); reflexivity.
  - destruct (he_key e0) as [x0|]; [|reflexivity].
    destruct (ostrcasecmp_eq x0 k); [reflexivity|].
    rewrite (IH (S j) Hx). replace (S j + length es)%nat with (j + S (length es))%nat by lia.
    reflexivity.
Qed.

(** *** What [HashLookup] and [HashAdd] do on a well-formed table *)

Lemma hash_wf_bucket t k :
  hash_wf otoupper t ->
  exists i es, HashCompute otoupper (Some t) (Some k) = Some i /\
               0 <= i < ht_size t /\ ht_items t !! Z.to_nat i = Some es /\
               exists r, find_entry es k 0 = Some r.
Proof.
  intros (Hpos & Hlen & Hes). unfold HashCompute.
  rewrite decide_False by lia.
  pose proof (Z.mod_pos_bound (hash_loop otoupper k 0) (ht_size t) Hpos) as Hb.
  destruct (ht_items t !! Z.to_nat (hash_loop otoupper k 0 mod ht_size t))
    as [es|] eqn:Hl.
  2:{ apply lookup_ge_None in Hl. lia. }
  eexists _, es. split; [reflexivity|]. split; [exact Hb|]. split; [exact Hl|].
  apply find_entry_total. intros e He.
  destruct (Hes _ _ _ Hl He) as (x & Hx & _). exists x. exact Hx.
Qed.

Lemma next_alloc_true a :
  Forall (fun b => b = true) a ->
  exists a', next_alloc a = (true, a') /\ Forall (fun b => b = true) a'.
Proof.
  intros Ha. destruct a as [|b a]; [exists []; split; [reflexivity|constructor]|].
  apply Forall_cons in Ha as [-> Ha]. exists a. split; [reflexivity|exact Ha].
Qed.

Lemma stored_value_true type v a :
  variant_ok type v -> Forall (fun b => b = true) a ->
  exists a', stored_value type v a = Some (v, a') /\ Forall (fun b => b = true) a'.
Proof.
  intros Hv Ha.
  destruct type, v as [[s|]| |]; simpl in Hv; try contradiction;
    try (exists a; split; [reflexivity|exact Ha]).
  simpl. destruct (next_alloc_true a Ha) as (a' & -> & Ha').
  exists a'. split; [reflexivity|exact Ha'].
Qed.

Lemma HashCompute_size t t' k :
  ht_size t' = ht_size t ->
  HashCompute otoupper (Some t') k = HashCompute otoupper (Some t) k.
Proof. intros Hs. unfold HashCompute. rewrite Hs. reflexivity. Qed.

(** The chain of a bucket once [HashAdd] has hooked [v] under [k]: at the
    end of the values of the entry found, or as the one value of a new
    entry at the end of the chain. *)
Lemma HashAdd_run t k v a :
  call_enter_status = true -> hash_wf otoupper t ->
  variant_ok (ht_type t) v -> Forall (fun b => b = true) a ->
  exists i es r a',
    HashCompute otoupper (Some t) (Some k) = Some i /\ 0 <= i < ht_size t /\
    ht_items t !! Z.to_nat i = Some es /\
    find_entry es k 0 = Some r /\
    HashAdd otoupper (Some t) (Some k) v (ht_type t) a =
      Some (true,
            Some (set_bucket t i
                    match r with
                    | Some j =>
                        alter (fun e => HashEntry (he_key e) (he_values e ++ [v])) j es
                    | None => es ++ [HashEntry (Some k) [v]]
                    end), a') /\
    Forall (fun b => b = true) a'.
Proof.
  intros Hst Hwf Hv Ha.
  destruct (hash_wf_bucket t k Hwf) as (i & es & Hi & Hb & Hes & r & Hr).
  unfold HashAdd. rewrite decide_False by (intros Hne; apply Hne; reflexivity).
  unfold HashLookup. rewrite Hi. cbn [mbind option_bind].
  rewrite decide_True by lia. rewrite Hes. cbn [mbind option_bind].
  rewrite Hr. cbn [mbind option_bind].
  destruct r as [j|].
  - (* the key is there *)
    rewrite Hst. cbn [mbind option_bind].
    destruct (next_alloc_true a Ha) as (a1 & -> & Ha1).
    destruct (stored_value_true _ v a1 Hv Ha1) as (a2 & -> & Ha2).
    cbn [mbind option_bind]. unfold add_value. rewrite Hes. cbn [mbind option_bind].
    destruct (find_entry_range _ _ _ _ Hr) as (Hj & e & x & He & _).
    rewrite Nat.sub_0_r in He. rewrite He. cbn [mbind option_bind].
    assert (Hl : <[j := HashEntry (he_key e) (he_values e ++ [v])]> es
                 = alter (fun e => HashEntry (he_key e) (he_values e ++ [v])) j es).
    { apply list_eq. intros n. destruct (decide (n = j)) as [->|Hn].
      - rewrite list_lookup_alter_eq, list_lookup_insert_eq
          by (apply lookup_lt_Some in He; exact He).
        rewrite He. reflexivity.
      - rewrite list_lookup_alter_ne, list_lookup_insert_ne by congruence.
        reflexivity. }
    rewrite Hl.
    exists i, es, (Some j), a2. repeat split; try assumption; try lia.
  - (* a new entry *)
    destruct (next_alloc_true a Ha) as (a1 & -> & Ha1).
    destruct (next_alloc_true a1 Ha1) as (a2 & -> & Ha2).
    cbn [mbind option_bind].
    destruct (next_alloc_true a2 Ha2) as (a3 & -> & Ha3).
    cbn [ht_type set_bucket].
    destruct (stored_value_true _ v a3 Hv Ha3) as (a4 & -> & Ha4).
    cbn [mbind option_bind]. unfold add_value. cbn [ht_items set_bucket].
    assert (Hlt : (Z.to_nat i < length (ht_items t))%nat).
    { apply lookup_lt_Some in Hes. exact Hes. }
    rewrite list_lookup_insert_eq by exact Hlt. cbn [mbind option_bind].
    rewrite lookup_app_r, Nat.sub_diag by lia. cbn [lookup list_lookup mbind option_bind].
    assert (Hl : <[length es := HashEntry (Some k) ([] ++ [v])]>
                   (es ++ [HashEntry (Some k) []])
                 = es ++ [HashEntry (Some k) [v]]).
    { rewrite insert_app_r_alt, Nat.sub_diag by lia. reflexivity. }
    cbn [he_key he_values]. rewrite Hl.
    unfold set_bucket at 1. cbn [ht_type ht_size ht_count ht_items set_bucket].
    rewrite list_insert_insert_eq.
    exists i, es, None, a4. repeat split; try assumption; try lia.
Qed.

(** [HashGetValue] on a well-formed table: the values of the first entry
    of the bucket whose key compares equal. *)
Lemma HashGetValue_run t k :
  call_enter_status = true -> hash_wf otoupper t ->
  exists i es r,
    HashCompute otoupper (Some t) (Some k) = Some i /\ 0 <= i < ht_size t /\
    ht_items t !! Z.to_nat i = Some es /\
    find_entry es k 0 = Some r /\
    HashGetValue otoupper (Some t) (Some k) =
      Some match r with
           | Some j => default [] (he_values <$> es !! j)
           | None => []
           end.
Proof.
  intros Hst Hwf.
  destruct (hash_wf_bucket t k Hwf) as (i & es & Hi & Hb & Hes & r & Hr).
  exists i, es, r. split; [exact Hi|]. split; [exact Hb|]. split; [exact Hes|].
  split; [exact Hr|].
  unfold HashGetValue, HashLookup. rewrite Hi. cbn [mbind option_bind].
  rewrite decide_True by lia. rewrite Hes. cbn [mbind option_bind].
  rewrite Hr. cbn [mbind option_bind].
  destruct r as [j|]; [|reflexivity].
  rewrite Hst. cbn [mbind option_bind]. rewrite Hes. cbn [mbind option_bind].
  destruct (find_entry_range _ _ _ _ Hr) as (_ & e & x & He & _).
  rewrite Nat.sub_0_r in He. rewrite He. reflexivity.
Qed.

Lemma set_bucket_wf t i es es' :
  hash_wf otoupper t -> 0 <= i < ht_size t ->
  ht_items t !! Z.to_nat i = Some es ->
  (forall e, e ∈ es' ->
     exists k, he_key e = Some k /\
               HashCompute otoupper (Some t) (Some k) = Some i /\
               forall v, v ∈ he_values e -> variant_ok (ht_type t) v) ->
  hash_wf otoupper (set_bucket t i es').
Proof.
  intros (Hpos & Hlen & Hes) Hi Hl Hnew. split; [exact Hpos|].
  split; [cbn; rewrite length_insert; exact Hlen|].
  intros n es0 e Hn He. cbn [ht_items set_bucket] in Hn.
  destruct (decide (n = Z.to_nat i)) as [->|Hne].
  - rewrite list_lookup_insert_eq in Hn by (apply lookup_lt_Some in Hl; exact Hl).
    injection Hn as <-. destruct (Hnew e He) as (k & Hk & Hc & Hv).
    exists k. split; [exact Hk|]. split; [|exact Hv].
    rewrite (HashCompute_size t (set_bucket t i es') (Some k) eq_refl), Hc.
    f_equal. lia.
  - rewrite list_lookup_insert_ne in Hn by congruence.
    destruct (Hes n es0 e Hn He) as (k & Hk & Hc & Hv).
    exists k. split; [exact Hk|]. split; [|exact Hv].
    rewrite (HashCompute_size t (set_bucket t i es') (Some k) eq_refl). exact Hc.
Qed.

(** [HashAdd] in full on a well-formed table, with an allocator that
    delivers. *)
Lemma HashAdd_effect t k v a :
  call_enter_status = true -> hash_wf otoupper t ->
  variant_ok (ht_type t) v -> Forall (fun b => b = true) a ->
  exists t' a' vals,
    HashAdd otoupper (Some t) (Some k) v (ht_type t) a = Some (true, Some t', a') /\
    hash_wf otoupper t' /\
    ht_type t' = ht_type t /\ ht_size t' = ht_size t /\ ht_count t' = ht_count t /\
    HashGetValue otoupper (Some t) (Some k) = Some vals /\
    HashGetValue otoupper (Some t') (Some k) = Some (vals ++ [v]) /\
    (otoupper_folds otoupper -> forall k', same_key k k' ->
       HashGetValue otoupper (Some t) (Some k') = Some vals /\
       HashGetValue otoupper (Some t') (Some k') = Some (vals ++ [v])) /\
    (forall k', ~ same_key k k' ->
       HashGetValue otoupper (Some t') (Some k')
       = HashGetValue otoupper (Some t) (Some k')).
Proof.
  intros Hst Hwf Hv Ha.
  destruct (HashAdd_run t k v a Hst Hwf Hv Ha)
    as (i & es & r & a' & Hi & Hb & Hes & Hr & Hrun & Ha').
  set (es' := match r with
              | Some j => alter (fun e => HashEntry (he_key e) (he_values e ++ [v])) j es
              | None => es ++ [HashEntry (Some k) [v]]
              end) in *.
  set (t' := set_bucket t i es') in *.
  assert (Hlt : (Z.to_nat i < length (ht_items t))%nat).
  { apply lookup_lt_Some in Hes. exact Hes. }
  assert (Hes' : ht_items t' !! Z.to_nat i = Some es').
  { subst t'. cbn. apply list_lookup_insert_eq, Hlt. }
  assert (Hwf' : hash_wf otoupper t').
  { apply (set_bucket_wf t i es es' Hwf Hb Hes).
    destruct Hwf as (_ & _ & Hall). intros e He. subst es'. destruct r as [j|].
    - apply list_elem_of_lookup in He as [n He].
      destruct (decide (n = j)) as [->|Hn].
      + rewrite list_lookup_alter_eq in He.
        destruct (es !! j) as [e0|] eqn:He0; [|discriminate].
        injection He as <-. cbn [he_key he_values].
        destruct (Hall _ _ e0 Hes (list_elem_of_lookup_2 _ _ _ He0))
          as (x & Hx & Hc & Hvs).
        exists x. split; [exact Hx|]. split; [rewrite Hc; f_equal; lia|].
        intros v0 Hv0. apply elem_of_app in Hv0 as [Hv0|Hv0]; [apply Hvs, Hv0|].
        apply list_elem_of_singleton in Hv0 as ->. exact Hv.
      + rewrite list_lookup_alter_ne in He by congruence.
        destruct (Hall _ _ e Hes (list_elem_of_lookup_2 _ _ _ He))
          as (x & Hx & Hc & Hvs).
        exists x. split; [exact Hx|]. split; [rewrite Hc; f_equal; lia|exact Hvs].
    - apply elem_of_app in He as [He|He].
      + destruct (Hall _ _ e Hes He) as (x & Hx & Hc & Hvs).
        exists x. split; [exact Hx|]. split; [rewrite Hc; f_equal; lia|exact Hvs].
      + apply list_elem_of_singleton in He as ->. exists k.
        cbn [he_key he_values].
        split; [reflexivity|]. split; [exact Hi|].
        intros v0 Hv0. apply list_elem_of_singleton in Hv0 as ->. exact Hv. }
  (* the values read under a key of the bucket *)
  set (vals_of := fun (l : list OCI_HashEntry) (r0 : option nat) =>
         match r0 with
         | Some j => default [] (he_values <$> l !! j)
         | None => []
         end).
  assert (Hread : forall tb k0 l r0,
            hash_wf otoupper tb ->
            HashCompute otoupper (Some tb) (Some k0) = Some i ->
            ht_items tb !! Z.to_nat i = Some l -> find_entry l k0 0 = Some r0 ->
            HashGetValue otoupper (Some tb) (Some k0) = Some (vals_of l r0)).
  { intros tb k0 l r0 Hw Hc Hl Hf.
    destruct (HashGetValue_run tb k0 Hst Hw) as (i0 & l0 & r1 & Hc0 & _ & Hl0 & Hf0 & Hg).
    rewrite Hc in Hc0. injection Hc0 as <-. rewrite Hl in Hl0. injection Hl0 as <-.
    rewrite Hf in Hf0. injection Hf0 as <-. exact Hg. }
  (* a key that compares equal to [k] *)
  assert (Hsame : forall k0, HashCompute otoupper (Some t) (Some k0) = Some i ->
            find_entry es k0 0 = Some r ->
            (forall x, ostrcasecmp_eq x k0 = ostrcasecmp_eq x k) ->
            HashGetValue otoupper (Some t) (Some k0) = Some (vals_of es r) /\
            HashGetValue otoupper (Some t') (Some k0) = Some (vals_of es r ++ [v])).
  { intros k0 Hc Hf Hcmp. split; [apply (Hread t k0 es r Hwf Hc Hes Hf)|].
    assert (Hc' : HashCompute otoupper (Some t') (Some k0) = Some i).
    { rewrite (HashCompute_size t t' (Some k0) eq_refl). exact Hc. }
    subst es'. destruct r as [j|].
    - destruct (find_entry_range _ _ _ _ Hr) as (_ & e & x & He & _).
      rewrite Nat.sub_0_r in He.
      rewrite (Hread t' k0 _ (Some j) Hwf' Hc' Hes').
      + unfold vals_of. rewrite list_lookup_alter_eq, He. reflexivity.
      + rewrite <- Hf. apply find_entry_keys.
        apply list_eq. intros n. rewrite !list_lookup_fmap.
        destruct (decide (n = j)) as [->|Hn].
        * rewrite list_lookup_alter_eq, He. reflexivity.
        * rewrite list_lookup_alter_ne by congruence. reflexivity.
    - rewrite (Hread t' k0 _ (Some (length es)) Hwf' Hc' Hes').
      + unfold vals_of. rewrite lookup_app_r, Nat.sub_diag by lia. reflexivity.
      + rewrite (find_entry_snoc es (HashEntry (Some k) [v]) k k0 0 eq_refl), Hf.
        rewrite Hcmp. unfold ostrcasecmp_eq.
        rewrite bool_decide_eq_true_2 by reflexivity. reflexivity. }
  exists t', a', (vals_of es r).
  split; [exact Hrun|]. split; [exact Hwf'|].
  split; [reflexivity|]. split; [reflexivity|]. split; [reflexivity|].
  destruct (Hsame k Hi Hr ltac:(reflexivity)) as [Hg Hg'].
  split; [exact Hg|]. split; [exact Hg'|]. split.
  - intros Hup k' Hk'. apply Hsame.
    + unfold HashCompute in Hi |- *. destruct (decide (ht_size t = 0)); [discriminate|].
      rewrite <- (hash_loop_same Hup k k' 0 Hk'). exact Hi.
    + rewrite <- Hr. clear -Hk'. generalize 0%nat.
      induction es as [|e es IH]; intros n; [reflexivity|]. simpl.
      destruct (he_key e) as [x|]; [|reflexivity].
      rewrite (ostrcasecmp_same k k' x Hk'), IH. reflexivity.
    + intros x. symmetry. apply ostrcasecmp_same, Hk'.
  - intros k' Hk'.
    destruct (HashGetValue_run t k' Hst Hwf) as (i0 & l0 & r0 & Hc0 & Hb0 & Hl0 & Hf0 & Hg0).
    destruct (HashGetValue_run t' k' Hst Hwf') as (i1 & l1 & r1 & Hc1 & _ & Hl1 & Hf1 & Hg1).
    rewrite (HashCompute_size t t' (Some k') eq_refl), Hc0 in Hc1.
    injection Hc1 as <-. rewrite Hg0, Hg1. f_equal.
    destruct (decide (i0 = i)) as [->|Hne].
    2:{ subst t'. cbn [ht_items set_bucket] in Hl1.
        rewrite list_lookup_insert_ne in Hl1 by lia.
        rewrite Hl0 in Hl1. injection Hl1 as <-.
        rewrite Hf0 in Hf1. injection Hf1 as <-. reflexivity. }
    rewrite Hes in Hl0. injection Hl0 as <-.
    rewrite Hes' in Hl1. injection Hl1 as <-.
    assert (Hnk : ostrcasecmp_eq k k' = false).
    { unfold ostrcasecmp_eq. apply bool_decide_eq_false_2. exact Hk'. }
    subst es'. destruct r as [j|].
    + assert (Hf : find_entry (alter (fun e => HashEntry (he_key e) (he_values e ++ [v])) j es) k' 0
                   = find_entry es k' 0).
      { apply find_entry_keys. apply list_eq. intros n. rewrite !list_lookup_fmap.
        destruct (decide (n = j)) as [->|Hn].
        - rewrite list_lookup_alter_eq. destruct (es !! j); reflexivity.
        - rewrite list_lookup_alter_ne by congruence. reflexivity. }
      rewrite Hf, Hf0 in Hf1. injection Hf1 as <-.
      destruct r0 as [j0|]; [|reflexivity].
      destruct (decide (j0 = j)) as [->|Hn].
      * exfalso.
        destruct (find_entry_range _ _ _ _ Hr) as (_ & e & x & He & Hx & Hc).
        destruct (find_entry_range _ _ _ _ Hf0) as (_ & e' & x' & He' & Hx' & Hc').
        rewrite Nat.sub_0_r in He, He'. rewrite He in He'. injection He' as <-.
        rewrite Hx in Hx'. injection Hx' as <-.
        unfold ostrcasecmp_eq in Hc, Hc'.
        apply bool_decide_eq_true in Hc, Hc'. apply Hk'. unfold same_key. congruence.
      * rewrite list_lookup_alter_ne by congruence. reflexivity.
    + rewrite (find_entry_snoc es (HashEntry (Some k) [v]) k k' 0 eq_refl), Hf0 in Hf1.
      destruct r0 as [j0|].
      * injection Hf1 as <-.
        destruct (find_entry_range _ _ _ _ Hf0) as (Hj0 & _).
        rewrite lookup_app_l by lia. reflexivity.
      * rewrite Hnk in Hf1. injection Hf1 as <-. reflexivity.
Qed.

(** X1.  [HashCompute] on a table with buckets yields the index of one of
    them; on a table of size 0 it divides by zero; and when the upper-casing
    agrees with [ostrcasecmp], keys that compare equal get one bucket. *)
Theorem HashCompute_bucket (t : OCI_HashTable) (k k' : string) :
  (0 < ht_size t ->
   exists i, HashCompute otoupper (Some t) (Some k) = Some i /\
             0 <= i < ht_size t) /\
  (ht_size t = 0 -> HashCompute otoupper (Some t) (Some k) = None) /\
  (otoupper_folds otoupper -> same_key k k' ->
   HashCompute otoupper (Some t) (Some k)
   = HashCompute otoupper (Some t) (Some k')).
Proof.
  unfold HashCompute. split; [|split].
  - intros Hpos. rewrite decide_False by lia. eexists. split; [reflexivity|].
    apply Z.mod_pos_bound, Hpos.
  - intros Hz. rewrite decide_True by exact Hz. reflexivity.
  - intros Hup Hk. rewrite (hash_loop_same Hup k k' 0 Hk). reflexivity.
Qed.

(** X2.  On a well-formed table [HashAdd] returns TRUE and hooks the value
    at the end of the values of the key: the values read under the key, or
    under any key that compares equal, are the former ones followed by the
    new one.  Nothing is replaced, the oldest value stays first. *)
Theorem HashAdd_appends_value (t : OCI_HashTable) (k : string)
    (v : OCI_Variant) (a : list bool) :
  call_enter_status = true -> hash_wf otoupper t ->
  variant_ok (ht_type t) v -> Forall (fun b => b = true) a ->
  exists t' a' vals,
    HashAdd otoupper (Some t) (Some k) v (ht_type t) a = Some (true, Some t', a') /\
    HashGetValue otoupper (Some t) (Some k) = Some vals /\
    HashGetValue otoupper (Some t') (Some k) = Some (vals ++ [v]) /\
    (otoupper_folds otoupper -> forall k', same_key k k' ->
       HashGetValue otoupper (Some t) (Some k') = Some vals /\
       HashGetValue otoupper (Some t') (Some k') = Some (vals ++ [v])).
Proof.
  intros Hst Hwf Hv Ha.
  destruct (HashAdd_effect t k v a Hst Hwf Hv Ha)
    as (t' & a' & vals & Hrun & _ & _ & _ & _ & Hg & Hg' & Hsame & _).
  exists t', a', vals. split; [exact Hrun|]. split; [exact Hg|].
  split; [exact Hg'|exact Hsame].
Qed.

(** X3.  [HashAdd] under a key leaves what is read under every key that
    does not compare equal to it, in the same bucket or not. *)
Theorem HashAdd_other_keys (t : OCI_HashTable) (k k' : string)
    (v : OCI_Variant) (a : list bool) :
  call_enter_status = true -> hash_wf otoupper t ->
  variant_ok (ht_type t) v -> Forall (fun b => b = true) a ->
  ~ same_key k k' ->
  exists t' a',
    HashAdd otoupper (Some t) (Some k) v (ht_type t) a = Some (true, Some t', a') /\
    HashGetValue otoupper (Some t') (Some k')
    = HashGetValue otoupper (Some t) (Some k').
Proof.
  intros Hst Hwf Hv Ha Hk.
  destruct (HashAdd_effect t k v a Hst Hwf Hv Ha)
    as (t' & a' & vals & Hrun & _ & _ & _ & _ & _ & _ & _ & Hother).
  exists t', a'. split; [exact Hrun|]. apply Hother, Hk.
Qed.

(** X4.  The tables [HashCreate] makes with at least one bucket are
    well-formed and [HashAdd] keeps them so: as many buckets as [size]
    says, every entry in the bucket of its key, every value of the kind of
    the table; [type], [size] and [count] are never changed. *)
Theorem HashAdd_keeps_table_well_formed (size : Z) (type : OCI_HASH)
    (t : OCI_HashTable) (k : string) (v : OCI_Variant) (a : list bool) :
  Forall (fun b => b = true) a ->
  (0 < size ->
   exists t0 a0, HashCreate size type a = Some (t0, a0) /\
                 hash_wf otoupper t0 /\ ht_type t0 = type /\ ht_size t0 = size /\
                 Forall (fun b => b = true) a0) /\
  (call_enter_status = true -> hash_wf otoupper t -> variant_ok (ht_type t) v ->
   exists t' a',
     HashAdd otoupper (Some t) (Some k) v (ht_type t) a = Some (true, Some t', a') /\
     hash_wf otoupper t' /\
     ht_type t' = ht_type t /\ ht_size t' = ht_size t /\ ht_count t' = ht_count t).
Proof.
  intros Ha. split.
  - intros Hpos. unfold HashCreate.
    destruct (next_alloc_true a Ha) as (a1 & -> & Ha1).
    destruct (next_alloc_true a1 Ha1) as (a2 & -> & Ha2).
    eexists _, a2. split; [reflexivity|].
    split; [|split; [reflexivity|split; [reflexivity|exact Ha2]]].
    split; [exact Hpos|]. split; [cbn; rewrite length_replicate; lia|].
    intros i es e Hl He. cbn in Hl. apply lookup_replicate in Hl as [-> _].
    inversion He.
  - intros Hst Hwf Hv.
    destruct (HashAdd_effect t k v a Hst Hwf Hv Ha)
      as (t' & a' & vals & Hrun & Hwf' & Hty & Hsz & Hct & _).
    exists t', a'. split; [exact Hrun|]. split; [exact Hwf'|].
    split; [exact Hty|]. split; [exact Hsz|exact Hct].
Qed.

Lemma find_entry_absent es k : forall j,
  (forall e, e ∈ es -> exists x, he_key e = Some x /\ ~ same_key x k) ->
  find_entry es k j = Some None.
Proof.
  induction es as [|e es IH]; intros j Hall; [reflexivity|]. simpl.
  destruct (Hall e ltac:(left)) as (x & -> & Hx).
  unfold ostrcasecmp_eq at 1. rewrite bool_decide_eq_false_2 by exact Hx.
  apply IH. intros e' He'. apply Hall. right. exact He'.
Qed.

(** X5.  A lookup that is not asked to create never changes the table nor
    calls the allocator; and under a key that no entry compares equal to,
    a well-formed table yields no value: [HashGetString] returns [NULL],
    [HashGetInt] and [HashGetPointer] return 0. *)
Theorem HashLookup_missing_key (t : OCI_HashTable) (k : string) :
  (forall table key a r table' a',
     HashLookup otoupper table key false a = Some (r, table', a') ->
     table' = table /\ a' = a) /\
  (call_enter_status = true -> hash_wf otoupper t -> key_absent t k ->
   HashLookup otoupper (Some t) (Some k) false [] = Some (None, Some t, []) /\
   HashGetValue otoupper (Some t) (Some k) = Some [] /\
   HashGetString otoupper (Some t) (Some k) = Some None /\
   HashGetInt otoupper (Some t) (Some k) = Some 0 /\
   HashGetPointer otoupper (Some t) (Some k) = Some 0).
Proof.
  split.
  - intros table key a r table' a'. unfold HashLookup.
    destruct table as [tb|]; [destruct key as [ky|]|];
      try (intros [= <- <- <-]; split; reflexivity).
    destruct (HashCompute otoupper (Some tb) (Some ky)) as [i|];
      [|discriminate]. cbn [mbind option_bind].
    destruct (decide (i < ht_size tb)); [|intros [= <- <- <-]; split; reflexivity].
    destruct (ht_items tb !! Z.to_nat i) as [es|]; [|discriminate].
    cbn [mbind option_bind].
    destruct (find_entry es ky 0) as [[j|]|]; [| |discriminate];
      cbn [mbind option_bind].
    + destruct call_enter_status; [|discriminate].
      intros [= <- <- <-]; split; reflexivity.
    + intros [= <- <- <-]; split; reflexivity.
  - intros Hst Hwf Habs.
    destruct (hash_wf_bucket t k Hwf) as (i & es & Hi & Hb & Hes & r & Hr).
    assert (Hnone : find_entry es k 0 = Some None).
    { apply find_entry_absent. intros e He.
      destruct Hwf as (_ & _ & Hall).
      destruct (Hall _ _ e Hes He) as (x & Hx & _).
      exists x. split; [exact Hx|]. exact (Habs _ _ _ _ Hes He Hx). }
    assert (Hl : HashLookup otoupper (Some t) (Some k) false []
                 = Some (None, Some t, [])).
    { unfold HashLookup. rewrite Hi. cbn [mbind option_bind].
      rewrite decide_True by lia. rewrite Hes. cbn [mbind option_bind].
      rewrite Hnone. reflexivity. }
    assert (Hg : HashGetValue otoupper (Some t) (Some k) = Some []).
    { unfold HashGetValue. rewrite Hl. reflexivity. }
    split; [exact Hl|]. split; [exact Hg|].
    unfold HashGetString, HashGetInt, HashGetPointer. rewrite Hg.
    repeat split; destruct (decide _); reflexivity.
Qed.


End HashFacts.

Lemma toupper_C_folds : otoupper_folds toupper_C.
Proof.
  assert (Hl : forall c, toupper_C c = toupper_C (to_lower c)).
  { intros [[] [] [] [] [] [] [] []]; vm_compute; reflexivity. }
  intros c d Hcd. rewrite (Hl c), (Hl d), Hcd. reflexivity.
Qed.

(* ===================================================================== *)
(** ** Files: seeking and reading *)
(* ===================================================================== *)

Section FileFacts.
Context `{Runtime} `{FileRuntime}.

Lemma big_uint_small z : 0 <= z < 2 ^ 64 -> big_uint z = z.
Proof. intros Hz. unfold big_uint. apply Z.mod_small, Hz. Qed.

Lemma FileGetSize_range file : 0 <= FileGetSize file < 2 ^ 64.
Proof.
  unfold FileGetSize. destruct file as [f|]; [|lia].
  destruct call_enter_status; [|lia].
  destruct use_lob_ub8; unfold big_uint; apply Z.mod_pos_bound; lia.
Qed.

(** X7.  [FileSeek] on a file whose offset lies within the file, or just
    past its end: it returns TRUE exactly when the position asked for lies
    within the file or at its end; then [FileGetOffset] yields that
    position; otherwise the file is left alone.  For [OCI_SEEK_CUR] the
    position is taken modulo 2^64, so that a displacement of [2^64 - k]
    steps back by [k]. *)
Theorem FileSeek_moves_within_file (f : OCI_File) (offset : Z) (mode : OCI_SEEK) :
  let size := FileGetSize (Some f) in
  let target := seek_target f offset mode in
  0 <= offset < 2 ^ 64 -> size < 2 ^ 64 - 1 -> 1 <= f_offset f <= size + 1 ->
  (0 <= target <= size ->
   exists f', FileSeek (Some f) offset mode = (true, Some f') /\
              FileGetOffset (Some f') = target /\
              f_handle f' = f_handle f /\ 1 <= f_offset f' <= size + 1) /\
  (~ 0 <= target <= size -> FileSeek (Some f) offset mode = (false, Some f)) /\
  (forall k, mode = OCI_SEEK_CUR -> offset = 2 ^ 64 - k ->
             0 < k <= FileGetOffset (Some f) ->
             target = FileGetOffset (Some f) - k).
Proof.
  intros size target Hoff Hsize Hinv.
  pose proof (FileGetSize_range (Some f)) as Hs. fold size in Hs.
  assert (Hpos : FileGetOffset (Some f) = f_offset f - 1).
  { unfold FileGetOffset. apply big_uint_small. lia. }
  subst target. unfold seek_target. rewrite Hpos. fold size.
  split; [|split].
  - intros Ht. unfold FileSeek. fold size. destruct mode.
    + rewrite decide_True by lia. eexists. split; [reflexivity|].
      unfold FileGetOffset. cbn [f_offset f_handle].
      rewrite (big_uint_small (offset + 1)) by lia.
      rewrite big_uint_small by lia. repeat split; lia.
    + rewrite decide_True by lia. eexists. split; [reflexivity|].
      unfold FileGetOffset. cbn [f_offset f_handle].
      rewrite (big_uint_small (size - offset + 1)) by lia.
      rewrite big_uint_small by lia. repeat split; lia.
    + replace (offset + f_offset f - 1) with (f_offset f - 1 + offset) by lia.
      rewrite decide_True by lia. eexists. split; [reflexivity|].
      unfold FileGetOffset. cbn [f_offset f_handle].
      assert (Hm : big_uint (f_offset f + offset)
                   = big_uint (f_offset f - 1 + offset) + 1).
      { unfold big_uint in *.
        replace (f_offset f + offset) with (f_offset f - 1 + offset + 1) by lia.
        rewrite <- (Zplus_mod_idemp_l (f_offset f - 1 + offset)).
        apply Z.mod_small. lia. }
      rewrite Hm.
      replace (big_uint (f_offset f - 1 + offset) + 1 - 1)
        with (big_uint (f_offset f - 1 + offset)) by lia.
      split; [|split; [reflexivity|lia]].
      unfold big_uint. apply Zmod_mod.
  - intros Ht. unfold FileSeek. fold size. destruct mode.
    + rewrite decide_False by lia. reflexivity.
    + rewrite decide_False by lia. reflexivity.
    + replace (offset + f_offset f - 1) with (f_offset f - 1 + offset) by lia.
      rewrite decide_False; [reflexivity|].
      intros Hle. apply Ht. split; [|exact Hle].
      unfold big_uint. apply Z.mod_pos_bound. lia.
  - intros k -> -> Hk. unfold big_uint.
    replace (f_offset f - 1 + (2 ^ 64 - k))
      with (f_offset f - 1 - k + 1 * 2 ^ 64) by lia.
    rewrite Z.mod_add by lia. apply Z.mod_small. lia.
Qed.


End FileFacts.

(* ===================================================================== *)
(** ** Allocation bookkeeping *)
(* ===================================================================== *)

Section MemoryFacts.
Context `{MemPlatform}.

Lemma big_int_small z : - 2 ^ 63 <= z < 2 ^ 63 -> big_int z = z.
Proof. intros Hz. unfold big_int. rewrite Z.mod_small by lia. lia. Qed.

Lemma live_bytes_insert s m blk :
  blocks s !! m = None ->
  map_fold (fun _ b acc => mb_size b + acc) 0 (<[m := blk]> (blocks s))
  = mb_size blk + live_bytes s.
Proof.
  intros Hm. unfold live_bytes.
  rewrite (map_fold_insert_L (fun _ b acc => mb_size b + acc)); [reflexivity| |exact Hm].
  intros. lia.
Qed.

Lemma live_bytes_delete s m blk :
  blocks s !! m = Some blk ->
  live_bytes s
  = mb_size blk + map_fold (fun _ b acc => mb_size b + acc) 0 (delete m (blocks s)).
Proof.
  intros Hm. unfold live_bytes.
  rewrite <- (map_fold_delete_L (fun _ b acc => mb_size b + acc)); [reflexivity| |exact Hm].
  intros. lia.
Qed.

Lemma counter_shift x y n :
  counter_modular -> as_counter x = as_counter y ->
  as_counter (x + n) = as_counter (y + n).
Proof.
  intros Hmod Hxy. rewrite <- (Hmod x n), <- (Hmod y n), Hxy. reflexivity.
Qed.

Lemma MemUpdateBytes_sum type n s :
  counter_modular ->
  as_counter (mem_bytes_oci (MemUpdateBytes type n s)
              + mem_bytes_lib (MemUpdateBytes type n s))
  = as_counter (mem_bytes_oci s + mem_bytes_lib s + n).
Proof.
  intros Hmod. unfold MemUpdateBytes.
  destruct (decide (OCI_IPC_ORACLE = type)); cbn [mem_bytes_oci mem_bytes_lib].
  - rewrite Hmod. f_equal. lia.
  - rewrite Z.add_comm, Hmod. f_equal. lia.
Qed.

Lemma MemUpdateBytes_blocks type n s :
  blocks (MemUpdateBytes type n s) = blocks s /\
  mem_raised (MemUpdateBytes type n s) = mem_raised s.
Proof. unfold MemUpdateBytes. destruct (decide _); split; reflexivity. Qed.

Lemma MemUpdateBytes_eq type n s :
  MemUpdateBytes type n s =
  MkMemState (blocks s)
    (if decide (OCI_IPC_ORACLE = type)
     then as_counter (mem_bytes_oci s + n) else mem_bytes_oci s)
    (if decide (OCI_IPC_ORACLE = type)
     then mem_bytes_lib s else as_counter (mem_bytes_lib s + n))
    (mem_raised s).
Proof. unfold MemUpdateBytes. destruct (decide _); reflexivity. Qed.

Lemma uint_range z : 0 <= uint z < 2 ^ 32.
Proof. unfold uint. apply Z.mod_pos_bound. lia. Qed.

(** X9.  [MemAlloc] then [MemFree] of the address it handed back: the
    block is gone again and both byte counters are back to what they
    were. *)
Theorem MemAlloc_MemFree_round_trip (m ptr_type block_size block_count : Z)
    (zero_fill : bool) (s : MemState) :
  counter_modular ->
  as_counter (mem_bytes_oci s) = mem_bytes_oci s ->
  as_counter (mem_bytes_lib s) = mem_bytes_lib s ->
  0 < sizeof_OCI_MemoryBlock -> 0 < m -> blocks s !! m = None ->
  let r := MemAlloc m ptr_type block_size block_count zero_fill s in
  r.1 = m + sizeof_OCI_MemoryBlock /\
  blocks r.2 !! m <> None /\
  MemFree r.1 r.2 = Some s.
Proof.
  intros Hmod Hoci Hlib Hhdr Hm Hfresh r. subst r. unfold MemAlloc.
  rewrite decide_True by lia. cbn [fst snd mb_type mb_size].
  set (size := uint (size_t (sizeof_OCI_MemoryBlock
                             + size_t (block_size * block_count)))).
  pose proof (uint_range (size_t (sizeof_OCI_MemoryBlock
                                  + size_t (block_size * block_count)))) as Hsz.
  fold size in Hsz.
  split; [reflexivity|]. split.
  { destruct (MemUpdateBytes_blocks ptr_type size
                (MkMemState (<[m := MemoryBlock ptr_type size]> (blocks s))
                   (mem_bytes_oci s) (mem_bytes_lib s) (mem_raised s))) as [-> _].
    cbn [blocks]. rewrite lookup_insert_eq. discriminate. }
  rewrite MemUpdateBytes_eq. cbn [blocks mem_bytes_oci mem_bytes_lib mem_raised].
  unfold MemFree. rewrite decide_True by lia.
  replace (m + sizeof_OCI_MemoryBlock - sizeof_OCI_MemoryBlock) with m by lia.
  rewrite decide_True by lia. cbn [blocks].
  rewrite lookup_insert_eq. cbn [mbind option_bind mb_type mb_size].
  rewrite MemUpdateBytes_eq. cbn [blocks mem_bytes_oci mem_bytes_lib mem_raised].
  rewrite delete_insert_id by exact Hfresh.
  rewrite big_int_small by lia.
  destruct s as [b o l e]. cbn [blocks mem_bytes_oci mem_bytes_lib mem_raised] in *.
  destruct (decide (OCI_IPC_ORACLE = ptr_type)); f_equal; f_equal.
  - rewrite Hmod. replace (o + size + (0 - size)) with o by lia. exact Hoci.
  - rewrite Hmod. replace (l + size + (0 - size)) with l by lia. exact Hlib.
Qed.

(** X10.  When [malloc] fails, [MemAlloc] records the memory exception and
    leaves blocks and counters alone, but the address it hands back is not
    [NULL]: it is [NULL] moved by the size of the header.  [MemFree] takes
    that address for [NULL] again and does nothing. *)
Theorem MemAlloc_failed_malloc (ptr_type block_size block_count : Z)
    (zero_fill : bool) (s : MemState) :
  0 < sizeof_OCI_MemoryBlock ->
  let r := MemAlloc 0 ptr_type block_size block_count zero_fill s in
  r.1 = sizeof_OCI_MemoryBlock /\ r.1 <> 0 /\
  blocks r.2 = blocks s /\
  mem_bytes_oci r.2 = mem_bytes_oci s /\ mem_bytes_lib r.2 = mem_bytes_lib s /\
  mem_raised r.2 =
    mem_raised s ++
      [(ptr_type,
        size_t (sizeof_OCI_MemoryBlock + size_t (block_size * block_count)))] /\
  MemFree r.1 r.2 = Some r.2.
Proof.
  intros Hhdr r. subst r. unfold MemAlloc.
  rewrite decide_False by (intros Hne; apply Hne; reflexivity).
  cbn [fst snd]. rewrite Z.add_0_l.
  split; [reflexivity|]. split; [lia|].
  split; [reflexivity|]. split; [reflexivity|]. split; [reflexivity|].
  split; [reflexivity|].
  unfold MemFree. rewrite decide_True by lia. rewrite Z.sub_diag.
  rewrite decide_False by (intros Hne; apply Hne; reflexivity). reflexivity.
Qed.

Lemma MemFree_mem_ok p s s' :
  counter_modular -> mem_ok s -> MemFree p s = Some s' -> mem_ok s'.
Proof.
  intros Hmod [Hacc Hsz]. unfold MemFree.
  destruct (decide (p <> 0)); [|intros [= <-]; split; assumption].
  destruct (decide (p - sizeof_OCI_MemoryBlock <> 0));
    [|intros [= <-]; split; assumption].
  destruct (blocks s !! (p - sizeof_OCI_MemoryBlock)) as [blk|] eqn:Hb;
    [|discriminate].
  cbn [mbind option_bind]. intros [= <-].
  destruct (MemUpdateBytes_blocks (mb_type blk) (big_int (0 - mb_size blk)) s)
    as [-> ->].
  pose proof (Hsz _ _ Hb) as Hblk. split.
  - unfold accounted, live_bytes. cbn [blocks mem_bytes_oci mem_bytes_lib].
    rewrite (MemUpdateBytes_sum _ _ s Hmod).
    unfold accounted in Hacc. rewrite (live_bytes_delete s _ blk Hb) in Hacc.
    rewrite big_int_small by lia.
    rewrite (counter_shift _ _ (0 - mb_size blk) Hmod Hacc). f_equal. lia.
  - cbn [blocks]. intros m blk' Hm. apply lookup_delete_Some in Hm as [_ Hm].
    apply (Hsz _ _ Hm).
Qed.

(** X11.  The two byte counters together account for the bytes the headers
    of the live blocks tell, in the arithmetic of the counters: [MemAlloc]
    (whether [malloc] delivers a fresh block or fails), [MemFree] and
    [MemRealloc] of a live block to a size below 4 GiB keep it so. *)
Theorem counters_account_for_live_blocks (s : MemState)
    (m r ptr_mem ptr_type block_size block_count : Z) (zero_fill : bool)
    (junk : OCI_MemoryBlock) :
  counter_modular -> mem_ok s ->
  (blocks s !! m = None ->
   mem_ok (MemAlloc m ptr_type block_size block_count zero_fill s).2) /\
  (forall s', MemFree ptr_mem s = Some s' -> mem_ok s') /\
  (forall res s',
     ptr_mem <> 0 -> ptr_mem - sizeof_OCI_MemoryBlock <> 0 ->
     is_Some (blocks s !! (ptr_mem - sizeof_OCI_MemoryBlock)) ->
     size_t (sizeof_OCI_MemoryBlock + size_t (block_size * block_count)) < 2 ^ 32 ->
     (blocks s !! r = None \/ r = ptr_mem - sizeof_OCI_MemoryBlock) ->
     MemRealloc r junk ptr_mem ptr_type block_size block_count zero_fill s
     = Some (res, s') ->
     mem_ok s').
Proof.
  intros Hmod Hok. pose proof Hok as [Hacc Hsz].
  set (size := size_t (sizeof_OCI_MemoryBlock + size_t (block_size * block_count))).
  assert (Hsize : 0 <= size < 2 ^ 64).
  { subst size. unfold size_t. apply Z.mod_pos_bound. lia. }
  split; [|split].
  - intros Hfresh. unfold MemAlloc. fold size. cbn [snd mb_type mb_size].
    destruct (decide (m <> 0)) as [Hm|Hm].
    + destruct (MemUpdateBytes_blocks ptr_type (uint size)
                  (MkMemState (<[m := MemoryBlock ptr_type (uint size)]> (blocks s))
                     (mem_bytes_oci s) (mem_bytes_lib s) (mem_raised s))) as [Hb Hr].
      split.
      * unfold accounted, live_bytes. rewrite Hb.
        rewrite (MemUpdateBytes_sum _ _ _ Hmod).
        cbn [mem_bytes_oci mem_bytes_lib blocks].
        rewrite (live_bytes_insert s m _ Hfresh). cbn [mb_size].
        rewrite (counter_shift _ _ (uint size) Hmod Hacc). f_equal. lia.
      * rewrite Hb. cbn [blocks]. intros m' blk Hm'.
        apply lookup_insert_Some in Hm' as [[_ <-]|[_ Hm']];
          [apply uint_range|apply (Hsz _ _ Hm')].
    + split; [exact Hacc|exact Hsz].
  - intros s' Hfree. apply (MemFree_mem_ok ptr_mem s s' Hmod Hok Hfree).
  - intros res s' Hp Hnz [blk Hblk] Hsmall Hr. unfold MemRealloc. fold size.
    destruct (decide (ptr_mem <> 0)) as [_|Hn]; [|contradiction].
    destruct (decide (ptr_mem - sizeof_OCI_MemoryBlock <> 0)) as [_|Hn];
      [|contradiction].
    rewrite Hblk. cbn [mbind option_bind default].
    pose proof (Hsz _ _ Hblk) as Hb.
    destruct (bool_decide (mb_size blk < size)).
    2:{ intros Heq. injection Heq as _ <-. exact Hok. }
    destruct (decide (r <> 0)) as [Hrn|Hrn].
    + intros [= <- <-].
      set (s1 := MkMemState _ _ _ _).
      destruct (MemUpdateBytes_blocks ptr_type
                  (big_int (big_int size - mb_size blk)) s1) as [Hbl Hra].
      assert (Hnone : delete (ptr_mem - sizeof_OCI_MemoryBlock) (blocks s) !! r = None).
      { destruct Hr as [Hr| ->]; [|apply lookup_delete_eq].
        apply lookup_delete_None. right. exact Hr. }
      split.
      * unfold accounted, live_bytes. rewrite Hbl.
        rewrite (MemUpdateBytes_sum _ _ s1 Hmod).
        subst s1. cbn [mem_bytes_oci mem_bytes_lib blocks].
        rewrite (map_fold_insert_L (fun _ b acc => mb_size b + acc));
          [|intros; lia|exact Hnone].
        cbn [mb_size]. unfold accounted in Hacc.
        rewrite (live_bytes_delete s _ blk Hblk) in Hacc.
        rewrite (big_int_small size) by lia. rewrite big_int_small by lia.
        rewrite (counter_shift _ _ (size - mb_size blk) Hmod Hacc).
        unfold uint. rewrite Z.mod_small by lia. f_equal. lia.
      * rewrite Hbl. subst s1. cbn [blocks]. intros m' blk' Hm'.
        apply lookup_insert_Some in Hm' as [[_ <-]|[_ Hm']]; [apply uint_range|].
        apply lookup_delete_Some in Hm' as [_ Hm']. apply (Hsz _ _ Hm').
    + destruct (MemFree ptr_mem s) as [s1|] eqn:Hfree; [|discriminate].
      cbn [mbind option_bind]. intros [= <- <-].
      destruct (MemFree_mem_ok ptr_mem s s1 Hmod Hok Hfree) as [Hacc1 Hsz1].
      split; [exact Hacc1|exact Hsz1].
Qed.

(** X12.  [MemRealloc] on a live block.  When the block is large enough it
    is handed back as it is.  When it has to grow and [realloc] fails, the
    old block is freed all the same, the memory exception is recorded and
    [NULL] is returned: the address the caller holds is dead.  When
    [realloc] delivers, the block lives at the new address with the new
    type and size in its header. *)
Theorem MemRealloc_outcomes (r m ptr_type block_size block_count : Z)
    (zero_fill : bool) (junk blk : OCI_MemoryBlock) (s : MemState) :
  let size := size_t (sizeof_OCI_MemoryBlock + size_t (block_size * block_count)) in
  let ptr_mem := m + sizeof_OCI_MemoryBlock in
  0 < sizeof_OCI_MemoryBlock -> 0 < m -> blocks s !! m = Some blk ->
  (size <= mb_size blk ->
   MemRealloc r junk ptr_mem ptr_type block_size block_count zero_fill s
   = Some (ptr_mem, s)) /\
  (mb_size blk < size -> r = 0 ->
   exists s',
     MemRealloc r junk ptr_mem ptr_type block_size block_count zero_fill s
     = Some (0, s') /\
     blocks s' = delete m (blocks s) /\
     mem_raised s' = mem_raised s ++ [(ptr_type, size)]) /\
  (mb_size blk < size -> r <> 0 ->
   exists s',
     MemRealloc r junk ptr_mem ptr_type block_size block_count zero_fill s
     = Some (r + sizeof_OCI_MemoryBlock, s') /\
     blocks s' = <[r := MemoryBlock ptr_type (uint size)]> (delete m (blocks s)) /\
     mem_raised s' = mem_raised s).
Proof.
  intros size ptr_mem Hhdr Hm Hblk.
  assert (Hrun : forall k : option OCI_MemoryBlock -> option (Z * MemState),
    ((old ← (if decide ((if decide (ptr_mem <> 0)
                         then ptr_mem - sizeof_OCI_MemoryBlock else 0) <> 0)
             then blk ← blocks s !! (if decide (ptr_mem <> 0)
                                     then ptr_mem - sizeof_OCI_MemoryBlock else 0);
                  Some (Some blk)
             else Some None); k old) = k (Some blk))).
  { intros k. subst ptr_mem. rewrite (decide_True (P := m + _ <> 0)) by lia.
    replace (m + sizeof_OCI_MemoryBlock - sizeof_OCI_MemoryBlock) with m by lia.
    rewrite decide_True by lia. rewrite Hblk. reflexivity. }
  unfold MemRealloc. fold size. fold ptr_mem.
  split; [|split].
  - intros Hle. rewrite Hrun. rewrite bool_decide_eq_false_2 by lia.
    subst ptr_mem. rewrite (decide_True (P := m + _ <> 0)) by lia.
    replace (m + sizeof_OCI_MemoryBlock - sizeof_OCI_MemoryBlock) with m by lia.
    rewrite decide_True by lia. reflexivity.
  - intros Hlt ->. rewrite Hrun. rewrite bool_decide_eq_true_2 by lia.
    rewrite decide_False by (intros Hne; apply Hne; reflexivity).
    rewrite (decide_True (P := ptr_mem <> 0)) by (subst ptr_mem; lia).
    unfold MemFree. rewrite (decide_True (P := ptr_mem <> 0)) by (subst ptr_mem; lia).
    subst ptr_mem.
    replace (m + sizeof_OCI_MemoryBlock - sizeof_OCI_MemoryBlock) with m by lia.
    rewrite decide_True by lia. rewrite Hblk. cbn [mbind option_bind].
    eexists. split; [reflexivity|].
    destruct (MemUpdateBytes_blocks (mb_type blk) (big_int (0 - mb_size blk)) s)
      as [Hb Hr].
    cbn [blocks mem_raised ExceptionMemory]. unfold ExceptionMemory.
    cbn [blocks mem_raised]. rewrite Hb, Hr. split; reflexivity.
  - intros Hlt Hr. rewrite Hrun. rewrite bool_decide_eq_true_2 by lia.
    rewrite decide_True by exact Hr.
    eexists. split; [reflexivity|].
    match goal with
    | |- blocks (MemUpdateBytes ?ty ?n ?s0) = _ /\ _ =>
        destruct (MemUpdateBytes_blocks ty n s0) as [-> ->]
    end.
    cbn [blocks mem_raised]. subst ptr_mem.
    rewrite (decide_True (P := m + _ <> 0)) by lia.
    replace (m + sizeof_OCI_MemoryBlock - sizeof_OCI_MemoryBlock) with m by lia.
    split; reflexivity.
Qed.

End MemoryFacts.

(* ===================================================================== *)
(** ** Attribute lookup *)
(* ===================================================================== *)

Lemma find_attr_first cs ty a : forall i,
  (find_attr cs ty a i = -1 /\
   forall c, c ∈ cs -> attr_matches ty a c = false) \/
  (exists n c, find_attr cs ty a i = i + Z.of_nat n /\
               cs !! n = Some c /\ attr_matches ty a c = true /\
               forall m c', (m < n)%nat -> cs !! m = Some c' ->
                            attr_matches ty a c' = false).
Proof.
  induction cs as [|c cs IH]; intros i.
  { left. split; [reflexivity|]. intros c Hc. inversion Hc. }
  cbn [find_attr]. fold (attr_matches ty a c).
  destruct (attr_matches ty a c) eqn:Hm.
  - right. exists 0%nat, c. split; [lia|]. split; [reflexivity|].
    split; [exact Hm|]. intros m c' Hlt. lia.
  - destruct (IH (i + 1)) as [[Hr Hall]|(n & c0 & Hr & Hc0 & Hm0 & Hbefore)].
    + left. split; [exact Hr|]. intros c' Hc'.
      apply elem_of_cons in Hc' as [->|Hc']; [exact Hm|apply Hall, Hc'].
    + right. exists (S n), c0. split; [lia|]. split; [exact Hc0|].
      split; [exact Hm0|]. intros m c' Hlt Hc'. destruct m as [|m].
      * injection Hc' as <-. exact Hm.
      * apply (Hbefore m c'); [lia|exact Hc'].
Qed.

Section LookupFacts.
Context `{Platform} `{Runtime}.

(** X13.  [ObjectGetAttrIndex] returns the index of the first column whose
    name compares equal to [attr], whatever the case of the letters, and
    whose datatype is the one asked for, when one is asked for; the
    session is then left alone.  It returns -1 when no column passes, and
    records that the attribute was not found exactly when [check] is
    set. *)
Theorem ObjectGetAttrIndex_first_match (o : OCI_Object) (attr : string)
    (type : option OCI_CDT) (check : bool) (w : World) :
  exists r w',
    ObjectGetAttrIndex (Some o) (Some attr) type check w = Some (r, w') /\
    ((r = -1 /\
      (forall c, c ∈ cols (typinf o) -> attr_matches type attr c = false) /\
      caches w' = caches w /\ inds w' = inds w /\ mem w' = mem w /\
      calls w' = calls w /\
      raised w' = if check then raised w ++ [ExceptionAttributeNotFound attr]
                  else raised w) \/
     (0 <= r < nb_cols (typinf o) /\ w' = w /\
      exists c, cols (typinf o) !! Z.to_nat r = Some c /\
                attr_matches type attr c = true /\
                forall m c', 0 <= m < r -> cols (typinf o) !! Z.to_nat m = Some c' ->
                             attr_matches type attr c' = false)).
Proof.
  unfold ObjectGetAttrIndex.
  destruct (find_attr_first (cols (typinf o)) type attr 0)
    as [[Hr Hall]|(n & c & Hr & Hc & Hm & Hbefore)].
  - rewrite Hr. rewrite bool_decide_eq_true_2 by reflexivity.
    rewrite andb_true_r. destruct check.
    + eexists _, _. split; [reflexivity|]. left. repeat split. exact Hall.
    + eexists _, _. split; [reflexivity|]. left. repeat split. exact Hall.
  - rewrite Hr. rewrite bool_decide_eq_false_2 by lia. rewrite andb_false_r.
    eexists _, _. split; [reflexivity|]. right.
    pose proof (lookup_lt_Some _ _ _ Hc) as Hlt.
    split; [unfold nb_cols; lia|]. split; [reflexivity|].
    exists c. rewrite Z.add_0_l, Nat2Z.id. split; [exact Hc|]. split; [exact Hm|].
    intros m c' Hmr Hc'. apply (Hbefore (Z.to_nat m) c'); [lia|exact Hc'].
Qed.

End LookupFacts.

(** ** Indicator cells *)

Lemma flattened_count_nonneg t : 0 <= flattened_count t.
Proof.
  induction t as [a ty td f p cs _ IHcs] using OCI_TypeInfo_nested_ind.
  rewrite flattened_count_unfold. cbn [cols].
  induction IHcs as [|c cs Hc _ IH]; simpl; [lia|].
  assert (1 <= col_slots c); [|lia].
  unfold col_slots. destruct (col_datatype c); try lia.
  destruct (col_typinf c) as [nt|]; [|lia]. specialize (Hc nt eq_refl). lia.
Qed.

Lemma col_slots_pos c : 1 <= col_slots c.
Proof.
  unfold col_slots. destruct (col_datatype c); try lia.
  destruct (col_typinf c) as [nt|]; [|lia].
  pose proof (flattened_count_nonneg nt). lia.
Qed.

Lemma slots_take_mono (cs : list (OCI_Column OCI_TypeInfo)) : forall n m,
  (n <= m <= length cs)%nat ->
  foldr Z.add 0 (map col_slots (take n cs)) + Z.of_nat (m - n)
  <= foldr Z.add 0 (map col_slots (take m cs)).
Proof.
  induction cs as [|c cs IH]; intros n m Hnm.
  { simpl in Hnm. rewrite !take_nil. simpl. lia. }
  destruct m as [|m]; [assert (n = 0%nat) as -> by lia; simpl; lia|].
  destruct n as [|n].
  - simpl. pose proof (col_slots_pos c).
    specialize (IH 0%nat m ltac:(simpl in Hnm; lia)). rewrite take_0 in IH.
    simpl in IH. lia.
  - simpl. specialize (IH n m ltac:(simpl in Hnm; lia)). simpl in IH. lia.
Qed.

Lemma IndicatorOffset_spec_bounds t n m :
  (n <= m <= length (cols t))%nat ->
  0 <= IndicatorOffset_spec t n /\
  IndicatorOffset_spec t n + Z.of_nat (m - n) <= IndicatorOffset_spec t m /\
  IndicatorOffset_spec t m <= flattened_count t.
Proof.
  intros Hnm. unfold IndicatorOffset_spec. rewrite flattened_count_spec.
  unfold IndicatorOffset_spec.
  pose proof (slots_take_mono (cols t) 0 n ltac:(lia)) as H0.
  pose proof (slots_take_mono (cols t) n m ltac:(lia)) as H1.
  pose proof (slots_take_mono (cols t) m (length (cols t)) ltac:(lia)) as H2.
  rewrite take_0 in H0. simpl in H0. lia.
Qed.

(** X14.  On a descriptor whose indicator slots fit the 16-bit counter,
    [ObjectGetIndOffset] is strictly increasing in the column index and
    stays within the slots of the descriptor: slot 0 is never handed out,
    and no two columns share an indicator cell. *)
Theorem ObjectGetIndOffset_strictly_increasing (t : OCI_TypeInfo) (i j : Z) :
  ind_fits t -> 0 <= i -> i < j -> j <= nb_cols t ->
  exists a b,
    ObjectGetIndOffset (Some t) i = Some a /\
    ObjectGetIndOffset (Some t) j = Some b /\
    1 <= a /\ a < b /\ b <= 1 + flattened_count t.
Proof.
  intros [Hok Hfit] Hi Hij Hj. cbn [ObjectGetIndOffset].
  rewrite !(IndOffset_spec_rel t Hok) by lia.
  unfold nb_cols in Hj.
  destruct (IndicatorOffset_spec_bounds t (Z.to_nat i) (Z.to_nat j) ltac:(lia))
    as (H0 & Hstep & Hmax).
  eexists _, _. split; [reflexivity|]. split; [reflexivity|].
  rewrite !ub2_small by lia. lia.
Qed.

(** ** Attribute addresses *)

Section AddressFacts.
Context `{Platform} `{Runtime}.

(** [ObjectGetAttr] once the caches it ends with are known. *)
Lemma ObjectGetAttr_with o index w r h1 :
  0 <= index < nb_cols (typinf o) ->
  ObjectGetIndOffset (Some (typinf o)) index = Some r ->
  (if decide (struct_size (cache_of (caches w) (typinf o)) = 0)
   then exists x, ObjectGetStructSize (Some (typinf o)) 0 0 (caches w) = Some (x, h1)
   else h1 = caches w) ->
  ObjectGetAttr o index w =
  Some ((handle o + size_t (offset_at (cache_of h1 (typinf o)) index),
         idx_ind o + r),
        MkWorld h1 (inds w) (mem w) (raised w) (calls w)).
Proof.
  intros Hidx Hr Hfill. unfold ObjectGetAttr.
  unfold mbind at 1, W_bind at 1, lift at 1, get_layout at 1.
  destruct (decide (struct_size (cache_of (caches w) (typinf o)) = 0)).
  - destruct Hfill as [x Hrun].
    unfold mbind at 1, W_bind at 1. unfold mbind at 1, W_bind at 1, lift at 1.
    cbn [caches]. rewrite Hrun. cbn [inds mem raised calls].
    unfold mret at 1, W_ret at 1.
    unfold mbind at 1, W_bind at 1, lift at 1, get_layout at 1. cbn [caches].
    rewrite decide_True by exact Hidx.
    unfold mbind at 1, W_bind at 1, mret at 1, W_ret at 1.
    unfold ind_index_of, of_option, mbind, W_bind, mret, W_ret. rewrite Hr.
    reflexivity.
  - subst h1. unfold mbind at 1, W_bind at 1, mret at 1, W_ret at 1.
    destruct w as [h i m ra c]. cbn [caches inds mem raised calls].
    unfold mbind at 1, W_bind at 1, lift at 1, get_layout at 1. cbn [caches].
    rewrite decide_True by exact Hidx.
    unfold mbind at 1, W_bind at 1, mret at 1, W_ret at 1.
    unfold ind_index_of, of_option, mbind, W_bind, mret, W_ret.
    cbn [typinf]. rewrite Hr. reflexivity.
Qed.

(** Two calls of [ObjectGetAttr] for one attribute, the second in any
    session that has the caches the first call left. *)
Lemma ObjectGetAttr_again o index w r :
  consistent (typinf o) -> layout_ok (typinf o) = true ->
  0 <= index < nb_cols (typinf o) ->
  ObjectGetIndOffset (Some (typinf o)) index = Some r ->
  exists data h1,
    ObjectGetAttr o index w =
      Some ((data, idx_ind o + r),
            MkWorld h1 (inds w) (mem w) (raised w) (calls w)) /\
    handle o <= data < handle o + 2 ^ 64 /\
    forall w2, caches w2 = h1 ->
      exists h3, ObjectGetAttr o index w2 =
                 Some ((data, idx_ind o + r),
                       MkWorld h3 (inds w2) (mem w2) (raised w2) (calls w2)).
Proof.
  intros Hcons Hok Hidx Hr.
  destruct (ObjectGetStructSize_twice (typinf o) (caches w) 0 0 0 0 Hcons Hok)
    as (x & h1 & h2 & R1 & R2 & _ & Heq).
  set (ha := if decide (struct_size (cache_of (caches w) (typinf o)) = 0)
             then h1 else caches w).
  exists (handle o + size_t (offset_at (cache_of ha (typinf o)) index)), ha.
  split.
  { apply ObjectGetAttr_with; [exact Hidx|exact Hr|]. subst ha.
    destruct (decide _); [exists x; exact R1|reflexivity]. }
  split.
  { unfold size_t.
    pose proof (Z.mod_pos_bound (offset_at (cache_of ha (typinf o)) index) (2 ^ 64)
                  ltac:(lia)). lia. }
  intros w2 Hw2.
  assert (Hb : exists hb, cache_of hb (typinf o) = cache_of ha (typinf o) /\
              (if decide (struct_size (cache_of (caches w2) (typinf o)) = 0)
               then exists y, ObjectGetStructSize (Some (typinf o)) 0 0 (caches w2)
                              = Some (y, hb)
               else hb = caches w2)).
  { rewrite Hw2.
    destruct (decide (struct_size (cache_of ha (typinf o)) = 0)) as [Hz|Hnz].
    - subst ha. destruct (decide (struct_size (cache_of (caches w) (typinf o)) = 0))
        as [Hz0|Hnz0].
      + exists h2. split; [exact Heq|]. exists x. exact R2.
      + contradiction.
    - exists ha. split; reflexivity. }
  destruct Hb as (hb & Hsame & Hfill). exists hb.
  rewrite (ObjectGetAttr_with o index w2 r hb Hidx Hr Hfill), Hsame. reflexivity.
Qed.

(** The offset behind a readable indicator cell. *)
Lemma attr_ind_offset w o index v :
  attr_ind w o index = Some v ->
  exists r, ObjectGetIndOffset (Some (typinf o)) index = Some r /\
            forall w2, ind_index_of o index w2 = Some (idx_ind o + r, w2).
Proof.
  unfold attr_ind, ind_index_of, of_option, mbind, W_bind, mret, W_ret.
  destruct (ObjectGetIndOffset (Some (typinf o)) index) as [r|]; [|discriminate].
  intros _. exists r. split; reflexivity.
Qed.


End AddressFacts.

(** ** Accessors, one after the other *)

Section RoundTrips.
Context `{Platform} `{Runtime}.

(** X16.  A boolean written with [ObjectSetBoolean] is what
    [ObjectGetBoolean] reads back, on a memory that returns what was last
    stored at an address: the setter returns TRUE and marks the attribute
    as not null; the getter then returns the value with [OCI_STATUS] set,
    and neither call records a diagnostic or calls a native assignment. *)
Theorem ObjectSetBoolean_then_ObjectGetBoolean (o : OCI_Object) (attr : string)
    (value : Z) (w : World) (v : Z) :
  let index := find_attr (cols (typinf o)) (Some OCI_CDT_BOOLEAN) attr 0 in
  (forall m p x, load_boolean (store_boolean m p x) p = x) ->
  consistent (typinf o) -> layout_ok (typinf o) = true ->
  0 <= index -> attr_ind w o index = Some v -> 0 < handle o ->
  exists w1 w2,
    ObjectSetBoolean (Some o) (Some attr) value w = Some (true, w1) /\
    attr_ind w1 o index = Some OCI_IND_NOTNULL /\
    ObjectGetBoolean (Some o) (Some attr) w1 = Some ((value, true), w2) /\
    raised w2 = raised w /\ calls w2 = calls w.
Proof.
  intros index Hmem Hcons Hok Hidx Hv Hh.
  pose proof (find_attr_bound o _ attr Hidx) as Hlt. fold index in Hlt.
  destruct (attr_ind_offset w o index v Hv) as (r & Hr & Hk).
  destruct (ObjectGetAttr_again o index w r Hcons Hok Hlt Hr)
    as (data & h1 & Hrun & Hdata & Hlater).
  (* the setter *)
  set (wa := MkWorld h1 (inds w) (mem w) (raised w) (calls w)) in Hrun.
  set (wb := MkWorld h1 (inds w) (store_boolean (mem w) data value)
                     (raised w) (calls w)).
  assert (Hvb : attr_ind wb o index = Some v).
  { rewrite <- Hv. apply attr_ind_frame. reflexivity. }
  destruct (write_ind_run wb o index v OCI_IND_NOTNULL Hvb)
    as (k & w1 & Hk' & Hw & Hafter & Hc1 & Hm1 & Hr1 & Hl1).
  assert (k = idx_ind o + r) as ->.
  { specialize (Hk w). specialize (Hk' w). congruence. }
  assert (Hset : ObjectSetBoolean (Some o) (Some attr) value w = Some (true, w1)).
  { unfold ObjectSetBoolean.
    rewrite (wbind_run _ _ _ _ _
               (ObjectGetAttrIndex_found o attr (Some OCI_CDT_BOOLEAN) true w Hidx)).
    fold index. rewrite decide_True by exact Hidx.
    rewrite (wbind_run _ _ _ _ _ Hrun). cbn beta iota.
    rewrite decide_False by lia.
    unfold mbind at 1, W_bind at 1, with_mem at 1. cbn [caches inds mem raised calls wa].
    fold wb. rewrite (wbind_run _ _ _ _ _ Hw). reflexivity. }
  (* the getter *)
  destruct (ObjectGetBoolean_run o attr w1 OCI_IND_NOTNULL Hcons Hok Hidx Hafter Hh)
    as (data' & k' & w2 & Hrun2 & Hco & Hget).
  fold index in Hrun2.
  destruct (Hlater w1 Hc1) as [h3 Hrun3]. rewrite Hrun3 in Hrun2.
  injection Hrun2 as <- <- <-.
  exists w1, (MkWorld h3 (inds w1) (mem w1) (raised w1) (calls w1)).
  split; [exact Hset|]. split; [exact Hafter|]. split.
  - rewrite Hget. rewrite decide_True by (unfold OCI_IND_NULL, OCI_IND_NOTNULL; lia).
    rewrite Hm1. cbn [mem wb]. rewrite Hmem. reflexivity.
  - cbn [raised calls]. rewrite Hr1, Hl1. split; reflexivity.
Qed.

(** X17.  [ObjectSetNull] on one attribute returns TRUE, makes
    [ObjectIsNull] TRUE for it, and leaves the indicator of every other
    attribute of the object as it was, provided the indicator slots of the
    type fit the [ub2] counter: two attributes never share a cell.  The
    native memory and the layout caches are not touched. *)
Theorem ObjectSetNull_only_that_attribute (o : OCI_Object) (attr : string)
    (w : World) (v : Z) :
  let index := find_attr (cols (typinf o)) None attr 0 in
  ind_fits (typinf o) ->
  0 <= index -> attr_ind w o index = Some v ->
  exists w',
    ObjectSetNull (Some o) (Some attr) w = Some (true, w') /\
    ObjectIsNull (Some o) (Some attr) w' = Some (true, w') /\
    mem w' = mem w /\ caches w' = caches w /\
    forall j, 0 <= j < nb_cols (typinf o) -> j <> index ->
              attr_ind w' o j = attr_ind w o j.
Proof.
  intros index Hfits Hidx Hv.
  pose proof (find_attr_bound o _ attr Hidx) as Hlt. fold index in Hlt.
  destruct (attr_ind_offset w o index v Hv) as (r & Hr & Hk).
  (* the run, with the written cell in view *)
  pose proof Hv as Hv'. unfold attr_ind in Hv'. rewrite (Hk w) in Hv'.
  unfold read_ind in Hv'.
  destruct (decide (0 <= idx_ind o + r)) as [Hk0|]; [|discriminate].
  destruct (inds w !! tab_ind o) as [a|] eqn:Ha; [|discriminate].
  destruct (a !! Z.to_nat (idx_ind o + r)) as [y|] eqn:Hy; [|discriminate].
  pose proof (lookup_lt_Some _ _ _ Hy) as Hlen.
  set (w' := MkWorld (caches w)
               (<[tab_ind o := <[Z.to_nat (idx_ind o + r) := OCI_IND_NULL]> a]> (inds w))
               (mem w) (raised w) (calls w)).
  assert (Hset : ObjectSetNull (Some o) (Some attr) w = Some (true, w')).
  { unfold ObjectSetNull.
    rewrite (wbind_run _ _ _ _ _ (ObjectGetAttrIndex_found o attr None true w Hidx)).
    fold index. rewrite decide_True by exact Hidx.
    rewrite (wbind_run _ _ _ _ _ (Hk w)).
    unfold mbind, W_bind, write_ind.
    rewrite (decide_True (P := 0 <= idx_ind o + r)) by exact Hk0. rewrite Ha.
    rewrite decide_True by exact Hlen. reflexivity. }
  assert (Hnull : attr_ind w' o index = Some OCI_IND_NULL).
  { unfold attr_ind. rewrite (Hk w'). unfold read_ind. cbn [inds w'].
    rewrite decide_True by exact Hk0. rewrite lookup_insert_eq.
    rewrite list_lookup_insert_eq by exact Hlen. reflexivity. }
  exists w'. split; [exact Hset|]. split.
  { rewrite (ObjectIsNull_run o attr w' OCI_IND_NULL Hidx Hnull). reflexivity. }
  split; [reflexivity|]. split; [reflexivity|].
  intros j Hj Hne.
  (* the cell of [j] is another one *)
  destruct Hfits as [Hind Hfit].
  assert (Hoff : forall i, 0 <= i < nb_cols (typinf o) ->
            ObjectGetIndOffset (Some (typinf o)) i =
            Some (1 + IndicatorOffset_spec (typinf o) (Z.to_nat i))).
  { intros i Hi. cbn [ObjectGetIndOffset].
    rewrite (IndOffset_spec_rel _ Hind) by lia.
    unfold nb_cols in Hi.
    pose proof (IndicatorOffset_spec_bounds (typinf o) (Z.to_nat i)
                  (length (cols (typinf o))) ltac:(lia)) as (B1 & B2 & B3).
    rewrite ub2_small by lia. reflexivity. }
  rewrite (Hoff index Hlt) in Hr. injection Hr as <-.
  assert (Hdiff : IndicatorOffset_spec (typinf o) (Z.to_nat j)
                  <> IndicatorOffset_spec (typinf o) (Z.to_nat index)).
  { unfold nb_cols in Hj, Hlt.
    destruct (Z.lt_ge_cases j index) as [Hji|Hji].
    - pose proof (IndicatorOffset_spec_bounds (typinf o) (Z.to_nat j)
                    (Z.to_nat index) ltac:(lia)) as (_ & B & _). lia.
    - pose proof (IndicatorOffset_spec_bounds (typinf o) (Z.to_nat index)
                    (Z.to_nat j) ltac:(lia)) as (_ & B & _). lia. }
  unfold attr_ind, ind_index_of, of_option, mbind, W_bind, mret, W_ret.
  rewrite (Hoff j Hj). unfold read_ind. cbn [inds w'].
  pose proof (IndicatorOffset_spec_bounds (typinf o) (Z.to_nat j)
                (Z.to_nat j) ltac:(unfold nb_cols in Hj; lia)) as (Bj & _).
  destruct (decide (0 <= idx_ind o + (1 + IndicatorOffset_spec (typinf o) (Z.to_nat j))));
    [|reflexivity].
  rewrite lookup_insert_eq, Ha.
  rewrite list_lookup_insert_ne by lia.
  match goal with |- context [a !! ?n] => destruct (a !! n) end; reflexivity.
Qed.

(** X18.  An attribute name that no column answers to: [ObjectSetNull],
    [ObjectIsNull], [ObjectSetBoolean] and [ObjectGetBoolean] record one
    "attribute not found" diagnostic and change nothing else.  The last
    three return FALSE (the getter with [OCI_STATUS] cleared), while
    [ObjectSetNull] returns [OCI_STATUS] as [OCI_CALL_ENTER] left it. *)
Theorem accessors_on_unknown_attribute (o : OCI_Object) (attr : string)
    (value : Z) (w : World) :
  (forall c, c ∈ cols (typinf o) -> ostrcasecmp_eq (col_name c) attr = false) ->
  let w' := MkWorld (caches w) (inds w) (mem w)
                    (raised w ++ [ExceptionAttributeNotFound attr]) (calls w) in
  ObjectSetNull (Some o) (Some attr) w = Some (call_enter_status, w') /\
  ObjectIsNull (Some o) (Some attr) w = Some (false, w') /\
  ObjectSetBoolean (Some o) (Some attr) value w = Some (false, w') /\
  ObjectGetBoolean (Some o) (Some attr) w = Some ((0, false), w').
Proof.
  intros Hnone w'.
  assert (Hfind : forall ty, find_attr (cols (typinf o)) ty attr 0 = -1).
  { intros ty.
    destruct (find_attr_first (cols (typinf o)) ty attr 0)
      as [[Hr _]|(n & c & _ & Hc & Hm & _)]; [exact Hr|].
    apply list_elem_of_lookup_2 in Hc. apply Hnone in Hc.
    unfold attr_matches in Hm. rewrite Hc, andb_false_r in Hm. discriminate. }
  assert (Hidx : forall ty,
            ObjectGetAttrIndex (Some o) (Some attr) ty true w = Some (-1, w')).
  { intros ty. unfold ObjectGetAttrIndex. rewrite Hfind.
    rewrite bool_decide_eq_true_2 by reflexivity. reflexivity. }
  unfold ObjectSetNull, ObjectIsNull, ObjectSetBoolean, ObjectGetBoolean.
  rewrite !(wbind_run _ _ _ _ _ (Hidx _)).
  rewrite !decide_False by lia. repeat split.
Qed.

End RoundTrips.

(** ** ObjectGetRealTypeInfo: the slow path *)

Section RealTypeInfoSlow.
Context `{TypeRuntime}.

(** X19.  A run of [ObjectGetRealTypeInfo] that calls anything ends with
    [MemObjectFree]; it frees the describe handle exactly when it allocated
    one; it returns the declared descriptor unless it asked [TypeInfoGet],
    whose answer it then returns, and it does not ask when [ListExists]
    already knows the real type.  The routine leaves defined behaviour
    only by dereferencing a [NULL] that [TypeInfoGet] returned. *)
Theorem ObjectGetRealTypeInfo_slow_path (t : OCI_TypeInfo) (object : Z) :
  (forall r log,
     ObjectGetRealTypeInfo (Some t) object = Some (r, log) -> log <> [] ->
     last log = Some "MemObjectFree"%string /\
     ("MemHandleAlloc"%string ∈ log <-> "MemHandleFree"%string ∈ log) /\
     ("TypeInfoGet"%string ∈ log -> "MemHandleAlloc"%string ∈ log) /\
     (r <> Some t -> "TypeInfoGet"%string ∈ log) /\
     ("TypeInfoGet"%string ∈ log ->
      exists name, r = TypeInfoGet name OCI_TIF_TYPE)) /\
  (ObjectGetRealTypeInfo (Some t) object = None ->
   exists name, TypeInfoGet name OCI_TIF_TYPE = None).
Proof.
  unfold ObjectGetRealTypeInfo.
  destruct (bool_decide (object <> 0) && bool_decide (ti_type t = OCI_TIF_TYPE)
            && negb (is_final t)).
  2:{ split; [|discriminate]. intros r log [= <- <-] Hne. contradiction. }
  unfold describe_real_type, exec, call.
  destruct MemObjectNew as [b1 ref]. cbn [fst snd app].
  destruct b1; cbn [fst snd app].
  2:{ rewrite !bool_decide_eq_false_2 by (intros Hn; apply Hn; reflexivity).
      cbn [andb fst snd app]. split; [|discriminate].
      intros r log [= <- <-] _.
      split; [reflexivity|]. split; [split; intros Hin; not_in_log Hin|].
      split; [intros Hin; not_in_log Hin|]. split; [intros Hn; contradiction|].
      intros Hin; not_in_log Hin. }
  repeat (cbn [fst snd app andb];
          match goal with
          | |- context [fst ?p] => destruct p as [? ?]
          | |- context [snd ?p] => destruct p as [? ?]
          | |- context [if ?b then _ else _] => destruct b
          | |- context [TypeInfoGet ?n ?k] =>
              lazymatch goal with
              | _ : TypeInfoGet n k = _ |- _ => fail
              | _ => destruct (TypeInfoGet n k) eqn:?
              end
          end).
  all: cbn [fst snd app].
  all: split;
    [intros r log [= <- <-] _
    |first [discriminate | intros _; eexists; eassumption]].
  all: split; [reflexivity|].
  all: split; [split; intros Hin; first [in_log | not_in_log Hin]|].
  all: split; [intros Hin; first [in_log | not_in_log Hin]|].
  all: split; [intros Hn; first [in_log | contradiction]|].
  all: intros Hin; first [not_in_log Hin | eexists; symmetry; eassumption].
Qed.

End RealTypeInfoSlow.

(** ** Raw attributes *)

Section RawFacts.
Context `{Platform} `{Runtime}.
Variable OCIRawSize : Mem -> Z -> Z.
Variable OCIRawPtr : Mem -> Z -> list Z.

(** X20.  [ObjectGetRaw] copies the first [len] bytes of a raw attribute,
    all of them when the raw is shorter, and returns the number of bytes
    copied; it never writes more than [len] bytes.  A buffer of
    [ObjectGetRawSize] bytes receives the whole value.  On a null attribute
    both return 0 with [OCI_STATUS] set and nothing is copied. *)
Theorem ObjectGetRaw_clamps_to_buffer (o : OCI_Object) (attr : string)
    (len : Z) (w : World) (v : Z) :
  let index := find_attr (cols (typinf o)) (Some OCI_CDT_RAW) attr 0 in
  raw_sized OCIRawSize OCIRawPtr ->
  consistent (typinf o) -> layout_ok (typinf o) = true ->
  0 <= index -> attr_ind w o index = Some v -> 0 < handle o ->
  0 <= len < 2 ^ 31 ->
  exists data k w',
    ObjectGetAttr o index w = Some ((data, k), w') /\ caches_only w w' /\
    let raw := OCIRawPtr (mem w) data in
    let size := Z.of_nat (length raw) in
    ObjectGetRawSize OCIRawSize (Some o) (Some attr) w
    = Some ((if decide (OCI_IND_NULL <> v) then size else 0, true), w') /\
    ObjectGetRaw OCIRawSize OCIRawPtr (Some o) (Some attr) len w
    = Some (if decide (OCI_IND_NULL <> v)
            then (Z.min len size, true, Some (take (Z.to_nat len) raw))
            else (0, true, None), w') /\
    (length (take (Z.to_nat len) raw) <= Z.to_nat len)%nat /\
    (size <= len -> take (Z.to_nat len) raw = raw).
Proof.
  intros index Hraw Hcons Hok Hidx Hv Hh Hlen.
  destruct (getter_prelude o attr (Some OCI_CDT_RAW) true w _ Hcons Hok Hidx Hv)
    as (Hfind & data & k & w' & Hattr & Hco & Hdata & Hread).
  exists data, k, w'. split; [exact Hattr|]. split; [exact Hco|].
  intros raw size.
  assert (Hm : mem w' = mem w) by (destruct Hco as (_ & -> & _); reflexivity).
  destruct (Hraw (mem w) data) as [Hsz Hsmall]. fold raw size in Hsz.
  assert (Hub : ub4 (OCIRawSize (mem w) data) = size).
  { unfold ub4. rewrite Hsz in *. apply Z.mod_small. lia. }
  split; [|split; [|split]].
  - unfold ObjectGetRawSize.
    rewrite (wbind_run _ _ _ _ _ Hfind). fold index.
    rewrite decide_True by exact Hidx.
    rewrite (wbind_run _ _ _ _ _ Hattr). cbn beta iota.
    rewrite decide_False by lia.
    rewrite (wbind_run _ _ _ _ _ Hread).
    destruct (decide (OCI_IND_NULL <> v)); [|reflexivity].
    unfold mbind, W_bind, read_mem, mret, W_ret. rewrite Hm, Hub.
    unfold uint. rewrite Z.mod_small by lia. reflexivity.
  - unfold ObjectGetRaw.
    rewrite (wbind_run _ _ _ _ _ Hfind). fold index.
    rewrite decide_True by exact Hidx.
    rewrite (wbind_run _ _ _ _ _ Hattr). cbn beta iota.
    rewrite decide_False by lia.
    rewrite (wbind_run _ _ _ _ _ Hread).
    destruct (decide (OCI_IND_NULL <> v)); [|reflexivity].
    unfold mbind, W_bind, read_mem, mret, W_ret. rewrite Hm, Hub. fold raw.
    destruct (decide (size < len)) as [Hlt|Hge].
    + rewrite decide_True by (fold size; lia).
      rewrite (Z.min_r len size) by lia.
      unfold to_int. replace ((size + 2 ^ 31) mod 2 ^ 32) with (size + 2 ^ 31)
        by (symmetry; apply Z.mod_small; lia).
      rewrite !take_ge by (unfold size in *; lia).
      replace (size + 2 ^ 31 - 2 ^ 31) with size by lia. reflexivity.
    + rewrite decide_True by (fold size; lia).
      rewrite (Z.min_l len size) by lia.
      unfold to_int. replace ((len + 2 ^ 31) mod 2 ^ 32) with (len + 2 ^ 31)
        by (symmetry; apply Z.mod_small; lia).
      replace (len + 2 ^ 31 - 2 ^ 31) with len by lia. reflexivity.
  - rewrite length_take. lia.
  - intros Hle. apply take_ge. unfold size in *. lia.
Qed.

End RawFacts.

(** ** The layout of a type without nesting *)

Section FlatLayout.
Context `{Platform}.
Variable rec : OCI_TypeInfo -> M (Z * Z).
Variable t : OCI_TypeInfo.
Variable B : Z.
Hypothesis Hflat : flat t.
Hypothesis Hru : rounds_up t B.

Lemma attr_info_plain idx c sz al h :
  0 <= idx -> cols t !! Z.to_nat idx = Some c ->
  exists h',
    ObjectGetAttrInfo rec t idx sz al h
    = Some ((true, fst (plain_attr_info c), snd (plain_attr_info c)), h') /\
    cache_of h' t =
      Layout (struct_size (cache_of h t))
             (Z.max (align (cache_of h t)) (snd (plain_attr_info c)))
             (offsets (cache_of h t)).
Proof.
  intros Hidx Hc. pose proof (lookup_lt_Some _ _ _ Hc) as Hlt.
  assert (Hobj : col_datatype c <> OCI_CDT_OBJECT).
  { apply (proj2 Hflat). apply list_elem_of_lookup_2 in Hc. exact Hc. }
  unfold ObjectGetAttrInfo.
  rewrite decide_False by (unfold nb_cols; lia).
  rewrite decide_False by lia. rewrite Hc.
  assert (Hfin : forall s a,
    exists h',
      (('(sz', al') ← mret (s, a);
        l ← get_layout t;
        _ ← (if decide (align l < al') then set_align t al' else mret tt);
        mret (true, sz', al')) : M (bool * Z * Z)) h
      = Some ((true, s, a), h') /\
      cache_of h' t = Layout (struct_size (cache_of h t))
                             (Z.max (align (cache_of h t)) a)
                             (offsets (cache_of h t))).
  { intros s a. unfold mbind, M_bind, mret, M_ret, get_layout.
    destruct (decide (align (cache_of h t) < a)) as [Hl|Hl].
    - rewrite set_align_run. eexists. split; [reflexivity|].
      rewrite cache_of_insert_eq, Z.max_r by lia. reflexivity.
    - exists h. split; [reflexivity|].
      rewrite Z.max_l by lia. symmetry. apply layout_eta. }
  unfold plain_attr_info.
  destruct (col_datatype c); try contradiction; try apply Hfin.
  destruct (has_flag (col_subtype c) OCI_NUM_SHORT); [apply Hfin|].
  destruct (has_flag (col_subtype c) OCI_NUM_INT); [apply Hfin|].
  destruct (has_flag (col_subtype c) OCI_NUM_FLOAT); [apply Hfin|].
  destruct (has_flag (col_subtype c) OCI_NUM_DOUBLE); apply Hfin.
Qed.

Lemma attr_info_past idx sz al h :
  nb_cols t <= idx ->
  ObjectGetAttrInfo rec t idx sz al h = Some ((false, 0, al), h).
Proof.
  intros Hidx. unfold ObjectGetAttrInfo. rewrite decide_True by exact Hidx.
  reflexivity.
Qed.

#[local] Abbreviation sz_of c := (fst (plain_attr_info c)).
#[local] Abbreviation al_of c := (snd (plain_attr_info c)).

(** The first half of an iteration of the main loop: the offset of column
    [i] is stored, and the size and the alignment of that column are at
    hand. *)
Lemma flat_loop_head i size size1 size2 al c h :
  0 <= i < nb_cols t -> cols t !! Z.to_nat i = Some c ->
  0 <= size < 2 ^ 31 ->
  (i = 0 /\ size = 0 /\ align (cache_of h t) = 0 \/
   0 < i /\ size2 = sz_of c /\ al = al_of c /\
   al_of c <= align (cache_of h t) /\
   exists c0, c0 ∈ cols t /\ align (cache_of h t) = al_of c0) ->
  exists h1 A1,
    (if decide (0 < i) then
       _ ← set_offset t i (to_int size);
       mret (size2, al)
     else
       '(_, s1, a) ← ObjectGetAttrInfo rec t i size1 al;
       _ ← set_offset t i 0;
       mret (s1, a)) h = Some ((sz_of c, al_of c), h1) /\
    cache_of h1 t = Layout (struct_size (cache_of h t)) A1
                           (<[i := size]> (offsets (cache_of h t))) /\
    al_of c <= A1 /\ align (cache_of h t) <= A1 /\
    exists c0, c0 ∈ cols t /\ A1 = al_of c0.
Proof.
  intros Hi Hc Hsize Hentry.
  assert (Hin : c ∈ cols t) by (apply list_elem_of_lookup_2 in Hc; exact Hc).
  destruct (proj2 Hru c Hin) as (Hs & Ha & _).
  destruct Hentry as [(-> & -> & Hal)|(Hpos & -> & -> & Hle & Hmem)].
  - rewrite decide_False by lia.
    destruct (attr_info_plain 0 c size1 al h ltac:(lia) Hc) as (h' & Hrun & Hcache).
    rewrite (bind_run _ _ _ _ _ Hrun). cbn beta iota.
    rewrite (bind_run _ _ _ _ _ (set_offset_run t 0 0 h' Hi)).
    eexists _, (al_of c). split; [reflexivity|].
    rewrite cache_of_insert_eq, Hcache. cbn [struct_size align offsets].
    rewrite Hal, Z.max_r by lia.
    split; [reflexivity|]. split; [lia|]. split; [lia|].
    exists c. split; [exact Hin|reflexivity].
  - rewrite decide_True by exact Hpos.
    rewrite (bind_run _ _ _ _ _ (set_offset_run t i (to_int size) h Hi)).
    eexists _, (align (cache_of h t)). split; [reflexivity|].
    rewrite cache_of_insert_eq.
    assert (to_int size = size) as ->.
    { unfold to_int. rewrite Z.mod_small by lia. lia. }
    split; [reflexivity|]. split; [exact Hle|]. split; [lia|]. exact Hmem.
Qed.

(** The main loop from column [i] on. *)
Lemma flat_loop k : forall i size size1 size2 al c h,
  0 <= i -> i + Z.of_nat (S k) = nb_cols t ->
  cols t !! Z.to_nat i = Some c ->
  0 <= size <= i * (2 * B) -> (al_of c | size) ->
  (i = 0 /\ size = 0 /\ align (cache_of h t) = 0 \/
   0 < i /\ size2 = sz_of c /\ al = al_of c /\
   al_of c <= align (cache_of h t) /\
   exists c0, c0 ∈ cols t /\ align (cache_of h t) = al_of c0) ->
  exists size' h',
    layout_loop rec t (S k) i size size1 size2 al h = Some ((size', 0), h') /\
    struct_size (cache_of h' t) = struct_size (cache_of h t) /\
    (forall j, j < i ->
       offsets (cache_of h' t) !! j = offsets (cache_of h t) !! j) /\
    align (cache_of h t) <= align (cache_of h' t) /\
    (exists c0, c0 ∈ cols t /\ align (cache_of h' t) = al_of c0) /\
    0 <= size' <= nb_cols t * (2 * B) /\
    offset_at (cache_of h' t) i = size /\
    forall j cj, i <= j -> cols t !! Z.to_nat j = Some cj ->
      0 <= offset_at (cache_of h' t) j /\
      (al_of cj | offset_at (cache_of h' t) j) /\
      offset_at (cache_of h' t) j + sz_of cj <= size' /\
      al_of cj <= align (cache_of h' t) /\
      forall cn, cols t !! Z.to_nat (j + 1) = Some cn ->
        offset_at (cache_of h' t) j + sz_of cj
        <= offset_at (cache_of h' t) (j + 1).
Proof.
  destruct Hru as [Hbound Hcols].
  induction k as [|k IH]; intros i size size1 size2 al c h Hi Hn Hc Hsize Hdiv Hentry.
  - (* the last column *)
    assert (Hin : c ∈ cols t) by (apply list_elem_of_lookup_2 in Hc; exact Hc).
    destruct (Hcols c Hin) as (Hs & Ha & Hround).
    assert (HB : 0 < B) by lia.
    assert (Hib : i * (2 * B) <= (nb_cols t - 1) * (2 * B))
      by (apply Z.mul_le_mono_nonneg_r; lia).
    destruct (flat_loop_head i size size1 size2 al c h ltac:(lia) Hc ltac:(lia) Hentry)
      as (h1 & A1 & Hhead & Hcache & HA1 & HA2 & HA3).
    cbn [layout_loop]. rewrite (bind_run _ _ _ _ _ Hhead). cbn beta iota.
    rewrite (bind_run _ _ _ _ _
               (attr_info_past (i + 1) size2 (al_of c) h1 ltac:(lia))).
    cbn beta iota zeta.
    assert (Hx : size_t (size + sz_of c) = size + sz_of c).
    { unfold size_t. apply Z.mod_small. lia. }
    rewrite Hx.
    assert (Hx31 : 0 <= size + sz_of c < 2 ^ 31) by lia.
    destruct (Hround (size + sz_of c) Hx31) as [Hr1 Hr2].
    assert (Hy : size_t (ROUNDUP (size + sz_of c) (al_of c))
                 = ROUNDUP (size + sz_of c) (al_of c)).
    { unfold size_t. apply Z.mod_small. lia. }
    rewrite Hy.
    eexists _, h1. split; [reflexivity|]. rewrite Hcache.
    cbn [struct_size align offsets].
    split; [reflexivity|]. split.
    { intros j Hj. rewrite lookup_insert_ne by lia. reflexivity. }
    split; [exact HA2|]. split; [exact HA3|]. split; [lia|].
    unfold offset_at. cbn [offsets]. split.
    { rewrite lookup_insert_eq. reflexivity. }
    intros j cj Hj Hcj. pose proof (lookup_lt_Some _ _ _ Hcj) as Hlt.
    assert (j = i) as -> by (unfold nb_cols in Hn; lia).
    rewrite Hc in Hcj. injection Hcj as <-.
    rewrite lookup_insert_eq. cbn [default from_option]. unfold id.
    split; [lia|]. split; [exact Hdiv|]. split; [lia|]. split; [exact HA1|].
    intros cn Hcn. apply lookup_lt_Some in Hcn. unfold nb_cols in Hn. lia.
  - (* a column with a successor *)
    assert (Hin : c ∈ cols t) by (apply list_elem_of_lookup_2 in Hc; exact Hc).
    destruct (Hcols c Hin) as (Hs & Ha & _).
    assert (HB : 0 < B) by lia.
    assert (Hib : i * (2 * B) <= (nb_cols t - 1) * (2 * B))
      by (apply Z.mul_le_mono_nonneg_r; lia).
    destruct (flat_loop_head i size size1 size2 al c h ltac:(lia) Hc ltac:(lia) Hentry)
      as (h1 & A1 & Hhead & Hcache & HA1 & HA2 & HA3).
    destruct (lookup_lt_is_Some_2 (cols t) (Z.to_nat (i + 1))
                ltac:(unfold nb_cols in Hn; lia)) as [cn Hcn].
    assert (Hinn : cn ∈ cols t) by (apply list_elem_of_lookup_2 in Hcn; exact Hcn).
    destruct (Hcols cn Hinn) as (Hsn & Han & Hround).
    destruct (attr_info_plain (i + 1) cn size2 (al_of c) h1 ltac:(lia) Hcn)
      as (h2 & Hnext & Hcache2).
    rewrite Hcache in Hcache2. cbn [struct_size align offsets] in Hcache2.
    assert (Hx : size_t (size + sz_of c) = size + sz_of c).
    { unfold size_t. apply Z.mod_small. lia. }
    assert (Hx31 : 0 <= size + sz_of c < 2 ^ 31) by lia.
    destruct (Hround (size + sz_of c) Hx31) as [Hr1 Hr2].
    assert (Hy : size_t (ROUNDUP (size + sz_of c) (al_of cn))
                 = ROUNDUP (size + sz_of c) (al_of cn)).
    { unfold size_t. apply Z.mod_small. lia. }
    destruct (IH (i + 1) (ROUNDUP (size + sz_of c) (al_of cn)) (sz_of c)
                (sz_of cn) (al_of cn) cn h2
                ltac:(lia) ltac:(lia) Hcn ltac:(lia) Hr2)
      as (size' & h' & Hrun & Hss & Hbefore & Hmono & Hmem & Hsz' & Hoff & Hall).
    { right. split; [lia|]. split; [reflexivity|]. split; [reflexivity|].
      rewrite Hcache2. cbn [align]. split; [lia|].
      destruct HA3 as (c0 & Hc0 & ->).
      destruct (Z.max_spec (al_of c0) (al_of cn)) as [[_ ->]|[_ ->]].
      - exists cn. split; [exact Hinn|reflexivity].
      - exists c0. split; [exact Hc0|reflexivity]. }
    change (layout_loop rec t (S (S k)) i size size1 size2 al h) with
      (('(size1, align_) ←
          (if decide (0 < i) then
             _ ← set_offset t i (to_int size);
             mret (size2, al)
           else
             '(_, s1, a) ← ObjectGetAttrInfo rec t i size1 al;
             _ ← set_offset t i 0;
             mret (s1, a));
        '(_, size2, align_) ← ObjectGetAttrInfo rec t (i + 1) size2 align_;
        let size := size_t (size + size1) in
        let size := size_t (ROUNDUP size align_) in
        layout_loop rec t (S k) (i + 1) size size1 size2 align_) h).
    rewrite (bind_run _ _ _ _ _ Hhead). cbn beta iota.
    rewrite (bind_run _ _ _ _ _ Hnext). cbn beta iota zeta.
    rewrite Hx, Hy.
    exists size', h'. split; [exact Hrun|].
    rewrite Hcache2 in Hss, Hbefore, Hmono. cbn [struct_size align offsets] in *.
    split; [exact Hss|]. split.
    { intros j Hj. rewrite Hbefore by lia. rewrite lookup_insert_ne by lia.
      reflexivity. }
    split; [lia|]. split; [exact Hmem|]. split; [lia|].
    assert (Hoffi : offset_at (cache_of h' t) i = size).
    { unfold offset_at. rewrite Hbefore by lia. rewrite lookup_insert_eq.
      reflexivity. }
    split; [exact Hoffi|].
    intros j cj Hj Hcj.
    destruct (decide (j = i)) as [->|Hne].
    + rewrite Hc in Hcj. injection Hcj as <-. rewrite Hoffi.
      destruct (Hall (i + 1) cn ltac:(lia) Hcn) as (Q1 & Q2 & Q3 & Q4 & Q5).
      split; [lia|]. split; [exact Hdiv|]. split; [lia|]. split; [lia|].
      intros cn' Hcn'. rewrite Hoff. lia.
    + apply (Hall j cj); [lia|exact Hcj].
Qed.

End FlatLayout.

(** X21.  For a root type with no object column, computed from a fresh
    cache on a platform whose [ROUNDUP] rounds up to a multiple,
    [ObjectGetStructSize] lays the attributes out as a C struct: the first
    at offset 0, each at a multiple of its alignment and after the end of
    the one before, all within the returned size; the returned alignment
    is at least that of every attribute and divides the size. *)
Theorem ObjectGetStructSize_flat_layout `{Platform} (t : OCI_TypeInfo) (B : Z)
    (h : gmap ptr layout) (sz al : Z) :
  flat t -> rounds_up t B -> 0 < nb_cols t ->
  struct_size (cache_of h t) = 0 -> align (cache_of h t) = 0 ->
  exists size al' h',
    ObjectGetStructSize (Some t) sz al h = Some ((size, al'), h') /\
    struct_size (cache_of h' t) = size /\ align (cache_of h' t) = al' /\
    0 < size /\ (al' | size) /\
    offset_at (cache_of h' t) 0 = 0 /\
    forall j c, 0 <= j -> cols t !! Z.to_nat j = Some c ->
      0 <= offset_at (cache_of h' t) j /\
      (snd (plain_attr_info c) | offset_at (cache_of h' t) j) /\
      offset_at (cache_of h' t) j + fst (plain_attr_info c) <= size /\
      snd (plain_attr_info c) <= al' /\
      forall cn, cols t !! Z.to_nat (j + 1) = Some cn ->
        offset_at (cache_of h' t) j + fst (plain_attr_info c)
        <= offset_at (cache_of h' t) (j + 1).
Proof.
  intros Hflat Hru Hn Hss Hal.
  pose proof (depth_unfold t) as Hd.
  set (d := Nat.max _ _) in Hd.
  unfold ObjectGetStructSize. rewrite Hd. cbn [GetStructSize_fuel].
  set (rec := GetStructSize_fuel d).
  destruct (lookup_lt_is_Some_2 (cols t) (Z.to_nat 0)
              ltac:(unfold nb_cols in Hn; lia)) as [c0 Hc0].
  assert (Hin0 : c0 ∈ cols t) by (apply list_elem_of_lookup_2 in Hc0; exact Hc0).
  destruct (proj2 Hru c0 Hin0) as (Hs0 & Ha0 & _).
  destruct (flat_loop rec t B Hflat Hru (Z.to_nat (nb_cols t) - 1) 0 0 0 0 0 c0 h
              ltac:(lia) ltac:(lia) Hc0 ltac:(lia) (Z.divide_0_r _))
    as (size' & h1 & Hrun & Hss1 & _ & _ & (ca & Hca & Hal1) & Hsz' & Hoff0 & Hall).
  { left. split; [reflexivity|]. split; [reflexivity|exact Hal]. }
  destruct (proj2 Hru ca Hca) as (_ & Haa & Hround).
  destruct Hru as [Hbound _].
  assert (Hx31 : 0 <= size' + 0 < 2 ^ 31) by lia.
  destruct (Hround (size' + 0) Hx31) as [Hr1 Hr2].
  set (size := ROUNDUP (size' + 0) (snd (plain_attr_info ca))) in *.
  set (h2 := <[ti_addr t := Layout size (align (cache_of h1 t))
                                   (offsets (cache_of h1 t))]> h1).
  assert (Hcompute : GetStructSize_compute rec t h = Some (tt, h2)).
  { unfold GetStructSize_compute, GetStructSize_parent.
    rewrite (proj1 Hflat).
    unfold mbind at 1, M_bind at 1, mret at 1, M_ret at 1.
    unfold GetStructSize_finish.
    replace (Z.to_nat (nb_cols t - 0)) with (S (Z.to_nat (nb_cols t) - 1)) by lia.
    rewrite (bind_run _ _ _ _ _ Hrun). cbn beta iota.
    unfold mbind, M_bind, get_layout. rewrite set_struct_size_run.
    rewrite Hal1. fold size.
    assert (size_t (size' + 0) = size' + 0) as ->
      by (unfold size_t; apply Z.mod_small; lia).
    fold size.
    assert (size_t size = size) as ->
      by (unfold size_t; apply Z.mod_small; lia).
    rewrite <- Hal1. reflexivity. }
  rewrite (body_computes rec t h h2 Hss Hcompute).
  assert (Hcache : cache_of h2 t = Layout size (align (cache_of h1 t))
                                          (offsets (cache_of h1 t)))
    by apply cache_of_insert_eq.
  exists size, (align (cache_of h1 t)), h2.
  unfold res. rewrite Hcache. cbn [struct_size align].
  split; [reflexivity|]. split; [reflexivity|]. split; [reflexivity|].
  destruct (Hall 0 c0 ltac:(lia) Hc0) as (Q1 & _ & Q3 & _).
  split; [lia|]. split; [rewrite Hal1; exact Hr2|].
  unfold offset_at in *. cbn [offsets].
  split; [exact Hoff0|].
  intros j c Hj Hc. destruct (Hall j c Hj Hc) as (P1 & P2 & P3 & P4 & P5).
  split; [exact P1|]. split; [exact P2|]. split; [lia|]. split; [exact P4|].
  exact P5.
Qed.

(** ** The claims on the sample session *)

#[local] Existing Instance lp64.
#[local] Existing Instance rt_map.

Lemma ty_item_consistent : consistent ty_item.
Proof. apply consistentb_sound. vm_compute. reflexivity. Qed.

(** C5 on [MADE] of the sample instance. *)
Lemma setters_absent_value_set_null_witness :
  0 <= find_attr (cols (typinf obj_item)) None "made" 0 /\
  attr_ind w_item obj_item (find_attr (cols (typinf obj_item)) None "made" 0)
  = Some OCI_IND_NULL /\
  exists w',
    ObjectSetNull (Some obj_item) (Some "made"%string) w_item = Some (true, w') /\
    OCI_OBJECT_SET_VALUE OCI_CDT_DATETIME "OCIDateAssign" assign_fails
      (Some obj_item) (Some "made"%string) None w_item = Some (true, w') /\
    ObjectSetString (Some obj_item) (Some "made"%string) None w_item
    = Some (true, w') /\
    ObjectSetNumber assign_fails (Some obj_item) (Some "made"%string) None w_item
    = Some (true, w') /\
    ObjectSetDate assign_fails (Some obj_item) (Some "made"%string) None w_item
    = Some (true, w') /\
    ObjectSetLob assign_fails (Some obj_item) (Some "made"%string) None w_item
    = Some (true, w') /\
    attr_ind w' obj_item (find_attr (cols (typinf obj_item)) None "made" 0)
    = Some OCI_IND_NULL /\
    mem w' = mem w_item /\ calls w' = calls w_item /\
    raised w' = raised w_item /\ caches w' = caches w_item.
Proof.
  assert (Hidx : 0 <= find_attr (cols (typinf obj_item)) None "made" 0)
    by (vm_compute; discriminate).
  assert (Hv : attr_ind w_item obj_item
                 (find_attr (cols (typinf obj_item)) None "made" 0)
               = Some OCI_IND_NULL) by (vm_compute; reflexivity).
  split; [exact Hidx|]. split; [exact Hv|].
  exact (setters_absent_value_set_null (H0 := rt_map) OCI_CDT_DATETIME
           "OCIDateAssign" assign_fails assign_fails obj_item "made" w_item
           OCI_IND_NULL Hidx Hv).
Defined.




(** C10 on the sample instance: [FLAG], whose indicator is -2, read as a
    boolean, and [MADE] with the same indicator, read as a date. *)
Lemma IsNull_and_getters_disagree_witness :
  let w_bad :=
    MkWorld (H0 := rt_map) ∅
      {[ 9%positive := [OCI_IND_NOTNULL; OCI_IND_NULL; OCI_IND_BADNULL;
                        OCI_IND_NULL; OCI_IND_BADNULL] ]}
      ({[ 4096 := 7; 4100 := 1 ]} : gmap Z Z) [] [] in
  OCI_IND_BADNULL <> OCI_IND_NULL /\ OCI_IND_BADNULL <> OCI_IND_NOTNULL /\
  attr_ind w_item obj_item (find_attr (cols (typinf obj_item)) None "flag" 0)
  = Some OCI_IND_BADNULL /\
  (exists data k w',
     ObjectGetAttr (H := lp64) obj_item
       (find_attr (cols (typinf obj_item)) None "flag" 0) w_item
     = Some ((data, k), w') /\
     ObjectIsNull (Some obj_item) (Some "flag"%string) w_item
     = Some (true, w_item) /\
     ObjectGetBoolean (H := lp64) (Some obj_item) (Some "flag"%string) w_item
     = Some ((load_boolean (mem w_item) data, true), w')) /\
  (exists r st o' w',
     ObjectIsNull (Some obj_item) (Some "made"%string) w_bad
     = Some (true, w_bad) /\
     ObjectGetDate (H := lp64) init_wrapper (Some obj_item) (Some "made"%string)
       w_bad = Some ((Some r, st, o'), w')).
Proof.
  intros w_bad.
  assert (Hn : OCI_IND_BADNULL <> OCI_IND_NULL) by discriminate.
  assert (Hnn : OCI_IND_BADNULL <> OCI_IND_NOTNULL) by discriminate.
  assert (Hv : attr_ind w_item obj_item
                 (find_attr (cols (typinf obj_item)) None "flag" 0)
               = Some OCI_IND_BADNULL) by (vm_compute; reflexivity).
  split; [exact Hn|]. split; [exact Hnn|]. split; [exact Hv|]. split.
  - destruct (IsNull_and_getters_disagree (H := lp64) (H0 := rt_map)
                obj_item "flag" w_item OCI_IND_BADNULL
                ty_item_consistent
                ltac:(vm_compute; reflexivity) ltac:(vm_compute; discriminate)
                ltac:(vm_compute; reflexivity) Hv)
      as (_ & Hbool & _).
    destruct (Hbool ltac:(vm_compute; reflexivity))
      as (data & k & w' & Hattr & _ & Hboth).
    destruct (Hboth Hn Hnn) as [Hnull Hget].
    exists data, k, w'. split; [exact Hattr|]. split; [exact Hnull|exact Hget].
  - destruct (IsNull_and_getters_disagree (H := lp64) (H0 := rt_map)
                obj_item "made" w_bad OCI_IND_BADNULL
                ty_item_consistent
                ltac:(vm_compute; reflexivity) ltac:(vm_compute; discriminate)
                ltac:(vm_compute; reflexivity) ltac:(vm_compute; reflexivity))
      as (_ & _ & Hmacro).
    destruct (Hmacro OCI_CDT_DATETIME init_wrapper ltac:(vm_compute; reflexivity))
      as (data & k & w' & Hattr & Hboth).
    destruct (Hboth Hn Hnn) as [Hnull Hget].
    eexists _, _, _, _. split; [exact Hnull|]. unfold ObjectGetDate.
    rewrite Hget. reflexivity.
Defined.

(** C8 on the sample catalog: a final type with a handle, a non-final
    type without one, and a non-final type with one. *)
Lemma ObjectGetRealTypeInfo_fast_path_witness :
  ObjectGetRealTypeInfo (H := tr_sample) (Some ty_inner) 4096
  = Some (Some ty_inner, []) /\
  ObjectGetRealTypeInfo (H := tr_sample) (Some ty_person) 0
  = Some (Some ty_person, []) /\
  (exists r log,
     ObjectGetRealTypeInfo (H := tr_sample) (Some ty_person) 4096
     = Some (r, log) /\ log <> [] /\
     (4096 <> 0 /\ ti_type ty_person = OCI_TIF_TYPE /\
      is_final ty_person = false) /\
     exists l, log = "MemObjectNew"%string :: l).
Proof.
  split; [|split].
  - apply (proj1 (ObjectGetRealTypeInfo_fast_path (H := tr_sample) ty_inner 4096)).
    left. reflexivity.
  - apply (proj1 (ObjectGetRealTypeInfo_fast_path (H := tr_sample) ty_person 0)).
    right. left. reflexivity.
  - destruct (ObjectGetRealTypeInfo (H := tr_sample) (Some ty_person) 4096)
      as [[r log]|] eqn:Hrun; [|vm_compute in Hrun; discriminate].
    assert (Hlog : log <> []).
    { vm_compute in Hrun. injection Hrun as _ <-. discriminate. }
    exists r, log. split; [reflexivity|]. split; [exact Hlog|].
    destruct (ObjectGetRealTypeInfo_fast_path (H := tr_sample) ty_person 4096)
      as (_ & _ & Hslow & Hfirst).
    split; [exact (Hslow r log Hrun Hlog)|].
    apply (Hfirst ltac:(lia) eq_refl eq_refl r log Hrun).
Defined.

(** ** Struct size of a subtype that declares no column *)

(** The mask formulation sends every amount to 0 at the alignment 0, so
    that [ObjectGetStructSize_no_own_column] applies to the sample
    platform. *)
Lemma ROUNDUP_mask_zero x : ROUNDUP_mask x 0 = 0.
Proof.
  unfold ROUNDUP_mask.
  change (size_t (Z.lnot (size_t (0 - 1)))) with 0. apply Z.land_0_r.
Qed.

(** C1 at [STUDENT UNDER PERSON] on the sample platform.  [PERSON] is laid
    out first: size 4, alignment 4, offset 0.  The layout of [STUDENT]
    copies that offset, and stores the struct size 0: [typinf->align] is
    seeded with the alignment of the parent only when the subtype has a
    column of its own, so the size of the parent is rounded to the
    alignment 0.  The subtype ends up smaller than its parent.  (On every
    platform the inherited offsets are those of the parent and the size of
    such a subtype is the size of the parent rounded to the alignment 0:
    [ObjectGetStructSize_inherits].) *)
Theorem ObjectGetStructSize_subtype_without_columns :
  exists h1 h2,
    ObjectGetStructSize (H := lp64) (Some ty_person) 0 0 ∅ = Some ((4, 4), h1) /\
    ObjectGetStructSize (H := lp64) (Some ty_student) 0 0 h1 = Some ((0, 0), h2) /\
    parent_type ty_student = Some ty_person /\
    struct_size (cache_of h2 ty_person) = 4 /\
    struct_size (cache_of h2 ty_student) = 0 /\
    offset_at (cache_of h2 ty_student) 0 = offset_at (cache_of h2 ty_person) 0 /\
    ~ struct_size (cache_of h2 ty_student) >= struct_size (cache_of h2 ty_person).
Proof.
  eexists _, _. split; [vm_compute; reflexivity|].
  split; [vm_compute; reflexivity|].
  split; [reflexivity|]. vm_compute. repeat split; congruence.
Qed.

(** ** The properties on the samples *)

(** The mask formulation rounds up to a multiple of a power of two. *)
Lemma ROUNDUP_mask_pow2 x k :
  0 <= x < 2 ^ 31 -> 0 <= k <= 30 ->
  ROUNDUP_mask x (2 ^ k) = 2 ^ k * ((x + 2 ^ k - 1) / 2 ^ k).
Proof.
  intros Hx Hk. unfold ROUNDUP_mask, size_t.
  assert (Hp : 1 <= 2 ^ k <= 2 ^ 30).
  { split; [pose proof (Z.pow_pos_nonneg 2 k); lia|].
    apply Z.pow_le_mono_r; lia. }
  rewrite (Z.mod_small x) by lia.
  rewrite (Z.mod_small (2 ^ k - 1)) by lia.
  rewrite (Z.mod_small (x + (2 ^ k - 1))) by lia.
  replace (2 ^ k - 1) with (Z.ones k) at 2 by (rewrite Z.ones_equiv; lia).
  rewrite <- (Z.land_ones (Z.lnot (Z.ones k)) 64) by lia.
  rewrite Z.land_assoc.
  rewrite (Z.land_comm (x + (2 ^ k - 1)) (Z.lnot (Z.ones k))).
  rewrite <- Z.land_assoc.
  rewrite (Z.land_ones (x + (2 ^ k - 1)) 64) by lia.
  rewrite (Z.mod_small (x + (2 ^ k - 1))) by lia.
  rewrite Z.land_comm, <- Z.ldiff_land.
  rewrite Z.ldiff_ones_r by lia.
  rewrite Z.shiftl_mul_pow2, Z.shiftr_div_pow2 by lia.
  replace (x + (2 ^ k - 1)) with (x + 2 ^ k - 1) by lia. lia.
Qed.

Lemma ROUNDUP_mask_rounds x k :
  0 <= x < 2 ^ 31 -> 0 <= k <= 30 ->
  x <= ROUNDUP_mask x (2 ^ k) < x + 2 ^ k /\ (2 ^ k | ROUNDUP_mask x (2 ^ k)).
Proof.
  intros Hx Hk. rewrite ROUNDUP_mask_pow2 by assumption.
  assert (Hp : 0 < 2 ^ k) by (apply Z.pow_pos_nonneg; lia).
  pose proof (Z.div_mod (x + 2 ^ k - 1) (2 ^ k) ltac:(lia)) as Hdm.
  pose proof (Z.mod_pos_bound (x + 2 ^ k - 1) (2 ^ k) Hp) as Hm.
  split; [lia|]. exists ((x + 2 ^ k - 1) / 2 ^ k). lia.
Qed.

(** *** The hash table *)

Lemma ht_sample_empty i es (e : OCI_HashEntry) :
  ht_items ht_sample !! i = Some es -> e ∈ es -> False.
Proof.
  intros Hl He. destruct i as [|[|[|[|i]]]]; simpl in Hl; try discriminate;
    injection Hl as <-; inversion He.
Qed.

Lemma ht_sample_wf : hash_wf toupper_C ht_sample.
Proof.
  split; [simpl; lia|]. split; [reflexivity|].
  intros i es e Hl He. destruct (ht_sample_empty i es e Hl He).
Qed.

(** X1 on the sample table: [Name] and [NAME] share a bucket. *)
Lemma HashCompute_bucket_witness :
  (exists i, HashCompute toupper_C (Some ht_sample) (Some "Name"%string) = Some i /\
             0 <= i < 4) /\
  HashCompute toupper_C (Some ht_sample) (Some "Name"%string)
  = HashCompute toupper_C (Some ht_sample) (Some "NAME"%string).
Proof.
  destruct (HashCompute_bucket toupper_C ht_sample "Name" "NAME") as (A & _ & C).
  split.
  - apply A. simpl. lia.
  - apply C; [exact toupper_C_folds|reflexivity].
Defined.

(** X2 on the sample table, read back under another spelling of the key. *)
Lemma HashAdd_appends_value_witness :
  exists t' a' vals,
    HashAdd toupper_C (Some ht_sample) (Some "Name"%string)
            (VText (Some "Ann"%string)) OCI_HASH_STRING []
    = Some (true, Some t', a') /\
    HashGetValue toupper_C (Some ht_sample) (Some "Name"%string) = Some vals /\
    HashGetValue toupper_C (Some t') (Some "NAME"%string)
    = Some (vals ++ [VText (Some "Ann"%string)]).
Proof.
  destruct (HashAdd_appends_value (H := rt_map) toupper_C ht_sample "Name"
              (VText (Some "Ann"%string)) [] eq_refl ht_sample_wf I (Forall_nil_2 _))
    as (t' & a' & vals & A & B & _ & D).
  exists t', a', vals. split; [exact A|]. split; [exact B|].
  exact (proj2 (D toupper_C_folds "NAME"%string eq_refl)).
Defined.

(** X3 on the sample table: adding under [Name] leaves [Age] alone. *)
Lemma HashAdd_other_keys_witness :
  exists t' a',
    HashAdd toupper_C (Some ht_sample) (Some "Name"%string)
            (VText (Some "Ann"%string)) OCI_HASH_STRING []
    = Some (true, Some t', a') /\
    HashGetValue toupper_C (Some t') (Some "Age"%string)
    = HashGetValue toupper_C (Some ht_sample) (Some "Age"%string).
Proof.
  apply (HashAdd_other_keys (H := rt_map) toupper_C ht_sample "Name" "Age"
           (VText (Some "Ann"%string)) [] eq_refl ht_sample_wf I (Forall_nil_2 _)).
  unfold same_key. simpl. discriminate.
Defined.

(** X4 on a table of four buckets. *)
Lemma HashAdd_keeps_table_well_formed_witness :
  (exists t0 a0, HashCreate 4 OCI_HASH_STRING [] = Some (t0, a0) /\
                 hash_wf toupper_C t0) /\
  exists t' a',
    HashAdd toupper_C (Some ht_sample) (Some "Name"%string)
            (VText (Some "Ann"%string)) OCI_HASH_STRING []
    = Some (true, Some t', a') /\
    hash_wf toupper_C t' /\ ht_size t' = 4.
Proof.
  destruct (HashAdd_keeps_table_well_formed (H := rt_map) toupper_C 4 OCI_HASH_STRING ht_sample
              "Name" (VText (Some "Ann"%string)) [] (Forall_nil_2 _)) as [A B].
  split.
  - destruct (A ltac:(lia)) as (t0 & a0 & A1 & A2 & _).
    exists t0, a0. split; assumption.
  - destruct (B eq_refl ht_sample_wf I) as (t' & a' & B1 & B2 & _ & B4 & _).
    exists t', a'. split; [exact B1|]. split; [exact B2|exact B4].
Defined.

(** X5 on the sample table, which holds no key. *)
Lemma HashLookup_missing_key_witness :
  HashLookup toupper_C (Some ht_sample) (Some "Name"%string) false []
  = Some (None, Some ht_sample, []) /\
  HashGetString toupper_C (Some ht_sample) (Some "Name"%string) = Some None.
Proof.
  destruct (HashLookup_missing_key (H := rt_map) toupper_C ht_sample "Name") as [_ B].
  destruct B as (B1 & _ & B3 & _).
  - reflexivity.
  - exact ht_sample_wf.
  - intros i es e x Hl He. destruct (ht_sample_empty i es e Hl He).
  - split; assumption.
Defined.


(** *** Files *)

(** X7 on the sample file: five bytes forward from position 10. *)
Lemma FileSeek_moves_within_file_witness :
  exists f',
    FileSeek (H0 := fr_sample) (Some file_sample) 5 OCI_SEEK_CUR = (true, Some f') /\
    FileGetOffset (Some f') = 15.
Proof.
  pose proof (FileSeek_moves_within_file (H := rt_map) (H0 := fr_sample)
                file_sample 5 OCI_SEEK_CUR) as P.
  cbv zeta in P.
  destruct P as (A & _ & _).
  - lia.
  - vm_compute. reflexivity.
  - vm_compute. split; discriminate.
  - destruct A as (f' & A1 & A2 & _).
    + vm_compute. split; discriminate.
    + exists f'. split; [exact A1|]. rewrite A2. reflexivity.
Defined.


(** *** Allocation bookkeeping *)

Lemma mp_sample_modular : counter_modular (H := mp_sample).
Proof.
  intros x y. simpl. rewrite Z.add_mod_idemp_l by lia. reflexivity.
Qed.

Lemma mem_empty_ok : mem_ok (H := mp_sample) mem_empty.
Proof.
  split.
  - unfold accounted, live_bytes. simpl. rewrite map_fold_empty. reflexivity.
  - intros m blk Hm. simpl in Hm. rewrite lookup_empty in Hm. discriminate.
Qed.

(** X9 from the empty heap. *)
Lemma MemAlloc_MemFree_round_trip_witness :
  MemFree (H := mp_sample)
    (MemAlloc (H := mp_sample) 4096 2 16 4 true mem_empty).1
    (MemAlloc (H := mp_sample) 4096 2 16 4 true mem_empty).2
  = Some mem_empty.
Proof.
  pose proof (MemAlloc_MemFree_round_trip (H := mp_sample) 4096 2 16 4 true
                mem_empty mp_sample_modular eq_refl eq_refl) as P.
  cbv zeta in P. apply P.
  - simpl. lia.
  - lia.
  - apply lookup_empty.
Defined.

(** X10 from the empty heap, with a header of 8 bytes. *)
Lemma MemAlloc_failed_malloc_witness :
  (MemAlloc (H := mp_sample) 0 2 16 4 true mem_empty).1 = 8 /\
  blocks (MemAlloc (H := mp_sample) 0 2 16 4 true mem_empty).2 = ∅ /\
  mem_raised (MemAlloc (H := mp_sample) 0 2 16 4 true mem_empty).2 = [(2, 72)].
Proof.
  pose proof (MemAlloc_failed_malloc (H := mp_sample) 2 16 4 true mem_empty) as P.
  cbv zeta in P.
  destruct P as (A & _ & B & _ & _ & C & _).
  - simpl. lia.
  - split; [exact A|]. split; [exact B|exact C].
Defined.

(** X11 from the empty heap. *)
Lemma counters_account_for_live_blocks_witness :
  mem_ok (H := mp_sample) (MemAlloc (H := mp_sample) 4096 2 16 4 true mem_empty).2.
Proof.
  destruct (counters_account_for_live_blocks (H := mp_sample) mem_empty
              4096 0 0 2 16 4 true (MemoryBlock 0 0)
              mp_sample_modular mem_empty_ok) as (A & _).
  apply A. apply lookup_empty.
Defined.

(** X12 on a block of 72 bytes that [realloc] cannot grow. *)
Lemma MemRealloc_outcomes_witness :
  exists s',
    MemRealloc (H := mp_sample) 0 (MemoryBlock 0 0) 4104 2 16 100 true mem_one
    = Some (0, s') /\
    blocks s' = delete 4096 (blocks mem_one) /\
    mem_raised s' = [(2, 1608)].
Proof.
  pose proof (MemRealloc_outcomes (H := mp_sample) 0 4096 2 16 100 true
                (MemoryBlock 0 0) (MemoryBlock 2 72) mem_one) as P.
  cbv zeta in P.
  destruct P as (_ & B & _).
  - simpl. lia.
  - lia.
  - apply lookup_insert_eq.
  - apply B; [vm_compute; reflexivity|reflexivity].
Defined.

(** *** Objects *)

Lemma ty_photo_consistent : consistent ty_photo.
Proof. apply consistentb_sound. vm_compute. reflexivity. Qed.

(** X14 on the two columns of [OUTER]. *)
Lemma ObjectGetIndOffset_strictly_increasing_witness :
  exists a b,
    ObjectGetIndOffset (Some ty_outer) 0 = Some a /\
    ObjectGetIndOffset (Some ty_outer) 1 = Some b /\
    1 <= a /\ a < b /\ b <= 1 + flattened_count ty_outer.
Proof.
  apply (ObjectGetIndOffset_strictly_increasing ty_outer 0 1).
  - split; [reflexivity|]. vm_compute. discriminate.
  - lia.
  - lia.
  - vm_compute. discriminate.
Defined.


(** X16 on [FLAG] of the sample instance. *)
Lemma ObjectSetBoolean_then_ObjectGetBoolean_witness :
  exists w1 w2,
    ObjectSetBoolean (Some obj_item) (Some "flag"%string) 1 w_item
    = Some (true, w1) /\
    ObjectGetBoolean (Some obj_item) (Some "flag"%string) w1
    = Some ((1, true), w2).
Proof.
  pose proof (ObjectSetBoolean_then_ObjectGetBoolean (H := lp64) (H0 := rt_map)
                obj_item "flag" 1 w_item OCI_IND_BADNULL) as P.
  cbv zeta in P.
  destruct P as (w1 & w2 & A & _ & B & _).
  - intros m p x. simpl. rewrite lookup_insert_eq. reflexivity.
  - exact ty_item_consistent.
  - reflexivity.
  - vm_compute. discriminate.
  - vm_compute. reflexivity.
  - simpl. lia.
  - exists w1, w2. split; assumption.
Defined.

(** X17 on [FLAG] of the sample instance: [CODE] and [MADE] keep their
    indicators. *)
Lemma ObjectSetNull_only_that_attribute_witness :
  exists w',
    ObjectSetNull (Some obj_item) (Some "flag"%string) w_item = Some (true, w') /\
    ObjectIsNull (Some obj_item) (Some "flag"%string) w' = Some (true, w') /\
    attr_ind w' obj_item 0 = attr_ind w_item obj_item 0 /\
    attr_ind w' obj_item 3 = attr_ind w_item obj_item 3.
Proof.
  pose proof (ObjectSetNull_only_that_attribute (H0 := rt_map)
                obj_item "flag" w_item OCI_IND_BADNULL) as P.
  cbv zeta in P.
  destruct P as (w' & A & B & _ & _ & C).
  - split; [reflexivity|]. vm_compute. discriminate.
  - vm_compute. discriminate.
  - vm_compute. reflexivity.
  - exists w'. split; [exact A|]. split; [exact B|]. split.
    + apply C; [vm_compute; split; [discriminate|reflexivity]|vm_compute; discriminate].
    + apply C; [vm_compute; split; [discriminate|reflexivity]|vm_compute; discriminate].
Defined.

(** X18 on the sample instance, which has no attribute [PRICE]. *)
Lemma accessors_on_unknown_attribute_witness :
  ObjectIsNull (Some obj_item) (Some "price"%string) w_item
  = Some (false,
          MkWorld (caches w_item) (inds w_item) (mem w_item)
                  [ExceptionAttributeNotFound "price"] (calls w_item)) /\
  ObjectSetNull (Some obj_item) (Some "price"%string) w_item
  = Some (true,
          MkWorld (caches w_item) (inds w_item) (mem w_item)
                  [ExceptionAttributeNotFound "price"] (calls w_item)).
Proof.
  pose proof (accessors_on_unknown_attribute (H := lp64) (H0 := rt_map)
                obj_item "price" 1 w_item) as P.
  cbv zeta in P.
  destruct P as (A & B & _).
  - intros c Hc.
    repeat (apply elem_of_cons in Hc as [->|Hc]; [vm_compute; reflexivity|]).
    inversion Hc.
  - split; [exact B|exact A].
Defined.

(** X19 on the sample catalog. *)
Lemma ObjectGetRealTypeInfo_slow_path_witness :
  exists r log,
    ObjectGetRealTypeInfo (H := tr_sample) (Some ty_person) 4096 = Some (r, log) /\
    last log = Some "MemObjectFree"%string /\
    ("MemHandleAlloc"%string ∈ log <-> "MemHandleFree"%string ∈ log).
Proof.
  destruct (ObjectGetRealTypeInfo (H := tr_sample) (Some ty_person) 4096)
    as [[r log]|] eqn:Hrun; [|vm_compute in Hrun; discriminate].
  assert (Hlog : log <> []).
  { vm_compute in Hrun. injection Hrun as _ <-. discriminate. }
  exists r, log. split; [reflexivity|].
  destruct (proj1 (ObjectGetRealTypeInfo_slow_path (H := tr_sample) ty_person 4096)
              r log Hrun Hlog) as (A & B & _).
  split; assumption.
Defined.

Lemma raw_sample_sized : raw_sized (H0 := rt_map) raw_size_sample raw_ptr_sample.
Proof. intros m p. split; [reflexivity|]. unfold raw_size_sample. lia. Qed.

(** X20 on the sample raw of three bytes and a buffer of two. *)
Lemma ObjectGetRaw_clamps_to_buffer_witness :
  exists w',
    ObjectGetRawSize raw_size_sample (Some obj_photo) (Some "data"%string) w_photo
    = Some ((3, true), w') /\
    ObjectGetRaw raw_size_sample raw_ptr_sample (Some obj_photo)
      (Some "data"%string) 2 w_photo
    = Some ((2, true, Some [222; 173]), w').
Proof.
  pose proof (ObjectGetRaw_clamps_to_buffer (H := lp64) (H0 := rt_map)
                raw_size_sample raw_ptr_sample obj_photo "data" 2 w_photo
                OCI_IND_NOTNULL) as P.
  cbv zeta in P.
  destruct P as (data & k & w' & _ & _ & A & B & _).
  - exact raw_sample_sized.
  - exact ty_photo_consistent.
  - reflexivity.
  - vm_compute. discriminate.
  - vm_compute. reflexivity.
  - simpl. lia.
  - lia.
  - exists w'. split; [exact A|exact B].
Defined.

Lemma ty_item_flat : flat ty_item.
Proof.
  split; [reflexivity|]. intros c Hc.
  repeat (apply elem_of_cons in Hc as [->|Hc]; [discriminate|]).
  inversion Hc.
Qed.

Lemma ty_item_rounds_up : rounds_up (H := lp64) ty_item 8.
Proof.
  split; [vm_compute; reflexivity|]. intros c Hc.
  repeat (apply elem_of_cons in Hc as [->|Hc];
          [split; [vm_compute; split; [reflexivity|discriminate]|];
           split; [vm_compute; split; [reflexivity|discriminate]|];
           intros x Hx|]).
  - exact (ROUNDUP_mask_rounds x 1 Hx ltac:(lia)).
  - exact (ROUNDUP_mask_rounds x 2 Hx ltac:(lia)).
  - exact (ROUNDUP_mask_rounds x 3 Hx ltac:(lia)).
  - exact (ROUNDUP_mask_rounds x 1 Hx ltac:(lia)).
  - inversion Hc.
Qed.

(** X21 on [ITEM] and the LP64 platform. *)
Lemma ObjectGetStructSize_flat_layout_witness :
  exists size al' h',
    ObjectGetStructSize (H := lp64) (Some ty_item) 0 0 ∅ = Some ((size, al'), h') /\
    0 < size /\ (al' | size) /\
    offset_at (cache_of h' ty_item) 0 = 0 /\
    offset_at (cache_of h' ty_item) 0 + 2 <= offset_at (cache_of h' ty_item) 1.
Proof.
  destruct (ObjectGetStructSize_flat_layout (H := lp64) ty_item 8 ∅ 0 0
              ty_item_flat ty_item_rounds_up)
    as (size & al' & h' & A & _ & _ & B & C & D & E).
  - vm_compute. reflexivity.
  - reflexivity.
  - reflexivity.
  - exists size, al', h'. split; [exact A|]. split; [exact B|].
    split; [exact C|]. split; [exact D|].
    destruct (E 0 (col_plain "CODE" OCI_CDT_NUMERIC (@OCI_NUM_SHORT lp64))
                ltac:(lia) eq_refl) as (_ & _ & _ & _ & F).
    exact (F _ eq_refl).
Defined.
